(** * Alpha-factor back-test: a shallow embedding of [backtest.py] and
    [alpha_factors.py], with the pure parts of [utils.py] and [launch.py],
    and the properties of the evaluation engine.

    Numbers.  A pandas float64 entry is modelled as [option Qc]: [None] is
    NaN (a missing value) and [Some q] is the exact rational [q].  Rounding
    and the infinities of IEEE arithmetic are outside the model: a division
    by zero gives a missing value.  Square roots (standard deviation, Sharpe
    ratio, correlation) live in the real numbers.

    Tables.  A DataFrame is its row labels (dates), its column labels and a
    cell function; labels are unique, as they are for the panels of the
    loader.  A lookup outside the labels is missing, which is what pandas
    alignment (reindexing to the union of the labels) produces.

    The pandas and scipy functions the code calls ([rank], [qcut],
    [pct_change], [rolling], [mean], [std], [corr], [spearmanr]) are
    modelled after their documented behaviour (pandas 2.x). *)

From Stdlib Require Import String Ascii List Arith ZArith QArith Qcanon Qround.
From Stdlib Require Import Lia Bool Permutation Sorted DecimalString DecimalNat.
From Stdlib Require Import Reals Lra.
Import ListNotations.

Local Open Scope string_scope.
Local Open Scope list_scope.
Local Open Scope nat_scope.

(* ------------------------------------------------------------------ *)
(** ** Cells: float64 with NaN *)

Definition cell := option Qc.

Definition Qc_ltb (x y : Qc) : bool :=
  match (x ?= y)%Qc with Lt => true | _ => false end.

Definition Qc_of_nat (n : nat) : Qc := Q2Qc (inject_Z (Z.of_nat n)).

Definition Qc_abs (x : Qc) : Qc := if Qc_ltb x 0%Qc then (- x)%Qc else x.

Definition lift2 {A B C} (f : A -> B -> C) (a : option A) (b : option B)
  : option C :=
  match a, b with
  | Some x, Some y => Some (f x y)
  | _, _ => None
  end.

Definition cell_add : cell -> cell -> cell := lift2 Qcplus.
Definition cell_sub : cell -> cell -> cell := lift2 Qcminus.
Definition cell_mul : cell -> cell -> cell := lift2 Qcmult.

(** Division; a zero divisor (inf or NaN in floating point) is missing. *)
Definition cell_div (a b : cell) : cell :=
  match a, b with
  | Some x, Some y => if Qc_eq_bool y 0%Qc then None else Some (x / y)%Qc
  | _, _ => None
  end.

Definition isna {A} (a : option A) : bool :=
  match a with Some _ => false | None => true end.

Definition notna {A} (a : option A) : bool := negb (isna a).

(** [dropna]: the present values, in order. *)
Fixpoint dropna {A} (l : list (option A)) : list A :=
  match l with
  | [] => []
  | Some x :: l' => x :: dropna l'
  | None :: l' => dropna l'
  end.

Definition Qc_sum (l : list Qc) : Qc := fold_right Qcplus 0%Qc l.

(** Mean of a sample; NaN for the empty sample. *)
Definition mean_list (l : list Qc) : cell :=
  match l with
  | [] => None
  | _ => Some (Qc_sum l / Qc_of_nat (length l))%Qc
  end.

(** [Series.mean()] and [DataFrame.mean(axis=1)] skip NaN. *)
Definition nanmean (l : list cell) : cell := mean_list (dropna l).

(** Sample variance (ddof = 1); NaN with fewer than two observations. *)
Definition var_list (l : list Qc) : cell :=
  match mean_list l with
  | None => None
  | Some m =>
      if length l <=? 1 then None
      else Some (Qc_sum (map (fun x => (x - m) * (x - m))%Qc l)
                 / Qc_of_nat (length l - 1))%Qc
  end.

(* ------------------------------------------------------------------ *)
(** ** Labels *)

Class Label (L : Type) := {
  label_eqb : L -> L -> bool;
  label_leb : L -> L -> bool;
  label_eqb_eq : forall x y, label_eqb x y = true <-> x = y
}.

Definition date := nat.

#[export] Instance date_Label : Label date :=
  {| label_eqb := Nat.eqb; label_leb := Nat.leb;
     label_eqb_eq := Nat.eqb_eq |}.

#[export] Instance string_Label : Label string :=
  {| label_eqb := String.eqb; label_leb := String.leb;
     label_eqb_eq := String.eqb_eq |}.

Section Labels.
Context {L : Type} `{Label L}.

(** [x in labels] *)
Definition mem (x : L) (l : list L) : bool := existsb (label_eqb x) l.

(** Position of the first occurrence ([length l] when absent). *)
Fixpoint position (x : L) (l : list L) : nat :=
  match l with
  | [] => 0
  | y :: l' => if label_eqb x y then 0 else S (position x l')
  end.

Fixpoint labels_eqb (a b : list L) : bool :=
  match a, b with
  | [], [] => true
  | x :: a', y :: b' => label_eqb x y && labels_eqb a' b'
  | _, _ => false
  end.

Fixpoint insert_sorted (x : L) (l : list L) : list L :=
  match l with
  | [] => [x]
  | y :: l' =>
      if label_eqb x y then l
      else if label_leb x y then x :: l
      else y :: insert_sorted x l'
  end.

(** Outer join of two label lists: the left one when they are equal,
    otherwise the sorted union. *)
Definition union_labels (a b : list L) : list L :=
  if labels_eqb a b then a else fold_right insert_sorted [] (a ++ b).
End Labels.

(* ------------------------------------------------------------------ *)
(** ** Series and DataFrames *)

Record Series (A : Type) := mkSeries {
  s_index : list date;
  s_values : date -> option A
}.
Arguments mkSeries {A}.
Arguments s_index {A}.
Arguments s_values {A}.

Record DataFrame (A : Type) := mkDataFrame {
  index : list date;
  columns : list string;
  cells : date -> string -> option A
}.
Arguments mkDataFrame {A}.
Arguments index {A}.
Arguments columns {A}.
Arguments cells {A}.

(** [s[d]], missing outside the index. *)
Definition s_at {A} (s : Series A) (d : date) : option A :=
  if mem d (s_index s) then s_values s d else None.

(** The values of a series in index order. *)
Definition s_list {A} (s : Series A) : list (option A) :=
  map (s_at s) (s_index s).

(** [df.at[d, c]], missing outside the labels. *)
Definition lookup {A} (df : DataFrame A) (d : date) (c : string) : option A :=
  if mem d (index df) && mem c (columns df) then cells df d c else None.

(** [df.loc[d]] as the list of its entries in column order. *)
Definition row {A} (df : DataFrame A) (d : date) : list (option A) :=
  map (lookup df d) (columns df).

(** [df[c]] as the list of its entries in date order. *)
Definition column {A} (df : DataFrame A) (c : string) : list (option A) :=
  map (fun d => lookup df d c) (index df).

(** A column of a table as a series. *)
Definition get_column {A} (df : DataFrame A) (c : string) : Series A :=
  mkSeries (index df) (fun d => lookup df d c).

(** Binary operators align both operands on the union of their labels. *)
Definition align2 {A B C} (f : option A -> option B -> option C)
  (x : DataFrame A) (y : DataFrame B) : DataFrame C :=
  mkDataFrame (union_labels (index x) (index y))
              (union_labels (columns x) (columns y))
              (fun d c => f (lookup x d c) (lookup y d c)).

Definition series_align2 {A B C} (f : option A -> option B -> option C)
  (x : Series A) (y : Series B) : Series C :=
  mkSeries (union_labels (s_index x) (s_index y))
           (fun d => f (s_at x d) (s_at y d)).

(** Elementwise map, labels kept. *)
Definition map_cells {A B} (f : option A -> option B) (x : DataFrame A)
  : DataFrame B :=
  mkDataFrame (index x) (columns x) (fun d c => f (lookup x d c)).

(** An operation along the date axis, applied to every column. *)
Definition map_columns {A B} (g : list (option A) -> list (option B))
  (x : DataFrame A) : DataFrame B :=
  mkDataFrame (index x) (columns x)
    (fun d c => nth (position d (index x)) (g (column x c)) None).

(** [df.mean(axis=1)] *)
Definition mean_axis1 (x : DataFrame Qc) : Series Qc :=
  mkSeries (index x) (fun d => nanmean (row x d)).

(** [df_a.index.equals(df_b.index) and df_a.columns.equals(df_b.columns)] *)
Definition same_labels {A B} (x : DataFrame A) (y : DataFrame B) : bool :=
  labels_eqb (index x) (index y) && labels_eqb (columns x) (columns y).

(* ------------------------------------------------------------------ *)
(** ** Exceptions and dictionaries *)

Inductive Exn : Type :=
| KeyError (key : string)
| KeyErrorDate (d : date)
| ValueError (msg : string).

Definition dict (V : Type) := list (string * V).

Fixpoint dict_get {V} (k : string) (d : dict V) : option V :=
  match d with
  | [] => None
  | (k', v) :: d' => if String.eqb k k' then Some v else dict_get k d'
  end.

(** [d[k] = v]: overwrite in place, or append. *)
Fixpoint dict_set {V} (k : string) (v : V) (d : dict V) : dict V :=
  match d with
  | [] => [(k, v)]
  | (k', v') :: d' =>
      if String.eqb k k' then (k, v) :: d' else (k', v') :: dict_set k v d'
  end.

Definition dict_keys {V} (d : dict V) : list string := map fst d.

(** [d[k]], raising [KeyError]. *)
Definition dict_item {V} (k : string) (d : dict V) : Exn + V :=
  match dict_get k d with
  | Some v => inr v
  | None => inl (KeyError k)
  end.

(** [df.loc[dates]]: every requested date must be a row label. *)
Definition loc_rows {A} (df : DataFrame A) (dates : list date)
  : Exn + DataFrame A :=
  match find (fun d => negb (mem d (index df))) dates with
  | Some d => inl (KeyErrorDate d)
  | None => inr (mkDataFrame dates (columns df) (lookup df))
  end.

(** The error monad of a function that may raise. *)
Definition bind_exn {A B} (m : Exn + A) (f : A -> Exn + B) : Exn + B :=
  match m with
  | inl e => inl e
  | inr a => f a
  end.

Notation "'try!' x <- m ; k" := (bind_exn m (fun x => k))
  (at level 10, x name, m at level 100, k at level 200).

(* ------------------------------------------------------------------ *)
(** ** Operations along the date axis *)

Fixpoint map2 {A B C} (f : A -> B -> C) (a : list A) (b : list B) : list C :=
  match a, b with
  | x :: a', y :: b' => f x y :: map2 f a' b'
  | _, _ => []
  end.

(** [shift(periods)]: the values move down (up when negative), NaN fills in. *)
Definition shift {A} (periods : Z) (l : list (option A)) : list (option A) :=
  if (0 <=? periods)%Z
  then firstn (length l) (repeat None (Z.to_nat periods) ++ l)
  else skipn (Z.to_nat (- periods)) l
       ++ repeat None (Nat.min (Z.to_nat (- periods)) (length l)).

(** Forward fill ([fill_method='pad']). *)
Fixpoint pad_from {A} (last : option A) (l : list (option A))
  : list (option A) :=
  match l with
  | [] => []
  | Some x :: l' => Some x :: pad_from (Some x) l'
  | None :: l' => last :: pad_from last l'
  end.

(** [pct_change(periods)]: [data / data.shift(periods) - 1] on the padded
    data. *)
Definition pct_change (periods : Z) (l : list cell) : list cell :=
  let data := pad_from None l in
  map2 (fun a b => cell_sub (cell_div a b) (Some 1%Qc))
       data (shift periods data).

(** [rolling(window).agg()] with [min_periods = window]: a value needs a
    full window of present observations. *)
Definition rolling (window : nat) (agg : list Qc -> cell) (l : list cell)
  : list cell :=
  map (fun i =>
         if window <=? S i then
           let w := skipn (S i - window) (firstn (S i) l) in
           if forallb notna w then agg (dropna w) else None
         else None)
      (seq 0 (length l)).

(* ------------------------------------------------------------------ *)
(** ** alpha_factors.py *)

Module AlphaFactors.

(** [-prices.pct_change(window)] *)
Definition price_reversal (prices : DataFrame Qc) (window : Z)
  : DataFrame Qc :=
  let returns := map_columns (pct_change window) prices in
  let alpha := map_cells (option_map Qcopp) returns in
  alpha.

(** The literal [1e-8]. *)
Definition epsilon : Qc := Q2Qc (1 # 100000000).

Definition volume_price_ratio (prices volumes : DataFrame Qc)
  (window : nat) : DataFrame Qc :=
  let price_change :=
    map_cells (option_map Qc_abs) (map_columns (pct_change 1) prices) in
  let volume_change :=
    map_cells (option_map Qc_abs) (map_columns (pct_change 1) volumes) in
  let ratio :=
    align2 cell_div volume_change
      (map_cells (fun x => cell_add x (Some epsilon)) price_change) in
  let alpha := map_columns (rolling window mean_list) ratio in
  alpha.

(** [x > base + 2 * sqrt(variance)], decided on squares; false as soon as
    an operand is missing.  The rolling standard deviation of the source
    is the square root of the rolling sample variance; the model keeps
    the variance. *)
Definition beyond_band (x base variance : cell) : bool :=
  match x, base, variance with
  | Some x, Some b, Some v =>
      Qc_ltb 0%Qc (x - b)%Qc
      && Qc_ltb (Qc_of_nat 4 * v)%Qc ((x - b) * (x - b))%Qc
  | _, _, _ => false
  end.

(** Comparing two DataFrames needs identical labels. *)
Definition not_identically_labeled : Exn :=
  ValueError "Can only compare identically-labeled DataFrame objects".

Definition volatility_breakout (high_prices low_prices close_prices
  : DataFrame Qc) (window : nat) : Exn + DataFrame Qc :=
  let variance := map_columns (rolling window var_list) close_prices in
  let previous := map_columns (shift 1) close_prices in
  (* upper_band = previous + 2 sd;  lower_band = previous - 2 sd *)
  if negb (same_labels high_prices close_prices)
  then inl not_identically_labeled
  else
    let breakout_up :=
      mkDataFrame (index high_prices) (columns high_prices)
        (fun d c =>
           Some (if beyond_band (lookup high_prices d c)
                      (lookup previous d c) (lookup variance d c)
                 then 1%Qc else 0%Qc)) in
    if negb (same_labels low_prices close_prices)
    then inl not_identically_labeled
    else
      let breakout_down :=
        mkDataFrame (index low_prices) (columns low_prices)
          (fun d c =>
             Some (if beyond_band (lookup previous d c)
                        (lookup low_prices d c) (lookup variance d c)
                   then (- (1))%Qc else 0%Qc)) in
      let alpha := align2 cell_add breakout_up breakout_down in
      inr alpha.

Definition calculate_all_factors (ohlcv_data : dict (DataFrame Qc))
  : Exn + dict (DataFrame Qc) :=
  let factors := [] in
  try! close <- dict_item "close" ohlcv_data;
  let factors := dict_set "price_reversal" (price_reversal close 5) factors in
  try! close <- dict_item "close" ohlcv_data;
  try! volume <- dict_item "volume" ohlcv_data;
  let factors :=
    dict_set "volume_price_ratio" (volume_price_ratio close volume 10)
             factors in
  try! high <- dict_item "high" ohlcv_data;
  try! low <- dict_item "low" ohlcv_data;
  try! close <- dict_item "close" ohlcv_data;
  try! breakout <- volatility_breakout high low close 20;
  let factors := dict_set "volatility_breakout" breakout factors in
  inr factors.

End AlphaFactors.

(* ------------------------------------------------------------------ *)
(** ** The pandas functions of the cross-sectional bucketer *)

(** [Series.unique()]: the distinct values, first occurrences kept. *)
Fixpoint unique (l : list Qc) : list Qc :=
  match l with
  | [] => []
  | x :: l' => x :: filter (fun y => negb (Qc_eq_bool x y)) (unique l')
  end.

Definition count_lt (x : Qc) (l : list Qc) : nat :=
  length (filter (fun y => Qc_ltb y x) l).

Definition count_eq (x : Qc) (l : list Qc) : nat :=
  length (filter (fun y => Qc_eq_bool y x) l).

(** [rank(method='first')]: one plus the number of smaller values plus the
    number of equal values met earlier; NaN keeps NaN.  [all] holds the
    present values of the whole row, [seen] those already passed. *)
Fixpoint rank_from (all seen : list Qc) (l : list cell) : list (option nat) :=
  match l with
  | [] => []
  | None :: l' => None :: rank_from all seen l'
  | Some x :: l' =>
      Some (1 + count_lt x all + count_eq x seen)
        :: rank_from all (x :: seen) l'
  end.

Definition rank_first (l : list cell) : list (option nat) :=
  rank_from (dropna l) [] l.

Fixpoint Qc_insert (x : Qc) (l : list Qc) : list Qc :=
  match l with
  | [] => [x]
  | y :: l' => if Qc_ltb y x then y :: Qc_insert x l' else x :: l
  end.

Definition Qc_sort (l : list Qc) : list Qc := fold_right Qc_insert [] l.

(** [np.linspace(0, 1, q + 1)] *)
Definition linspace01 (q : nat) : list Qc :=
  match q with
  | 0 => [0%Qc]
  | _ => map (fun j => (Qc_of_nat j / Qc_of_nat q)%Qc) (seq 0 (S q))
  end.

(** [Series.quantile(p)] with linear interpolation, on the sorted sample. *)
Definition quantile (sorted : list Qc) (p : Qc) : Qc :=
  let n := length sorted in
  let h := (p * Qc_of_nat (n - 1))%Qc in
  let lo := Z.to_nat (Qfloor h) in
  let hi := Nat.min (lo + 1) (n - 1) in
  let a := nth lo sorted 0%Qc in
  let b := nth hi sorted 0%Qc in
  (a + (h - Qc_of_nat lo) * (b - a))%Qc.

(** [bins.searchsorted(x, side='left')] on increasing [bins]: the position
    of the first edge that is not below [x]. *)
Fixpoint searchsorted_left (bins : list Qc) (x : Qc) : nat :=
  match bins with
  | [] => 0
  | b :: bins' => if Qc_ltb b x then S (searchsorted_left bins' x) else 0
  end.

Fixpoint distinct_strings (l : list string) : bool :=
  match l with
  | [] => true
  | x :: l' => negb (mem x l') && distinct_strings l'
  end.

(** [_bins_to_cuts(x, bins, labels=labels, include_lowest=True,
    duplicates='drop')] *)
Definition bins_to_cuts (x : list cell) (bins : list Qc)
  (labels : list string) : Exn + list (option string) :=
  let unique_bins := unique bins in
  let bins :=
    if (length unique_bins <? length bins) && negb (length bins =? 2)
    then unique_bins else bins in
  let ids :=
    map (option_map (fun v =>
           if Qc_eq_bool v (nth 0 bins 0%Qc) then 1
           else searchsorted_left bins v)) x in
  if negb (distinct_strings labels)
  then inl (ValueError "labels must be unique if ordered=True")
  else if negb (length labels + 1 =? length bins)
  then inl (ValueError
              "Bin labels must be one fewer than the number of bin edges")
  else
    inr (map (fun id =>
                match id with
                | None => None
                | Some i =>
                    if (i =? length bins) || (i =? 0) then None
                    else nth_error labels (i - 1)
                end) ids).

(** [pd.qcut(x, q=q, labels=labels, duplicates='drop')].  The quantiles of
    an empty sample are NaN: the edges collapse to one NaN edge unless
    there are exactly two, so that more than one label is refused and
    nothing is labelled otherwise. *)
Definition qcut (x : list cell) (q : nat) (labels : list string)
  : Exn + list (option string) :=
  match dropna x with
  | [] =>
      if negb (distinct_strings labels)
      then inl (ValueError "labels must be unique if ordered=True")
      else if q <=? 1 then inr (map (fun _ => None) x)
      else inl (ValueError
                  "Bin labels must be one fewer than the number of bin edges")
  | _ =>
      let quantiles := linspace01 q in
      let bins := map (quantile (Qc_sort (dropna x))) quantiles in
      bins_to_cuts x bins labels
  end.

(** The decimal numeral of a natural number, as [str(n)] prints it. *)
Definition decimal (n : nat) : string :=
  NilEmpty.string_of_uint (Nat.to_uint n).

(** [[f'Q{i+1}' for i in range(quantiles)]] *)
Definition quantile_label (i : nat) : string := "Q" ++ decimal i.

Definition quantile_labels (quantiles : nat) : list string :=
  map (fun i => quantile_label (i + 1)) (seq 0 quantiles).

(* ------------------------------------------------------------------ *)
(** ** Statistics over the reals *)

Local Open Scope R_scope.

Definition Qc2R (q : Qc) : R := Q2R (this q).

Definition R_sum (l : list R) : R := fold_right Rplus 0 l.

Definition R_mean (l : list R) : option R :=
  match l with
  | [] => None
  | _ => Some (R_sum l / INR (length l))
  end.

(** Sample covariance (ddof = 1) of two samples of one length. *)
Definition R_cov (x y : list R) : option R :=
  match R_mean x, R_mean y with
  | Some mx, Some my =>
      if (length x <=? 1)%nat then None
      else Some (R_sum (map2 (fun a b => (a - mx) * (b - my)) x y)
                 / INR (length x - 1))
  | _, _ => None
  end.

(** Sample standard deviation (ddof = 1). *)
Definition R_std (l : list R) : option R := option_map sqrt (R_cov l l).

(** [Series.mean()] and [Series.std()]: NaN is skipped. *)
Definition series_mean (l : list (option R)) : option R := R_mean (dropna l).
Definition series_std (l : list (option R)) : option R := R_std (dropna l).

(** [np.mean] of a list: NaN propagates, the empty list gives NaN. *)
Definition np_mean (l : list (option R)) : option R :=
  if forallb notna l then R_mean (dropna l) else None.

(** [np.sqrt]: NaN below zero. *)
Definition np_sqrt (x : R) : option R :=
  if Rlt_dec x 0 then None else Some (sqrt x).

(** Pearson correlation of paired samples: covariance over the product of
    the standard deviations; NaN with fewer than two pairs or a constant
    sample. *)
Definition pearson (pairs : list (R * R)) : option R :=
  let x := map fst pairs in
  let y := map snd pairs in
  match R_cov x y, R_std x, R_std y with
  | Some c, Some sx, Some sy =>
      if Req_EM_T (sx * sy) 0 then None else Some (c / (sx * sy))
  | _, _, _ => None
  end.

Local Close Scope R_scope.

(** [scipy.stats.rankdata]: ties share the average of their ranks. *)
Definition rank_average (l : list Qc) : list Qc :=
  map (fun x =>
         (Qc_of_nat (count_lt x l)
          + (Qc_of_nat (count_eq x l) + 1) / Qc_of_nat 2)%Qc) l.

(** [scipy.stats.spearmanr(a, b)[0]]: NaN with at most one observation,
    otherwise the Pearson correlation of the ranks. *)
Definition spearmanr (pairs : list (Qc * Qc)) : option R :=
  if length pairs <=? 1 then None
  else
    pearson (combine (map Qc2R (rank_average (map fst pairs)))
                     (map Qc2R (rank_average (map snd pairs)))).

(* ------------------------------------------------------------------ *)
(** ** backtest.py: the state of a back-test and its methods *)

(** What the methods print. *)
Inductive Diagnostic : Type :=
| GroupingError (dt : date) (e : Exn)
    (* "grouping error {dt}: {e}" *)
| TooFewDistinct (dt : date) (quantiles : nat)
    (* "date {dt} has fewer than {quantiles} distinct factor values,
        grouping skipped" *)
| NoGrouping (factor_name : string)
    (* "warning: factor {factor_name} has too few groups for the
        long-short portfolio" *)
| EmptyLongShort (name : string).
    (* "warning: the long-short returns of factor {name} are empty,
        evaluation skipped" *)

Record AlphaBacktest := mkAlphaBacktest {
  ohlcv_data : dict (DataFrame Qc);
  factors : dict (DataFrame Qc);
  returns : DataFrame Qc
}.

(** A method runs on the object and the text printed so far; it raises, or
    returns a value with the object and the output as they are afterwards. *)
Definition M (A : Type) : Type :=
  AlphaBacktest * list Diagnostic ->
  Exn + (A * (AlphaBacktest * list Diagnostic)).

Definition ret {A} (a : A) : M A := fun s => inr (a, s).

Definition bind {A B} (m : M A) (f : A -> M B) : M B :=
  fun s => match m s with
           | inl e => inl e
           | inr (a, s') => f a s'
           end.

Definition lift_exn {A} (m : Exn + A) : M A :=
  fun s => match m with
           | inl e => inl e
           | inr a => inr (a, s)
           end.

Definition get_self : M AlphaBacktest := fun s => inr (fst s, s).

Definition set_factors (fs : dict (DataFrame Qc)) : M unit :=
  fun s => inr (tt, (mkAlphaBacktest (ohlcv_data (fst s)) fs (returns (fst s)),
                     snd s)).

Definition print (d : Diagnostic) : M unit :=
  fun s => inr (tt, (fst s, snd s ++ [d])).

Definition print_all (ds : list Diagnostic) : M unit :=
  fun s => inr (tt, (fst s, snd s ++ ds)).

Notation "'do' x <- m ; k" := (bind m (fun x => k))
  (at level 10, x name, m at level 100, k at level 200).
Notation "m ;; k" := (bind m (fun _ => k))
  (at level 100, k at level 200, right associativity).

(** [AlphaBacktest(ohlcv_data)]; the forward return is
    [close.pct_change(1).shift(-1)]. *)
Definition __init__ (ohlcv_data : dict (DataFrame Qc)) : Exn + AlphaBacktest :=
  try! close <- dict_item "close" ohlcv_data;
  inr (mkAlphaBacktest ohlcv_data []
         (map_columns (shift (-1)) (map_columns (pct_change 1) close))).

Definition count_notna {A} (l : list (option A)) : nat :=
  length (filter notna l).

(** [non_na_count >= 0.8 * len(columns)], in exact arithmetic (the floating
    product is the exact one whenever that is a whole number). *)
Definition enough_data (close : DataFrame Qc) (d : date) : bool :=
  4 * length (columns close) <=? 5 * count_notna (row close d).

Fixpoint filter_items (valid_dates : list date)
  (items filtered_data : dict (DataFrame Qc)) : Exn + dict (DataFrame Qc) :=
  match items with
  | [] => inr filtered_data
  | (key, df) :: items' =>
      try! rows <- loc_rows df valid_dates;
      filter_items valid_dates items' (dict_set key rows filtered_data)
  end.

Definition calculate_factors : M unit :=
  do self <- get_self;
  do close <- lift_exn (dict_item "close" (ohlcv_data self));
  let valid_dates := filter (enough_data close) (index close) in
  do filtered_data <-
    lift_exn (filter_items valid_dates (ohlcv_data self) []);
  do fs <- lift_exn (AlphaFactors.calculate_all_factors filtered_data);
  set_factors fs.

(** [if not self.factors: self.calculate_factors()] *)
Definition ensure_factors : M unit :=
  do self <- get_self;
  match factors self with
  | [] => calculate_factors
  | _ => ret tt
  end.

(** [df.loc[dt] = values], the values given in column order. *)
Definition set_row {A} (df : DataFrame A) (dt : date)
  (values : list (option A)) : DataFrame A :=
  mkDataFrame (index df) (columns df)
    (fun d c =>
       if label_eqb d dt then nth (position c (columns df)) values None
       else cells df d c).

(** One turn of the loop over the dates: the row is bucketed, or skipped
    with a message. *)
Definition assign_date (factor : DataFrame Qc) (quantiles : nat)
  (quantile_labels : list string)
  (acc : DataFrame string * list Diagnostic) (dt : date)
  : DataFrame string * list Diagnostic :=
  let (factor_quantiles, out) := acc in
  let row := row factor dt in
  let unique_valid_values := unique (dropna row) in
  if quantiles <=? length unique_valid_values then
    match qcut (map (option_map Qc_of_nat) (rank_first row))
               quantiles quantile_labels with
    | inr labels => (set_row factor_quantiles dt labels, out)
    | inl e => (factor_quantiles, out ++ [GroupingError dt e])
    end
  else (factor_quantiles, out ++ [TooFewDistinct dt quantiles]).

(** The loop over [factor.index], from the all-missing table. *)
Definition assign_quantiles (factor : DataFrame Qc) (quantiles : nat)
  : DataFrame string * list Diagnostic :=
  fold_left (assign_date factor quantiles (quantile_labels quantiles))
    (index factor)
    (mkDataFrame (index factor) (columns factor) (fun _ _ => None), []).

(** [factor_quantiles == q] *)
Definition equals_label (factor_quantiles : DataFrame string) (q : string)
  : DataFrame bool :=
  map_cells (fun x => match x with
                      | Some l => Some (String.eqb l q)
                      | None => Some false
                      end) factor_quantiles.

(** float * bool: [True] is 1 and [False] is 0. *)
Definition times_mask (r : cell) (m : option bool) : cell :=
  cell_mul r (option_map (fun b : bool => if b then 1%Qc else 0%Qc) m).

(** [pd.DataFrame(group_returns)]: one column per key, over the union of
    the indexes of the series. *)
Definition frame_of_series {A} (d : dict (Series A)) : DataFrame A :=
  mkDataFrame
    (match d with
     | [] => []
     | (_, s) :: d' =>
         fold_left (fun acc ks => union_labels acc (s_index (snd ks)))
                   d' (s_index s)
     end)
    (dict_keys d)
    (fun dt c => match dict_get c d with
                 | Some s => s_at s dt
                 | None => None
                 end).

(** The loop that fills [group_returns]. *)
Definition group_returns_of (returns : DataFrame Qc)
  (factor_quantiles : DataFrame string) (quantile_labels : list string)
  : dict (Series Qc) :=
  fold_left
    (fun group_returns q =>
       let mask := equals_label factor_quantiles q in
       dict_set q (mean_axis1 (align2 times_mask returns mask)) group_returns)
    quantile_labels [].

Definition calculate_factor_returns (factor_name : string) (quantiles : nat)
  : M (DataFrame Qc) :=
  ensure_factors ;;
  do self <- get_self;
  do factor <- lift_exn (dict_item factor_name (factors self));
  let quantile_labels := quantile_labels quantiles in
  let (factor_quantiles, out) := assign_quantiles factor quantiles in
  print_all out ;;
  let group_returns :=
    group_returns_of (returns self) factor_quantiles quantile_labels in
  ret (frame_of_series group_returns).

Definition calculate_long_short_returns (factor_name : string)
  (quantiles : nat) : M (Series Qc) :=
  do group_returns <- calculate_factor_returns factor_name quantiles;
  if mem (quantile_label quantiles) (columns group_returns)
     && mem "Q1" (columns group_returns)
  then
    let long_short_returns :=
      series_align2 cell_sub
        (get_column group_returns (quantile_label quantiles))
        (get_column group_returns "Q1") in
    ret long_short_returns
  else
    print (NoGrouping factor_name) ;;
    do self <- get_self;
    ret (mkSeries (index (returns self)) (fun _ => None)).

(** [s[dt] = v] on a label of the index. *)
Definition s_set {A} (s : Series A) (dt : date) (v : option A) : Series A :=
  mkSeries (s_index s)
           (fun d => if label_eqb d dt then v else s_values s d).

(** The pairs of [calculate_factor_ic] at one date: [valid] keeps the
    columns where the factor and the return are both present. *)
Definition valid_pairs (factor returns : DataFrame Qc) (dt : date)
  : list (Qc * Qc) :=
  dropna (map (fun c => lift2 pair (lookup factor dt c) (lookup returns dt c))
              (columns factor)).

Definition ic_date (factor returns : DataFrame Qc) (ic_series : Series R)
  (dt : date) : Series R :=
  if mem dt (index returns) then
    let valid := valid_pairs factor returns dt in
    if 0 <? length valid then s_set ic_series dt (spearmanr valid)
    else ic_series
  else ic_series.

Definition calculate_factor_ic (factor_name : string) : M (Series R) :=
  ensure_factors ;;
  do self <- get_self;
  do factor <- lift_exn (dict_item factor_name (factors self));
  let ic_series := mkSeries (index factor) (fun _ => None) in
  ret (fold_left (ic_date factor (returns self)) (index factor) ic_series).

(** [calculate_sharpe_ratio(returns, annualization)]; [None] is NaN.  With
    a NaN deviation the test [std_return != 0] holds and the quotient is
    NaN. *)
Definition calculate_sharpe_ratio (returns : list (option R))
  (annualization : Z) : option R :=
  let mean_return :=
    option_map (fun m => (m * IZR annualization)%R) (series_mean returns) in
  let std_return :=
    lift2 Rmult (series_std returns) (np_sqrt (IZR annualization)) in
  match std_return with
  | Some s =>
      if Req_EM_T s 0%R then Some 0%R
      else option_map (fun m => (m / s)%R) mean_return
  | None => None
  end.

(** The observations on which two factors are both present, pooled over
    dates and instruments. *)
Definition pooled_pairs (f g : DataFrame Qc) : list (R * R) :=
  flat_map (fun d =>
    dropna (map (fun c =>
                   lift2 pair (option_map Qc2R (lookup f d c))
                              (option_map Qc2R (lookup g d c)))
                (columns f)))
    (index f).

Definition has_values (f : DataFrame Qc) : bool :=
  existsb (fun d => existsb notna (row f d)) (index f).

(** A correlation table: its names, and the entry of two of them. *)
Record Matrix := mkMatrix {
  matrix_names : list string;
  matrix_entry : string -> string -> option R
}.

Definition calculate_factor_correlation : M Matrix :=
  ensure_factors ;;
  do self <- get_self;
  let fs := factors self in
  let names :=
    fold_right insert_sorted []
      (dict_keys (filter (fun kv => has_values (snd kv)) fs)) in
  ret (mkMatrix names
         (fun a b =>
            match dict_get a fs, dict_get b fs with
            | Some f, Some g =>
                if mem a names && mem b names
                then pearson (pooled_pairs f g) else None
            | _, _ => None
            end)).

(** The values of the results dictionary. *)
Inductive ResultValue : Type :=
| FactorResult (sharpe_ratio mean_ic ic_ir : option R)
               (long_short : Series Qc)
| CorrelationMatrix (m : Matrix)
| Scalar (x : option R).

(** [isinstance(r, dict)] picks the per-factor entries. *)
Definition sharpe_of (r : ResultValue) : list (option R) :=
  match r with
  | FactorResult sharpe _ _ _ => [sharpe]
  | _ => []
  end.

Definition series_to_R (s : Series Qc) : list (option R) :=
  map (option_map Qc2R) (s_list s).

(** [ic_series.mean() / ic_series.std() if ic_series.std() != 0 else 0] *)
Definition information_ratio (ic : list (option R)) : option R :=
  match series_std ic with
  | Some s =>
      if Req_EM_T s 0%R then Some 0%R
      else option_map (fun m => (m / s)%R) (series_mean ic)
  | None => None
  end.

(** [s.empty] and [s.isna().all()] *)
Definition series_empty {A} (s : Series A) : bool :=
  match s_index s with [] => true | _ => false end.

Definition isna_all {A} (s : Series A) : bool := forallb isna (s_list s).

(** The body of the loop over the factor names. *)
Definition evaluate_factor (quantiles : nat) (results : dict ResultValue)
  (name : string) : M (dict ResultValue) :=
  do long_short_returns <- calculate_long_short_returns name quantiles;
  if series_empty long_short_returns || isna_all long_short_returns
  then
    print (EmptyLongShort name) ;;
    ret results
  else
    let sharpe :=
      calculate_sharpe_ratio (series_to_R long_short_returns) 252 in
    do ic_series <- calculate_factor_ic name;
    ret (dict_set name
           (FactorResult sharpe
              (series_mean (s_list ic_series))
              (information_ratio (s_list ic_series))
              long_short_returns)
           results).

Fixpoint evaluate_loop (quantiles : nat) (names : list string)
  (results : dict ResultValue) : M (dict ResultValue) :=
  match names with
  | [] => ret results
  | name :: names' =>
      do results' <- evaluate_factor quantiles results name;
      evaluate_loop quantiles names' results'
  end.

Definition evaluate_all_factors (quantiles : nat) : M (dict ResultValue) :=
  ensure_factors ;;
  do self <- get_self;
  do results <- evaluate_loop quantiles (dict_keys (factors self)) [];
  do correlation_matrix <- calculate_factor_correlation;
  let results :=
    dict_set "correlation_matrix" (CorrelationMatrix correlation_matrix)
             results in
  let sharpe_ratios := flat_map (fun kv => sharpe_of (snd kv)) results in
  let results :=
    dict_set "average_sharpe"
      (Scalar (match sharpe_ratios with
               | [] => Some 0%R
               | _ => np_mean sharpe_ratios
               end))
      results in
  ret results.


(* ------------------------------------------------------------------ *)
(** ** A small market, for the concrete runs *)

(** A table written row by row, with integer entries. *)
Definition table (idx : list date) (cols : list string) (rows : list (list Z))
  : DataFrame Qc :=
  mkDataFrame idx cols
    (fun d c =>
       option_map (fun z => Q2Qc (inject_Z z))
                  (nth_error (nth (position d idx) rows [])
                             (position c cols))).

(** Three instruments over seven dates: flat prices, then a move on the
    sixth date and another on the seventh. *)
Definition sample_prices : DataFrame Qc :=
  table [0; 1; 2; 3; 4; 5; 6] ["A"; "B"; "C"]
        [[10; 10; 10]; [10; 10; 10]; [10; 10; 10]; [10; 10; 10];
         [10; 10; 10]; [12; 11; 10]; [18; 22; 25]]%Z.

Definition sample_data : dict (DataFrame Qc) :=
  [("open", sample_prices); ("high", sample_prices); ("low", sample_prices);
   ("close", sample_prices); ("volume", sample_prices)].

(** The same market without the panel of opening prices, and without the
    panel of volumes. *)
Definition sample_without_open : dict (DataFrame Qc) :=
  [("high", sample_prices); ("low", sample_prices);
   ("close", sample_prices); ("volume", sample_prices)].

Definition sample_without_volume : dict (DataFrame Qc) :=
  [("open", sample_prices); ("high", sample_prices); ("low", sample_prices);
   ("close", sample_prices)].

(** The object built from [sample_data]. *)
Definition sample_backtest : AlphaBacktest :=
  mkAlphaBacktest sample_data []
    (map_columns (shift (-1)) (map_columns (pct_change 1) sample_prices)).

(** Did a run return normally? *)
Definition returned {A} (r : Exn + A) : bool :=
  match r with inr _ => true | inl _ => false end.


(** The bucket mean as the specification words it: the equal-weighted mean
    of the forward returns of the instruments that hold the label [q] at
    [dt]; missing when no instrument holds it. *)
Definition bucket_mean_spec (returns : DataFrame Qc)
  (factor_quantiles : DataFrame string) (q : string) (dt : date) : cell :=
  nanmean
    (map (fun c => lookup returns dt c)
         (filter (fun c => match lookup factor_quantiles dt c with
                           | Some l => String.eqb l q
                           | None => false
                           end)
                 (columns factor_quantiles))).

(** A table with one more missing entry. *)
Definition with_missing {A} (df : DataFrame A) (d : date) (c : string)
  : DataFrame A :=
  mkDataFrame (index df) (columns df)
    (fun d' c' =>
       if Nat.eqb d' d && String.eqb c' c then None else lookup df d' c').

(** The sample market with two of the three closing prices of the third
    date missing. *)
Definition gappy_prices : DataFrame Qc :=
  with_missing (with_missing sample_prices 2 "A") 2 "B".

Definition gappy_data : dict (DataFrame Qc) :=
  [("open", gappy_prices); ("high", gappy_prices); ("low", gappy_prices);
   ("close", gappy_prices); ("volume", gappy_prices)].

Definition gappy_backtest : AlphaBacktest :=
  mkAlphaBacktest gappy_data []
    (map_columns (shift (-1)) (map_columns (pct_change 1) gappy_prices)).

Definition gappy_ready : AlphaBacktest * list Diagnostic :=
  match calculate_factors (gappy_backtest, []) with
  | inr (_, s) => s
  | inl _ => (gappy_backtest, [])
  end.

(** The object after [calculate_factors], with nothing printed. *)
Definition sample_ready : AlphaBacktest * list Diagnostic :=
  match calculate_factors (sample_backtest, []) with
  | inr (_, s) => s
  | inl _ => (sample_backtest, [])
  end.

(** One of its factor panels. *)
Definition sample_factor (name : string) : DataFrame Qc :=
  match dict_get name (factors (fst sample_ready)) with
  | Some f => f
  | None => sample_prices
  end.

Definition is_some {A} (a : option A) : bool :=
  match a with Some _ => true | None => false end.

(** What the bucketer decides for the row of one date: the labels of
    [qcut], or no label at all when the date is skipped or [qcut] raises. *)
Definition bucket_labels (factor : DataFrame Qc) (quantiles : nat) (dt : date)
  : list (option string) :=
  let r := row factor dt in
  if quantiles <=? length (unique (dropna r)) then
    match qcut (map (option_map Qc_of_nat) (rank_first r))
               quantiles (quantile_labels quantiles) with
    | inr labels => labels
    | inl _ => map (fun _ => None) r
    end
  else map (fun _ => None) r.

(** The series [calculate_factor_ic] builds from a factor panel. *)
Definition ic_series_of (returns factor : DataFrame Qc) : Series R :=
  fold_left (ic_date factor returns) (index factor)
            (mkSeries (index factor) (fun _ => None)).

(** The entry [evaluate_all_factors] stores for a factor with the
    long-short series [ls]. *)
Definition factor_entry (returns factor : DataFrame Qc) (ls : Series Qc)
  : ResultValue :=
  FactorResult (calculate_sharpe_ratio (series_to_R ls) 252)
               (series_mean (s_list (ic_series_of returns factor)))
               (information_ratio (s_list (ic_series_of returns factor)))
               ls.

(** Equality test on cells and on lists of cells. *)
Definition cell_eqb (a b : cell) : bool :=
  match a, b with
  | Some x, Some y => Qc_eq_bool x y
  | None, None => true
  | _, _ => false
  end.

Fixpoint cells_eqb (a b : list cell) : bool :=
  match a, b with
  | [], [] => true
  | x :: a', y :: b' => cell_eqb x y && cells_eqb a' b'
  | _, _ => false
  end.

(** A fraction of two integers. *)
Definition frac (n : Z) (d : positive) : Qc := Q2Qc (n # d).

Definition zero_or_missing (x : cell) : bool :=
  match x with
  | Some q => Qc_eq_bool q 0%Qc
  | None => true
  end.

(** Is every entry of the panel the same number [v]? *)
Definition constant_panel (f : DataFrame Qc) (v : Qc) : bool :=
  forallb (fun d => forallb (fun c => cell_eqb (lookup f d c) (Some v))
                            (columns f))
          (index f).

(** The table [calculate_factor_returns] builds from the forward returns
    and a factor panel. *)
Definition grouped_returns (returns factor : DataFrame Qc) (quantiles : nat)
  : DataFrame Qc :=
  frame_of_series
    (group_returns_of returns (fst (assign_quantiles factor quantiles))
                      (quantile_labels quantiles)).

(** The series the first branch of [calculate_long_short_returns] builds. *)
Definition spread (group_returns : DataFrame Qc) (quantiles : nat)
  : Series Qc :=
  series_align2 cell_sub
    (get_column group_returns (quantile_label quantiles))
    (get_column group_returns "Q1").



(** In whole numbers, edge j lies below rank rho when k + j m < rho k,
    m = n - 1. *)
Fixpoint edges_below (m k rho : nat) (js : list nat) : nat :=
  match js with
  | [] => 0
  | j :: js' =>
      if k + j * m <? rho * k then S (edges_below m k rho js') else 0
  end.

(** The number of the bucket [qcut] gives to rank [rho] of [n], split in
    [k]. *)
Definition bucket_number (n k rho : nat) : nat :=
  if rho =? 1 then 1 else edges_below (n - 1) k rho (seq 0 (S k)).

(* ------------------------------------------------------------------ *)
(** ** The loop of [evaluate_all_factors] in pure form *)

(** The series [calculate_long_short_returns] returns for a factor panel:
    the spread of the extreme columns of the table, or the all-missing
    series over the dates of the returns. *)
Definition long_short_of (returns factor : DataFrame Qc) (quantiles : nat)
  : Series Qc :=
  let table := grouped_returns returns factor quantiles in
  if mem (quantile_label quantiles) (columns table)
     && mem "Q1" (columns table)
  then spread table quantiles
  else mkSeries (index returns) (fun _ => None).

(** One turn of the loop over the factor names, on the results alone. *)
Definition evaluate_step (returns : DataFrame Qc)
  (fs : dict (DataFrame Qc)) (quantiles : nat)
  (results : dict ResultValue) (name : string) : dict ResultValue :=
  match dict_get name fs with
  | Some factor =>
      let ls := long_short_of returns factor quantiles in
      if series_empty ls || isna_all ls then results
      else dict_set name (factor_entry returns factor ls) results
  | None => results
  end.

(** The entries the loop stores, in the order of the factor names: one
    for every factor whose long-short series is neither empty nor all
    missing. *)
Definition evaluated_entries (returns : DataFrame Qc)
  (fs : dict (DataFrame Qc)) (quantiles : nat) (names : list string)
  : dict ResultValue :=
  flat_map
    (fun name =>
       match dict_get name fs with
       | Some factor =>
           let ls := long_short_of returns factor quantiles in
           if series_empty ls || isna_all ls then []
           else [(name, factor_entry returns factor ls)]
       | None => []
       end)
    names.

(** What an entry of the results is, when it is the entry of a factor:
    the statistics of the long-short series of a factor panel, a series
    that is neither empty nor all missing. *)
Definition entry_of_a_factor (r : DataFrame Qc) (fs : dict (DataFrame Qc))
  (k : nat) (kv : string * ResultValue) : Prop :=
  match snd kv with
  | FactorResult sharpe mean_ic ic_ir ls =>
      exists factor,
        dict_get (fst kv) fs = Some factor /\
        ls = long_short_of r factor k /\
        series_empty ls = false /\ isna_all ls = false /\
        sharpe = calculate_sharpe_ratio (series_to_R ls) 252 /\
        mean_ic = series_mean (s_list (ic_series_of r factor)) /\
        ic_ir = information_ratio (s_list (ic_series_of r factor))
  | _ => True
  end.

(** Does the loop store an entry for the factor [name]? *)
Definition is_evaluated (returns : DataFrame Qc)
  (fs : dict (DataFrame Qc)) (quantiles : nat) (name : string) : bool :=
  match dict_get name fs with
  | Some factor =>
      let ls := long_short_of returns factor quantiles in
      negb (series_empty ls || isna_all ls)
  | None => false
  end.

(** The observation two panels give at one label, when both have a
    value there. *)
Definition pair_at (f g : DataFrame Qc) (dc : date * string)
  : option (R * R) :=
  lift2 pair (option_map Qc2R (lookup f (fst dc) (snd dc)))
             (option_map Qc2R (lookup g (fst dc) (snd dc))).

(** The table [calculate_factor_correlation] builds from the factor
    dictionary. *)
Definition correlation_of (fs : dict (DataFrame Qc)) : Matrix :=
  let names :=
    fold_right insert_sorted []
      (dict_keys (filter (fun kv => has_values (snd kv)) fs)) in
  mkMatrix names
    (fun a b =>
       match dict_get a fs, dict_get b fs with
       | Some f, Some g =>
           if mem a names && mem b names
           then pearson (pooled_pairs f g) else None
       | _, _ => None
       end).

(** The end of [evaluate_all_factors]: the correlation table and the
    average Sharpe ratio join the results. *)
Definition with_totals (results : dict ResultValue)
  (correlation_matrix : Matrix) : dict ResultValue :=
  let results :=
    dict_set "correlation_matrix" (CorrelationMatrix correlation_matrix)
             results in
  let sharpe_ratios := flat_map (fun kv => sharpe_of (snd kv)) results in
  dict_set "average_sharpe"
    (Scalar (match sharpe_ratios with
             | [] => Some 0%R
             | _ => np_mean sharpe_ratios
             end))
    results.

(* ------------------------------------------------------------------ *)
(** ** utils.py *)

(** [s.startswith(p)] *)
Definition startswith (s p : string) : bool := String.prefix p s.

(** The symbol [download_stock_data] asks the data provider for: a code
    without a market prefix gets one, [sh] for a code in 6, [sz] for a
    code in 0 or 3, [sh] otherwise. *)
Definition prefixed_ticker (ticker : string) : string :=
  if negb (startswith ticker "sh" || startswith ticker "sz") then
    if startswith ticker "6" then "sh" ++ ticker
    else if startswith ticker "0" || startswith ticker "3"
         then "sz" ++ ticker
         else "sh" ++ ticker
  else ticker.

(** A row of the summary table: [sharpe_ratio], [mean_ic], [ic_ir]. *)
Definition SummaryRow : Type := (option R * option R * option R)%type.

(** The summary [save_results] writes: one row for every entry of the
    results that is a dictionary with a [sharpe_ratio]. *)
Definition summary_of (results : dict ResultValue) : dict SummaryRow :=
  fold_left
    (fun summary kv =>
       match snd kv with
       | FactorResult sharpe_ratio mean_ic ic_ir _ =>
           dict_set (fst kv) (sharpe_ratio, mean_ic, ic_ir) summary
       | _ => summary
       end)
    results [].

(** The row an entry of the results contributes to the summary. *)
Definition summary_rows (kv : string * ResultValue) : dict SummaryRow :=
  match snd kv with
  | FactorResult sharpe_ratio mean_ic ic_ir _ =>
      [(fst kv, (sharpe_ratio, mean_ic, ic_ir))]
  | _ => []
  end.

(** The column [sharpe_ratio] of the summary. *)
Definition summary_sharpe (summary : dict SummaryRow) : list (option R) :=
  map (fun row => fst (fst (snd row))) summary.

(* ------------------------------------------------------------------ *)
(** ** launch.py *)



(* ================================================================== *)
(** * Properties *)

(** ** Labels and lookups *)

Section LabelFacts.
Context {L : Type} `{Label L}.

Lemma label_eqb_refl (x : L) : label_eqb x x = true.
Proof. now apply label_eqb_eq. Qed.

Lemma mem_In (x : L) (l : list L) : mem x l = true <-> In x l.
Proof.
  unfold mem. rewrite existsb_exists. split.
  - intros [y [Hy Heq]]. apply label_eqb_eq in Heq. now subst.
  - intros Hin. exists x. split; [assumption | apply label_eqb_refl].
Qed.

Lemma labels_eqb_refl (l : list L) : labels_eqb l l = true.
Proof.
  induction l as [|x l IH]; simpl; [reflexivity|].
  now rewrite label_eqb_refl, IH.
Qed.

Lemma labels_eqb_eq (a b : list L) : labels_eqb a b = true -> a = b.
Proof.
  revert b. induction a as [|x a IH]; intros [|y b]; simpl; try easy.
  intros Hab. apply andb_prop in Hab as [Hxy Hab].
  apply label_eqb_eq in Hxy. subst. f_equal. now apply IH.
Qed.

Lemma union_labels_same (l : list L) : union_labels l l = l.
Proof. unfold union_labels. now rewrite labels_eqb_refl. Qed.

Lemma In_insert_sorted (x y : L) (l : list L) :
  In y (insert_sorted x l) <-> y = x \/ In y l.
Proof.
  induction l as [|z l IH]; simpl.
  - intuition.
  - destruct (label_eqb x z) eqn:Exz.
    + apply label_eqb_eq in Exz. subst. simpl. intuition.
    + destruct (label_leb x z); simpl; rewrite ?IH; intuition.
Qed.

Lemma In_union_labels (y : L) (a b : list L) :
  In y (union_labels a b) <-> In y a \/ In y b.
Proof.
  unfold union_labels. destruct (labels_eqb a b) eqn:Eab.
  - apply labels_eqb_eq in Eab. subst. intuition.
  - rewrite <- in_app_iff. generalize (a ++ b). intros l.
    induction l as [|z l IH]; simpl; [intuition|].
    rewrite In_insert_sorted, IH. intuition.
Qed.



Lemma position_nth_NoDup (l : list L) (i : nat) (d : L) :
  NoDup l -> i < length l -> position (nth i l d) l = i.
Proof.
  intros Hnd. revert i. induction Hnd as [|y l Hy Hnd IH]; intros i Hi.
  - simpl in Hi. lia.
  - destruct i as [|i]; simpl.
    + now rewrite label_eqb_refl.
    + simpl in Hi. destruct (label_eqb (nth i l d) y) eqn:E.
      * apply label_eqb_eq in E. exfalso. apply Hy. rewrite <- E.
        apply nth_In. lia.
      * f_equal. apply IH. lia.
Qed.
End LabelFacts.

(** ** Dictionaries *)

Lemma dict_get_set_same {V} (k : string) (v : V) (d : dict V) :
  dict_get k (dict_set k v d) = Some v.
Proof.
  induction d as [|[k' v'] d IH]; simpl.
  - now rewrite String.eqb_refl.
  - destruct (String.eqb k k') eqn:E; simpl; rewrite ?E, ?String.eqb_refl;
      auto.
Qed.

Lemma dict_get_set_other {V} (k k' : string) (v : V) (d : dict V) :
  k <> k' -> dict_get k (dict_set k' v d) = dict_get k d.
Proof.
  intros Hne. induction d as [|[k2 v2] d IH]; simpl.
  - apply String.eqb_neq in Hne. now rewrite Hne.
  - destruct (String.eqb k' k2) eqn:E; simpl.
    + apply String.eqb_eq in E. subst k2.
      apply String.eqb_neq in Hne. now rewrite Hne.
    + destruct (String.eqb k k2); auto.
Qed.

Lemma dict_keys_set_fresh {V} (k : string) (v : V) (d : dict V) :
  ~ In k (dict_keys d) -> dict_keys (dict_set k v d) = dict_keys d ++ [k].
Proof.
  induction d as [|[k' v'] d IH]; simpl; [reflexivity|].
  intros Hnin. destruct (String.eqb k k') eqn:E.
  - apply String.eqb_eq in E. subst. tauto.
  - simpl. f_equal. apply IH. tauto.
Qed.

Lemma dict_get_In_keys {V} (k : string) (d : dict V) :
  In k (dict_keys d) <-> dict_get k d <> None.
Proof.
  induction d as [|[k' v'] d IH]; simpl; [tauto|].
  destruct (String.eqb k k') eqn:E.
  - apply String.eqb_eq in E. subst. split; [discriminate | auto].
  - apply String.eqb_neq in E. rewrite <- IH. split; [|tauto].
    intros [Heq|Hin]; [congruence | assumption].
Qed.

Lemma dict_keys_set_In {V} (k k' : string) (v : V) (d : dict V) :
  In k (dict_keys (dict_set k' v d)) <-> k = k' \/ In k (dict_keys d).
Proof.
  rewrite !dict_get_In_keys. destruct (string_dec k k') as [->|Hne].
  - rewrite dict_get_set_same. split; [auto | discriminate].
  - rewrite dict_get_set_other by assumption. tauto.
Qed.

(** A loop that stores [f q] under every key [q] of a list. *)
Lemma fold_dict_set_get {V} (f : string -> V) (keys : list string)
  (d : dict V) (k : string) :
  dict_get k (fold_left (fun acc q => dict_set q (f q) acc) keys d) =
  if mem k keys then Some (f k) else dict_get k d.
Proof.
  revert d. induction keys as [|q keys IH]; intros d; simpl; [reflexivity|].
  rewrite IH. destruct (mem k keys) eqn:Ek.
  - now rewrite orb_true_r.
  - rewrite orb_false_r. destruct (String.eqb k q) eqn:E.
    + apply String.eqb_eq in E. subst. apply dict_get_set_same.
    + apply String.eqb_neq in E. now apply dict_get_set_other.
Qed.

Lemma fold_dict_set_keys {V} (f : string -> V) (keys : list string)
  (d : dict V) :
  NoDup keys -> (forall k, In k keys -> ~ In k (dict_keys d)) ->
  dict_keys (fold_left (fun acc q => dict_set q (f q) acc) keys d) =
  dict_keys d ++ keys.
Proof.
  intros Hnd. revert d. induction Hnd as [|q keys Hq Hnd IH]; intros d Hfresh.
  - simpl. now rewrite app_nil_r.
  - simpl. rewrite IH.
    + rewrite dict_keys_set_fresh by (apply Hfresh; now left).
      now rewrite <- app_assoc.
    + intros k Hk Hin. apply dict_keys_set_In in Hin as [->|Hin].
      * contradiction.
      * apply (Hfresh k); [now right | assumption].
Qed.

(** ** The bucket labels *)

Lemma decimal_inj (n m : nat) : decimal n = decimal m -> n = m.
Proof.
  unfold decimal. intros Heq. apply DecimalNat.Unsigned.to_uint_inj.
  assert (Hs : Some (Nat.to_uint n) = Some (Nat.to_uint m)).
  { rewrite <- !NilEmpty.usu. now rewrite Heq. }
  now injection Hs.
Qed.

Lemma quantile_label_inj (i j : nat) :
  quantile_label i = quantile_label j -> i = j.
Proof.
  unfold quantile_label. simpl. intros Heq. injection Heq as Heq.
  now apply decimal_inj.
Qed.

Lemma In_quantile_labels (k : nat) (q : string) :
  In q (quantile_labels k) <-> exists j, 1 <= j <= k /\ q = quantile_label j.
Proof.
  unfold quantile_labels. rewrite in_map_iff. split.
  - intros [i [Hi Hin]]. apply in_seq in Hin. exists (i + 1). split; [lia|].
    now symmetry.
  - intros [j [Hj ->]]. exists (j - 1). split.
    + f_equal. lia.
    + apply in_seq. lia.
Qed.

Lemma NoDup_quantile_labels (k : nat) : NoDup (quantile_labels k).
Proof.
  unfold quantile_labels. apply Finite.Injective_map_NoDup.
  - intros i j Hij. apply quantile_label_inj in Hij. lia.
  - apply seq_NoDup.
Qed.

Lemma length_quantile_labels (k : nat) : length (quantile_labels k) = k.
Proof. unfold quantile_labels. now rewrite length_map, length_seq. Qed.



(** ** What the methods return *)

Lemma calculate_factor_returns_run (s s1 : AlphaBacktest * list Diagnostic)
  (name : string) (k : nat) (factor : DataFrame Qc) :
  ensure_factors s = inr (tt, s1) ->
  dict_get name (factors (fst s1)) = Some factor ->
  calculate_factor_returns name k s =
  inr (grouped_returns (returns (fst s1)) factor k,
       (fst s1, snd s1 ++ snd (assign_quantiles factor k))).
Proof.
  intros He Hf. unfold calculate_factor_returns, bind. rewrite He.
  unfold get_self, lift_exn, dict_item. simpl. rewrite Hf.
  unfold grouped_returns.
  destruct (assign_quantiles factor k) as [fq out]. reflexivity.
Qed.

Lemma calculate_long_short_returns_run
  (s s1 : AlphaBacktest * list Diagnostic) (name : string) (k : nat)
  (factor : DataFrame Qc) :
  ensure_factors s = inr (tt, s1) ->
  dict_get name (factors (fst s1)) = Some factor ->
  let table := grouped_returns (returns (fst s1)) factor k in
  let out := snd s1 ++ snd (assign_quantiles factor k) in
  calculate_long_short_returns name k s =
  if mem (quantile_label k) (columns table) && mem "Q1" (columns table)
  then inr (spread table k, (fst s1, out))
  else inr (mkSeries (index (returns (fst s1))) (fun _ => None),
            (fst s1, out ++ [NoGrouping name])).
Proof.
  intros He Hf table out. unfold calculate_long_short_returns, bind.
  rewrite (calculate_factor_returns_run s s1 name k factor He Hf).
  fold table. destruct (mem (quantile_label k) (columns table)
                        && mem "Q1" (columns table)); reflexivity.
Qed.

Lemma calculate_factor_ic_run (s s1 : AlphaBacktest * list Diagnostic)
  (name : string) (factor : DataFrame Qc) :
  ensure_factors s = inr (tt, s1) ->
  dict_get name (factors (fst s1)) = Some factor ->
  calculate_factor_ic name s =
  inr (ic_series_of (returns (fst s1)) factor, s1).
Proof.
  intros He Hf. unfold calculate_factor_ic, bind. rewrite He.
  unfold get_self, lift_exn, dict_item. simpl. rewrite Hf.
  destruct s1. reflexivity.
Qed.

(** ** The table of grouped returns *)

Lemma lookup_outside_index {A} (df : DataFrame A) (d : date) (c : string) :
  mem d (index df) = false -> lookup df d c = None.
Proof. unfold lookup. now intros ->. Qed.

Lemma lookup_outside_columns {A} (df : DataFrame A) (d : date) (c : string) :
  mem c (columns df) = false -> lookup df d c = None.
Proof. unfold lookup. intros ->. now rewrite andb_false_r. Qed.

Lemma s_at_get_column {A} (df : DataFrame A) (c : string) (d : date) :
  s_at (get_column df c) d = lookup df d c.
Proof.
  unfold s_at, get_column. simpl. destruct (mem d (index df)) eqn:E.
  - reflexivity.
  - symmetry. now apply lookup_outside_index.
Qed.

Lemma columns_grouped_returns (r f : DataFrame Qc) (k : nat) :
  columns (grouped_returns r f k) = quantile_labels k.
Proof.
  unfold grouped_returns, frame_of_series, group_returns_of. simpl.
  rewrite fold_dict_set_keys with
    (f := fun q => mean_axis1 (align2 times_mask r
                     (equals_label (fst (assign_quantiles f k)) q))).
  - reflexivity.
  - apply NoDup_quantile_labels.
  - simpl. auto.
Qed.

Lemma Forall_dict_set {V} (P : V -> Prop) (k : string) (v : V) (d : dict V) :
  P v -> Forall P (map snd d) -> Forall P (map snd (dict_set k v d)).
Proof.
  intros Hv. induction d as [|[k' v'] d IH]; simpl; intros Hd.
  - now constructor.
  - inversion Hd; subst. destruct (String.eqb k k'); simpl; constructor; auto.
Qed.

Lemma index_frame_of_series {A} (d : dict (Series A)) (idx : list date) :
  d <> [] -> Forall (fun s => s_index s = idx) (map snd d) ->
  index (frame_of_series d) = idx.
Proof.
  destruct d as [|[k s] d]; [easy | intros _ Hall].
  simpl in *. inversion Hall as [|? ? Hs Hd]; subst. clear Hall.
  induction d as [|[k' s'] d IH]; simpl; [reflexivity|].
  inversion Hd as [|? ? Hs' Hd']; subst. simpl in Hs'.
  rewrite Hs', union_labels_same. now apply IH.
Qed.

Lemma assign_date_labels (f : DataFrame Qc) (k : nat) (labels : list string)
  (acc : DataFrame string * list Diagnostic) (dt : date) :
  index (fst (assign_date f k labels acc dt)) = index (fst acc) /\
  columns (fst (assign_date f k labels acc dt)) = columns (fst acc).
Proof.
  unfold assign_date. destruct acc as [fq out].
  destruct (k <=? _); [|now split].
  destruct (qcut _ _ _); now split.
Qed.

Lemma fold_assign_date_labels (f : DataFrame Qc) (k : nat)
  (labels : list string) (ds : list date)
  (acc : DataFrame string * list Diagnostic) :
  index (fst (fold_left (assign_date f k labels) ds acc)) = index (fst acc) /\
  columns (fst (fold_left (assign_date f k labels) ds acc))
  = columns (fst acc).
Proof.
  revert acc. induction ds as [|dt ds IH]; intros acc; simpl; [now split|].
  destruct (IH (assign_date f k labels acc dt)) as [Hi Hc].
  destruct (assign_date_labels f k labels acc dt) as [Hi' Hc'].
  split; congruence.
Qed.

Lemma index_assign_quantiles (f : DataFrame Qc) (k : nat) :
  index (fst (assign_quantiles f k)) = index f.
Proof. unfold assign_quantiles. apply fold_assign_date_labels. Qed.

Lemma columns_assign_quantiles (f : DataFrame Qc) (k : nat) :
  columns (fst (assign_quantiles f k)) = columns f.
Proof. unfold assign_quantiles. apply fold_assign_date_labels. Qed.

Lemma index_grouped_returns (r f : DataFrame Qc) (k : nat) :
  1 <= k ->
  index (grouped_returns r f k) = union_labels (index r) (index f).
Proof.
  intros Hk. unfold grouped_returns. apply index_frame_of_series.
  - intros Hnil.
    assert (Hcols := columns_grouped_returns r f k).
    unfold grouped_returns, frame_of_series in Hcols. simpl in Hcols.
    rewrite Hnil in Hcols. simpl in Hcols.
    assert (Hlen := length_quantile_labels k).
    rewrite <- Hcols in Hlen. simpl in Hlen. lia.
  - unfold group_returns_of.
    set (g := fun q => mean_axis1 (align2 times_mask r
                         (equals_label (fst (assign_quantiles f k)) q))).
    assert (Hgen : forall keys d,
      Forall (fun s => s_index s = union_labels (index r) (index f))
             (map snd d) ->
      Forall (fun s => s_index s = union_labels (index r) (index f))
             (map snd (fold_left (fun acc q => dict_set q (g q) acc)
                                 keys d))).
    { induction keys as [|q keys IH]; intros d Hd; simpl; [assumption|].
      apply IH. apply Forall_dict_set; [|assumption].
      unfold g. simpl. now rewrite index_assign_quantiles. }
    apply Hgen. constructor.
Qed.

(** An entry of the table: the row mean of the returns times the mask. *)
Lemma lookup_grouped_returns (r f : DataFrame Qc) (k j : nat) (d : date) :
  1 <= j <= k ->
  lookup (grouped_returns r f k) d (quantile_label j) =
  s_at (mean_axis1 (align2 times_mask r
          (equals_label (fst (assign_quantiles f k)) (quantile_label j)))) d.
Proof.
  intros Hj.
  assert (Hk : 1 <= k) by lia.
  unfold lookup. rewrite index_grouped_returns, columns_grouped_returns by lia.
  assert (Hin : mem (quantile_label j) (quantile_labels k) = true).
  { apply mem_In, In_quantile_labels. now exists j. }
  rewrite Hin, andb_true_r.
  unfold grouped_returns, frame_of_series, group_returns_of. simpl.
  rewrite fold_dict_set_get with
    (f := fun q => mean_axis1 (align2 times_mask r
                     (equals_label (fst (assign_quantiles f k)) q))).
  rewrite Hin. unfold s_at at 2. simpl. rewrite index_assign_quantiles.
  destruct (mem d (union_labels (index r) (index f))) eqn:E.
  - unfold s_at. simpl. now rewrite index_assign_quantiles, E.
  - reflexivity.
Qed.

(** ** The sample market *)

Lemma sample_calculate_factors :
  calculate_factors (sample_backtest, []) = inr (tt, sample_ready).
Proof.
  unfold sample_ready.
  assert (Hret : returned (calculate_factors (sample_backtest, [])) = true)
    by (vm_compute; reflexivity).
  destruct (calculate_factors (sample_backtest, [])) as [e|[[] s]];
    [discriminate | reflexivity].
Qed.

Lemma sample_ensure_factors :
  ensure_factors (sample_backtest, []) = inr (tt, sample_ready).
Proof.
  unfold ensure_factors, bind, get_self. simpl.
  apply sample_calculate_factors.
Qed.

Lemma sample_factor_get (name : string) :
  is_some (dict_get name (factors (fst sample_ready))) = true ->
  dict_get name (factors (fst sample_ready)) = Some (sample_factor name).
Proof.
  unfold sample_factor.
  destruct (dict_get name (factors (fst sample_ready)));
    [reflexivity | discriminate].
Qed.

(** ** The long-short series *)

Lemma s_at_spread (table : DataFrame Qc) (k : nat) (t : date) :
  s_at (spread table k) t =
  cell_sub (lookup table t (quantile_label k)) (lookup table t "Q1").
Proof.
  unfold spread, series_align2, s_at at 1. simpl.
  rewrite union_labels_same, !s_at_get_column.
  destruct (mem t (index table)) eqn:E; [reflexivity|].
  now rewrite !lookup_outside_index.
Qed.

Lemma assign_quantiles_prints_no_warning (factor : DataFrame Qc) (k : nat)
  (n : string) :
  ~ In (NoGrouping n) (snd (assign_quantiles factor k)).
Proof.
  unfold assign_quantiles.
  set (acc0 := (mkDataFrame (index factor) (columns factor)
                  (fun _ _ => @None string), @nil Diagnostic)).
  assert (Hacc : ~ In (NoGrouping n) (snd acc0)) by (simpl; tauto).
  revert Hacc. generalize acc0. generalize (index factor) as ds.
  induction ds as [|dt ds IH]; intros acc Hacc; simpl; [assumption|].
  apply IH. unfold assign_date. destruct acc as [fq out]. simpl in Hacc.
  destruct (k <=? _).
  - destruct (qcut _ _ _); simpl; [|assumption].
    intros Hin. apply in_app_or in Hin as [Hin|[Hin|[]]];
      [contradiction | discriminate].
  - simpl. intros Hin. apply in_app_or in Hin as [Hin|[Hin|[]]];
      [contradiction | discriminate].
Qed.

(** C9.  For a quantile count of at least one, the table returned by
    [calculate_factor_returns] has exactly the columns Q1..Qk, whatever the
    bucketer did (also when it skipped every date), and its rows cover every
    date of the factor panel (its index is the outer join of the dates of
    the returns and of the factor).  So [calculate_long_short_returns]
    takes the branch of the difference: it returns the spread, and it
    prints what the bucketer printed and no warning about missing groups;
    the branch of the empty series is not taken. *)
Theorem grouped_returns_columns_always_present
  (s s1 : AlphaBacktest * list Diagnostic) (name : string) (k : nat)
  (factor : DataFrame Qc) :
  1 <= k ->
  ensure_factors s = inr (tt, s1) ->
  dict_get name (factors (fst s1)) = Some factor ->
  let out := snd s1 ++ snd (assign_quantiles factor k) in
  exists table,
    calculate_factor_returns name k s = inr (table, (fst s1, out)) /\
    columns table = quantile_labels k /\
    index table = union_labels (index (returns (fst s1))) (index factor) /\
    (forall d, In d (index factor) -> In d (index table)) /\
    calculate_long_short_returns name k s
      = inr (spread table k, (fst s1, out)) /\
    (forall n, ~ In (NoGrouping n) (snd (assign_quantiles factor k))).
Proof.
  intros Hk He Hf out.
  exists (grouped_returns (returns (fst s1)) factor k).
  split; [now apply calculate_factor_returns_run|].
  split; [apply columns_grouped_returns|].
  split; [now apply index_grouped_returns|].
  split.
  { intros d Hd. rewrite index_grouped_returns by assumption.
    apply In_union_labels. now right. }
  split.
  { rewrite (calculate_long_short_returns_run s s1 name k factor He Hf).
    cbv zeta. rewrite columns_grouped_returns.
    assert (Hlast : mem (quantile_label k) (quantile_labels k) = true).
    { apply mem_In, In_quantile_labels. exists k. split; [lia | reflexivity]. }
    assert (Hfirst : mem "Q1" (quantile_labels k) = true).
    { apply mem_In, In_quantile_labels. exists 1. split; [lia | reflexivity]. }
    now rewrite Hlast, Hfirst. }
  intros n. apply assign_quantiles_prints_no_warning.
Qed.

Lemma grouped_returns_columns_always_present_witness :
  let s1 := sample_ready in
  let factor := sample_factor "price_reversal" in
  let out := snd s1 ++ snd (assign_quantiles factor 3) in
  exists table,
    calculate_factor_returns "price_reversal" 3 (sample_backtest, [])
      = inr (table, (fst s1, out)) /\
    columns table = quantile_labels 3 /\
    index table = union_labels (index (returns (fst s1))) (index factor) /\
    (forall d, In d (index factor) -> In d (index table)) /\
    calculate_long_short_returns "price_reversal" 3 (sample_backtest, [])
      = inr (spread table 3, (fst s1, out)) /\
    (forall n, ~ In (NoGrouping n) (snd (assign_quantiles factor 3))).
Proof.
  apply (grouped_returns_columns_always_present
           (sample_backtest, []) sample_ready "price_reversal" 3
           (sample_factor "price_reversal")).
  - lia.
  - apply sample_ensure_factors.
  - apply sample_factor_get. vm_compute. reflexivity.
Defined.



(** ** The loop of the bucketer *)

Lemma nth_all_missing {A B} (l : list B) (i : nat) :
  nth i (map (fun _ => @None A) l) None = None.
Proof.
  revert i. induction l as [|x l IH]; intros [|i]; simpl; auto.
Qed.

Lemma fold_assign_date_cells (f : DataFrame Qc) (k : nat) (ds : list date)
  (acc : DataFrame string * list Diagnostic) (seen : date -> bool) :
  columns (fst acc) = columns f ->
  (forall d c, cells (fst acc) d c =
     if seen d then nth (position c (columns f)) (bucket_labels f k d) None
     else None) ->
  forall d c,
    cells (fst (fold_left (assign_date f k (quantile_labels k)) ds acc)) d c =
    if seen d || mem d ds
    then nth (position c (columns f)) (bucket_labels f k d) None
    else None.
Proof.
  revert acc seen. induction ds as [|dt ds IH]; intros acc seen Hcols Hacc d c.
  - simpl. rewrite orb_false_r. apply Hacc.
  - simpl fold_left.
    rewrite (IH _ (fun d => seen d || Nat.eqb d dt)).
    + simpl. destruct (seen d), (Nat.eqb d dt); reflexivity.
    + rewrite <- Hcols. apply assign_date_labels.
    + clear d c. intros d c.
      assert (Hstep : cells (fst (assign_date f k (quantile_labels k) acc dt))
                            d c =
                      if Nat.eqb d dt
                      then nth (position c (columns f))
                               (bucket_labels f k dt) None
                      else cells (fst acc) d c).
      { unfold assign_date, bucket_labels. destruct acc as [fq out].
        simpl in Hcols, Hacc.
        destruct (k <=? length (unique (dropna (row f dt)))) eqn:Ek.
        - destruct (qcut _ _ _) as [e|labels] eqn:Eq; simpl.
          + destruct (Nat.eqb d dt) eqn:Ed; [|reflexivity].
            apply Nat.eqb_eq in Ed. subst d. rewrite Hacc.
            rewrite nth_all_missing. unfold bucket_labels.
            rewrite Ek, Eq, nth_all_missing. now destruct (seen dt).
          + rewrite Hcols. now destruct (Nat.eqb d dt).
        - simpl. destruct (Nat.eqb d dt) eqn:Ed; [|reflexivity].
          apply Nat.eqb_eq in Ed. subst d. rewrite Hacc.
          rewrite nth_all_missing. unfold bucket_labels.
          rewrite Ek, nth_all_missing. now destruct (seen dt). }
      rewrite Hstep. destruct (Nat.eqb d dt) eqn:Ed.
      * apply Nat.eqb_eq in Ed. subst d. now rewrite orb_true_r.
      * rewrite orb_false_r. apply Hacc.
Qed.

(** After the loop, the entry of a date and a column is the label the
    bucketer decided for that date, whatever happened at the other dates. *)
Lemma lookup_assign_quantiles (f : DataFrame Qc) (k : nat) (d : date)
  (c : string) :
  lookup (fst (assign_quantiles f k)) d c =
  if mem d (index f) && mem c (columns f)
  then nth (position c (columns f)) (bucket_labels f k d) None
  else None.
Proof.
  unfold lookup. rewrite index_assign_quantiles, columns_assign_quantiles.
  destruct (mem d (index f) && mem c (columns f)) eqn:E; [|reflexivity].
  apply andb_prop in E as [Ed Ec].
  unfold assign_quantiles.
  rewrite (fold_assign_date_cells f k (index f) _ (fun _ => false)).
  - unfold mem in Ed. simpl. unfold mem. now rewrite Ed.
  - reflexivity.
  - reflexivity.
Qed.

Lemma fold_assign_date_out_grows (f : DataFrame Qc) (k : nat)
  (ds : list date) (acc : DataFrame string * list Diagnostic)
  (x : Diagnostic) :
  In x (snd acc) ->
  In x (snd (fold_left (assign_date f k (quantile_labels k)) ds acc)).
Proof.
  revert acc. induction ds as [|dt ds IH]; intros acc Hin; simpl; [assumption|].
  apply IH. unfold assign_date. destruct acc as [fq out]. simpl in Hin.
  destruct (k <=? _); [destruct (qcut _ _ _)|]; simpl;
    try assumption; apply in_or_app; now left.
Qed.

Lemma assign_quantiles_prints_skip (f : DataFrame Qc) (k : nat) (dt : date) :
  In dt (index f) ->
  length (unique (dropna (row f dt))) < k ->
  In (TooFewDistinct dt k) (snd (assign_quantiles f k)).
Proof.
  intros Hin Hlt. unfold assign_quantiles.
  generalize (mkDataFrame (index f) (columns f) (fun _ _ => @None string),
              @nil Diagnostic).
  induction (index f) as [|d ds IH]; intros acc; [destruct Hin|].
  simpl. destruct Hin as [->|Hin]; [|now apply IH].
  apply fold_assign_date_out_grows. unfold assign_date.
  destruct acc as [fq out].
  destruct (k <=? length (unique (dropna (row f dt)))) eqn:E.
  - apply Nat.leb_le in E. lia.
  - simpl. apply in_or_app. right. now left.
Qed.

(** C4.  On a date with fewer than k distinct present factor values the
    bucketer gives no label to any instrument and prints the message of the
    skip; the loop goes on: every other date still gets the labels decided
    from its own row, and [calculate_factor_returns] returns its table
    (nothing is raised). *)
Theorem too_few_distinct_values_skip_the_date
  (s s1 : AlphaBacktest * list Diagnostic) (name : string) (k : nat)
  (factor : DataFrame Qc) (dt : date) :
  ensure_factors s = inr (tt, s1) ->
  dict_get name (factors (fst s1)) = Some factor ->
  In dt (index factor) ->
  length (unique (dropna (row factor dt))) < k ->
  let factor_quantiles := fst (assign_quantiles factor k) in
  let out := snd (assign_quantiles factor k) in
  (forall c, lookup factor_quantiles dt c = None) /\
  In (TooFewDistinct dt k) out /\
  (forall d c, In d (index factor) -> In c (columns factor) ->
     lookup factor_quantiles d c =
     nth (position c (columns factor)) (bucket_labels factor k d) None) /\
  exists table,
    calculate_factor_returns name k s = inr (table, (fst s1, snd s1 ++ out)).
Proof.
  intros He Hf Hin Hlt factor_quantiles out.
  split.
  { intros c. unfold factor_quantiles. rewrite lookup_assign_quantiles.
    destruct (mem dt (index factor) && mem c (columns factor)); [|reflexivity].
    unfold bucket_labels.
    destruct (k <=? length (unique (dropna (row factor dt)))) eqn:E.
    - apply Nat.leb_le in E. lia.
    - apply nth_all_missing. }
  split; [now apply assign_quantiles_prints_skip|].
  split.
  { intros d c Hd Hc. unfold factor_quantiles.
    rewrite lookup_assign_quantiles.
    apply mem_In in Hd, Hc. now rewrite Hd, Hc. }
  eexists. now apply calculate_factor_returns_run.
Qed.

Lemma too_few_distinct_values_skip_the_date_witness :
  let factor := sample_factor "price_reversal" in
  let factor_quantiles := fst (assign_quantiles factor 3) in
  let out := snd (assign_quantiles factor 3) in
  (forall c, lookup factor_quantiles 0 c = None) /\
  In (TooFewDistinct 0 3) out /\
  (forall d c, In d (index factor) -> In c (columns factor) ->
     lookup factor_quantiles d c =
     nth (position c (columns factor)) (bucket_labels factor 3 d) None) /\
  exists table,
    calculate_factor_returns "price_reversal" 3 (sample_backtest, [])
    = inr (table, (fst sample_ready, snd sample_ready ++ out)).
Proof.
  apply (too_few_distinct_values_skip_the_date
           (sample_backtest, []) sample_ready "price_reversal" 3
           (sample_factor "price_reversal") 0).
  - apply sample_ensure_factors.
  - apply sample_factor_get. vm_compute. reflexivity.
  - vm_compute. left. reflexivity.
  - vm_compute. lia.
Defined.

(** ** The information coefficient *)

Lemma spearmanr_few_pairs (pairs : list (Qc * Qc)) :
  length pairs < 2 -> spearmanr pairs = None.
Proof.
  intros Hlen. unfold spearmanr.
  destruct (length pairs <=? 1) eqn:E; [reflexivity|].
  apply Nat.leb_gt in E. lia.
Qed.

Lemma fold_ic_date (f r : DataFrame Qc) (ds : list date) (acc : Series R)
  (seen : date -> bool) :
  s_index acc = index f ->
  (forall d, s_values acc d =
     if seen d && mem d (index r) then spearmanr (valid_pairs f r d)
     else None) ->
  s_index (fold_left (ic_date f r) ds acc) = index f /\
  forall d, s_values (fold_left (ic_date f r) ds acc) d =
    if (seen d || mem d ds) && mem d (index r)
    then spearmanr (valid_pairs f r d) else None.
Proof.
  revert acc seen. induction ds as [|dt ds IH]; intros acc seen Hidx Hacc.
  - split; [assumption|]. intros d. simpl. rewrite orb_false_r. apply Hacc.
  - simpl fold_left.
    destruct (IH (ic_date f r acc dt) (fun d => seen d || Nat.eqb d dt))
      as [Hidx' Hval'].
    + unfold ic_date. destruct (mem dt (index r)); [|assumption].
      destruct (0 <? _); assumption.
    + intros d. unfold ic_date.
      destruct (Nat.eqb d dt) eqn:Ed.
      * apply Nat.eqb_eq in Ed. subst d. rewrite orb_true_r. simpl.
        destruct (mem dt (index r)) eqn:Er.
        -- destruct (0 <? length (valid_pairs f r dt)) eqn:El; simpl.
           ++ now rewrite Nat.eqb_refl.
           ++ rewrite Hacc, Er, andb_true_r.
              apply Nat.ltb_ge in El.
              rewrite spearmanr_few_pairs by lia. now destruct (seen dt).
        -- rewrite Hacc, Er. now rewrite andb_false_r.
      * rewrite orb_false_r.
        destruct (mem dt (index r)); [|apply Hacc].
        destruct (0 <? _); simpl; rewrite ?Ed; apply Hacc.
    + split; [assumption|]. intros d. rewrite Hval'. simpl.
      now destruct (seen d), (Nat.eqb d dt).
Qed.

Lemma In_dropna {A} (x : A) (l : list (option A)) :
  In x (dropna l) <-> In (Some x) l.
Proof.
  induction l as [|[y|] l IH]; simpl.
  - tauto.
  - rewrite IH. split; intros [H|H]; auto; left; congruence.
  - rewrite IH. split; [auto | intros [H|H]; [discriminate | assumption]].
Qed.

Lemma In_valid_pairs (f r : DataFrame Qc) (dt : date) (x y : Qc) :
  In (x, y) (valid_pairs f r dt) <->
  exists c, In c (columns f) /\
            lookup f dt c = Some x /\ lookup r dt c = Some y.
Proof.
  unfold valid_pairs. rewrite In_dropna, in_map_iff. split.
  - intros [c [Hc Hin]]. exists c. split; [assumption|].
    destruct (lookup f dt c), (lookup r dt c); simpl in Hc;
      try discriminate. now injection Hc as -> ->.
  - intros [c [Hin [Hf Hr]]]. exists c. now rewrite Hf, Hr.
Qed.

(** C6.  [calculate_factor_ic] returns a series over the dates of the
    factor.  At a date that the forward returns have too, its value is the
    Spearman correlation of the pairs (factor value, forward return) of
    exactly the instruments where both are present; with fewer than two such
    pairs the value is missing.  A date the returns do not have stays
    missing. *)
Theorem ic_is_spearman_over_valid_pairs
  (s s1 : AlphaBacktest * list Diagnostic) (name : string)
  (factor : DataFrame Qc) :
  ensure_factors s = inr (tt, s1) ->
  dict_get name (factors (fst s1)) = Some factor ->
  let returns := returns (fst s1) in
  exists ic,
    calculate_factor_ic name s = inr (ic, s1) /\
    s_index ic = index factor /\
    forall dt, In dt (index factor) ->
      (In dt (index returns) ->
         s_at ic dt = spearmanr (valid_pairs factor returns dt)) /\
      (forall x y,
         In (x, y) (valid_pairs factor returns dt) <->
         exists c, In c (columns factor) /\
                   lookup factor dt c = Some x /\
                   lookup returns dt c = Some y) /\
      (length (valid_pairs factor returns dt) < 2 -> s_at ic dt = None) /\
      (~ In dt (index returns) -> s_at ic dt = None).
Proof.
  intros He Hf r.
  eexists. split; [apply (calculate_factor_ic_run s s1 name factor He Hf)|].
  unfold ic_series_of.
  destruct (fold_ic_date factor r (index factor)
              (mkSeries (index factor) (fun _ => None)) (fun _ => false))
    as [Hidx Hval]; [reflexivity | reflexivity |].
  fold r. split; [assumption|].
  intros dt Hdt.
  assert (Hat : s_at (fold_left (ic_date factor r) (index factor)
                        (mkSeries (index factor) (fun _ => None))) dt =
                if mem dt (index r) then spearmanr (valid_pairs factor r dt)
                else None).
  { unfold s_at. rewrite Hidx.
    apply mem_In in Hdt. rewrite Hdt, Hval. simpl. now rewrite Hdt. }
  split; [|split; [|split]].
  - intros Hr. apply mem_In in Hr. now rewrite Hat, Hr.
  - intros x y. apply In_valid_pairs.
  - intros Hlen. rewrite Hat. destruct (mem dt (index r)); [|reflexivity].
    now apply spearmanr_few_pairs.
  - intros Hr. rewrite Hat. destruct (mem dt (index r)) eqn:E; [|reflexivity].
    apply mem_In in E. contradiction.
Qed.

Lemma ic_is_spearman_over_valid_pairs_witness :
  let factor := sample_factor "price_reversal" in
  let returns := returns (fst sample_ready) in
  exists ic,
    calculate_factor_ic "price_reversal" (sample_backtest, [])
      = inr (ic, sample_ready) /\
    s_index ic = index factor /\
    forall dt, In dt (index factor) ->
      (In dt (index returns) ->
         s_at ic dt = spearmanr (valid_pairs factor returns dt)) /\
      (forall x y,
         In (x, y) (valid_pairs factor returns dt) <->
         exists c, In c (columns factor) /\
                   lookup factor dt c = Some x /\
                   lookup returns dt c = Some y) /\
      (length (valid_pairs factor returns dt) < 2 -> s_at ic dt = None) /\
      (~ In dt (index returns) -> s_at ic dt = None).
Proof.
  apply (ic_is_spearman_over_valid_pairs
           (sample_backtest, []) sample_ready "price_reversal"
           (sample_factor "price_reversal")).
  - apply sample_ensure_factors.
  - apply sample_factor_get. vm_compute. reflexivity.
Defined.

(** ** The Sharpe ratio *)

Lemma R_sum_zero (l : list R) : (forall x, In x l -> x = 0%R) -> R_sum l = 0%R.
Proof.
  induction l as [|x l IH]; simpl; intros Hall; [reflexivity|].
  rewrite (Hall x) by now left. rewrite IH by auto. lra.
Qed.

Lemma R_std_few (l : list R) : length l < 2 -> R_std l = None.
Proof.
  intros Hlen. unfold R_std, R_cov.
  destruct (R_mean l); [|reflexivity].
  destruct (length l <=? 1) eqn:E; [reflexivity|].
  apply Nat.leb_gt in E. lia.
Qed.

Lemma R_mean_zero (l : list R) :
  l <> [] -> (forall x, In x l -> x = 0%R) -> R_mean l = Some 0%R.
Proof.
  intros Hne Hall. unfold R_mean. destruct l as [|x l]; [contradiction|].
  rewrite R_sum_zero by assumption. f_equal. unfold Rdiv. apply Rmult_0_l.
Qed.

Lemma R_std_zero (l : list R) :
  2 <= length l -> (forall x, In x l -> x = 0%R) -> R_std l = Some 0%R.
Proof.
  intros Hlen Hall. unfold R_std, R_cov.
  rewrite R_mean_zero; [|destruct l; [simpl in Hlen; lia | discriminate]
                        |assumption].
  destruct (length l <=? 1) eqn:E; [apply Nat.leb_le in E; lia|].
  simpl. f_equal.
  rewrite R_sum_zero.
  - unfold Rdiv. rewrite Rmult_0_l. apply sqrt_0.
  - intros x Hx. clear Hlen E. induction l as [|y l IH]; [destruct Hx|].
    simpl in Hx. destruct Hx as [<-|Hx].
    + rewrite (Hall y) by now left. lra.
    + apply IH; [intros z Hz; apply Hall; now right | assumption].
Qed.

Lemma np_sqrt_positive (A : Z) :
  (0 < A)%Z -> np_sqrt (IZR A) = Some (sqrt (IZR A)) /\ (0 < sqrt (IZR A))%R.
Proof.
  intros HA. assert (HR : (0 < IZR A)%R) by now apply IZR_lt.
  split; [|now apply sqrt_lt_R0].
  unfold np_sqrt. destruct (Rlt_dec (IZR A) 0); [lra | reflexivity].
Qed.

(** C7, as the code has it.  For a positive annualization factor A:
    when the deviation of the series is defined and not zero, the ratio is
    mean * A / (std * sqrt A); when it is zero the ratio is exactly 0, so
    the Sharpe ratio of a series of zeros with at least two present values
    is exactly 0; with fewer than two present values the deviation is
    undefined and so is the ratio. *)
Theorem sharpe_ratio_formula_and_zero_guard (r : list (option R)) (A : Z) :
  (0 < A)%Z ->
  (forall m sd,
      series_mean r = Some m -> series_std r = Some sd -> sd <> 0%R ->
      calculate_sharpe_ratio r A
      = Some (m * IZR A / (sd * sqrt (IZR A)))%R) /\
  (series_std r = Some 0%R -> calculate_sharpe_ratio r A = Some 0%R) /\
  (2 <= length (dropna r) -> (forall x, In x (dropna r) -> x = 0%R) ->
   calculate_sharpe_ratio r A = Some 0%R) /\
  (length (dropna r) < 2 -> calculate_sharpe_ratio r A = None).
Proof.
  intros HA. destruct (np_sqrt_positive A HA) as [Hsqrt Hpos].
  assert (Hzero : series_std r = Some 0%R ->
                  calculate_sharpe_ratio r A = Some 0%R).
  { intros Hsd. unfold calculate_sharpe_ratio. rewrite Hsd, Hsqrt. simpl.
    destruct (Req_EM_T (0 * sqrt (IZR A)) 0) as [_|Hne]; [reflexivity|].
    exfalso. apply Hne. lra. }
  split; [|split; [assumption | split]].
  - intros m sd Hm Hsd Hne. unfold calculate_sharpe_ratio.
    rewrite Hm, Hsd, Hsqrt. simpl.
    destruct (Req_EM_T (sd * sqrt (IZR A)) 0) as [Heq|_]; [|reflexivity].
    exfalso. apply Rmult_integral in Heq as [Heq|Heq]; [contradiction | lra].
  - intros Hlen Hall. apply Hzero. unfold series_std. now apply R_std_zero.
  - intros Hlen. unfold calculate_sharpe_ratio, series_std.
    now rewrite R_std_few.
Qed.

Lemma sharpe_ratio_formula_and_zero_guard_witness :
  let r := [Some 0%R; None; Some 0%R] in
  (forall m sd,
      series_mean r = Some m -> series_std r = Some sd -> sd <> 0%R ->
      calculate_sharpe_ratio r 252
      = Some (m * IZR 252 / (sd * sqrt (IZR 252)))%R) /\
  (series_std r = Some 0%R -> calculate_sharpe_ratio r 252 = Some 0%R) /\
  (2 <= length (dropna r) -> (forall x, In x (dropna r) -> x = 0%R) ->
   calculate_sharpe_ratio r 252 = Some 0%R) /\
  (length (dropna r) < 2 -> calculate_sharpe_ratio r 252 = None).
Proof.
  apply (sharpe_ratio_formula_and_zero_guard [Some 0%R; None; Some 0%R] 252).
  lia.
Defined.

(** C7, as it is stated, fails on the series that holds a single zero: it
    is a constant-zero series, its deviation (ddof = 1) is undefined, and
    the ratio is NaN, not 0. *)
Lemma sharpe_of_a_single_zero_is_missing :
  (forall x, In x [Some 0%R] -> x = Some 0%R) /\
  calculate_sharpe_ratio [Some 0%R] 252 = None /\
  calculate_sharpe_ratio [Some 0%R] 252 <> Some 0%R.
Proof.
  assert (Hnone : calculate_sharpe_ratio [Some 0%R] 252 = None).
  { unfold calculate_sharpe_ratio, series_std.
    now rewrite R_std_few by (simpl; lia). }
  split; [|split].
  - intros x [<-|[]]. reflexivity.
  - exact Hnone.
  - rewrite Hnone. discriminate.
Qed.

(** ** The dates of the factors and of the returns *)

Lemma init_inv (data : dict (DataFrame Qc)) (st : AlphaBacktest) :
  __init__ data = inr st ->
  exists close,
    dict_get "close" data = Some close /\
    st = mkAlphaBacktest data []
           (map_columns (shift (-1)) (map_columns (pct_change 1) close)).
Proof.
  unfold __init__, dict_item, bind_exn.
  destruct (dict_get "close" data) as [close|]; [|discriminate].
  intros Heq. injection Heq as <-. now exists close.
Qed.

Lemma index_loc_rows {A} (df rows : DataFrame A) (dates : list date) :
  loc_rows df dates = inr rows -> index rows = dates.
Proof.
  unfold loc_rows. destruct (find _ dates); [discriminate|].
  intros Heq. now injection Heq as <-.
Qed.

Lemma filter_items_index (dates : list date)
  (items acc filtered : dict (DataFrame Qc)) :
  Forall (fun df => index df = dates) (map snd acc) ->
  filter_items dates items acc = inr filtered ->
  Forall (fun df => index df = dates) (map snd filtered).
Proof.
  revert acc. induction items as [|[key df] items IH]; intros acc Hacc; simpl.
  - intros Heq. now injection Heq as <-.
  - unfold bind_exn. destruct (loc_rows df dates) as [e|rows] eqn:E;
      [discriminate|].
    apply IH. apply Forall_dict_set; [|assumption].
    now apply index_loc_rows in E.
Qed.

Lemma dict_get_Forall {V} (P : V -> Prop) (d : dict V) (k : string) (v : V) :
  Forall P (map snd d) -> dict_get k d = Some v -> P v.
Proof.
  induction d as [|[k' v'] d IH]; simpl; [discriminate|].
  intros Hall. inversion Hall; subst.
  destruct (String.eqb k k'); [|auto].
  intros Heq. now injection Heq as <-.
Qed.

(** Every factor of [calculate_all_factors] lives on the dates of the
    panels it is given, when these share their dates. *)
Lemma calculate_all_factors_index (data fs : dict (DataFrame Qc))
  (dates : list date) :
  Forall (fun df => index df = dates) (map snd data) ->
  AlphaFactors.calculate_all_factors data = inr fs ->
  Forall (fun df => index df = dates) (map snd fs).
Proof.
  intros Hall. unfold AlphaFactors.calculate_all_factors, dict_item, bind_exn.
  destruct (dict_get "close" data) as [close|] eqn:Ec; [|discriminate].
  destruct (dict_get "volume" data) as [volume|] eqn:Ev; [|discriminate].
  destruct (dict_get "high" data) as [high|] eqn:Eh; [|discriminate].
  destruct (dict_get "low" data) as [low|] eqn:El; [|discriminate].
  destruct (AlphaFactors.volatility_breakout high low close 20)
    as [e|breakout] eqn:Eb; [discriminate|].
  intros Heq. injection Heq as <-.
  pose proof (dict_get_Forall _ _ _ _ Hall Ec) as Hc.
  pose proof (dict_get_Forall _ _ _ _ Hall Ev) as Hv.
  pose proof (dict_get_Forall _ _ _ _ Hall Eh) as Hh.
  pose proof (dict_get_Forall _ _ _ _ Hall El) as Hl.
  simpl in Hc, Hv, Hh, Hl.
  cbn [dict_set String.eqb Ascii.eqb Bool.eqb map snd].
  constructor; [|constructor; [|constructor; [|constructor]]].
  - simpl. exact Hc.
  - simpl. now rewrite Hc, Hv, union_labels_same.
  - unfold AlphaFactors.volatility_breakout in Eb.
    destruct (negb (same_labels high close)); [discriminate|].
    destruct (negb (same_labels low close)); [discriminate|].
    injection Eb as <-. simpl. now rewrite Hh, Hl, union_labels_same.
Qed.

Lemma calculate_factors_inv (st : AlphaBacktest) (out : list Diagnostic)
  (s1 : AlphaBacktest * list Diagnostic) :
  calculate_factors (st, out) = inr (tt, s1) ->
  exists close,
    dict_get "close" (ohlcv_data st) = Some close /\
    returns (fst s1) = returns st /\
    ohlcv_data (fst s1) = ohlcv_data st /\
    snd s1 = out /\
    factors (fst s1) <> [] /\
    Forall (fun df => index df = filter (enough_data close) (index close))
           (map snd (factors (fst s1))).
Proof.
  unfold calculate_factors, bind, get_self, lift_exn, dict_item, set_factors.
  simpl.
  destruct (dict_get "close" (ohlcv_data st)) as [close|]; [|discriminate].
  destruct (filter_items _ (ohlcv_data st) []) as [e|fd] eqn:Ef;
    [discriminate|].
  destruct (AlphaFactors.calculate_all_factors fd) as [e|fs] eqn:Ea;
    [discriminate|].
  intros Heq. injection Heq as <-. exists close. simpl.
  repeat split; try reflexivity.
  - intros Hnil. subst fs.
    unfold AlphaFactors.calculate_all_factors, dict_item, bind_exn in Ea.
    destruct (dict_get "close" fd); [|discriminate].
    destruct (dict_get "volume" fd); [|discriminate].
    destruct (dict_get "high" fd); [|discriminate].
    destruct (dict_get "low" fd); [|discriminate].
    destruct (AlphaFactors.volatility_breakout _ _ _ _); discriminate.
  - eapply calculate_all_factors_index; [|exact Ea].
    eapply filter_items_index; [|exact Ef]. constructor.
Qed.

Lemma gappy_calculate_factors :
  calculate_factors (gappy_backtest, []) = inr (tt, gappy_ready).
Proof.
  unfold gappy_ready.
  assert (Hret : returned (calculate_factors (gappy_backtest, [])) = true)
    by (vm_compute; reflexivity).
  destruct (calculate_factors (gappy_backtest, [])) as [e|[[] s]];
    [discriminate | reflexivity].
Qed.

(** C10.  [calculate_factors] keeps the dates on which at least 80% of the
    instruments have a closing price and hands only those to the factor
    formulas: the dates of every factor panel are the dates of the closing
    prices that pass the test, in order.  The forward returns were computed
    by the constructor from the whole panel of closing prices and keep all
    its dates.  The two date axes can differ: in the market with a gap they
    do. *)
Theorem factor_dates_are_filtered_return_dates_are_not
  (data : dict (DataFrame Qc)) (st : AlphaBacktest) (out : list Diagnostic)
  (s1 : AlphaBacktest * list Diagnostic) :
  __init__ data = inr st ->
  calculate_factors (st, out) = inr (tt, s1) ->
  (exists close,
     dict_get "close" data = Some close /\
     index (returns (fst s1)) = index close /\
     forall name f, dict_get name (factors (fst s1)) = Some f ->
       index f = filter (enough_data close) (index close) /\
       forall d, In d (index f) <->
                 In d (index close) /\
                 4 * length (columns close) <= 5 * count_notna (row close d))
  /\
  (exists f,
     __init__ gappy_data = inr gappy_backtest /\
     calculate_factors (gappy_backtest, []) = inr (tt, gappy_ready) /\
     dict_get "price_reversal" (factors (fst gappy_ready)) = Some f /\
     index f = [0; 1; 3; 4; 5; 6] /\
     index (returns (fst gappy_ready)) = [0; 1; 2; 3; 4; 5; 6]).
Proof.
  intros Hinit Hcalc. split.
  - apply init_inv in Hinit as [close [Hclose ->]].
    apply calculate_factors_inv in Hcalc
      as [close' [Hclose' [Hret [_ [_ [_ Hall]]]]]].
    simpl in Hclose'. rewrite Hclose in Hclose'. injection Hclose' as <-.
    exists close. split; [assumption|]. split; [now rewrite Hret|].
    intros name f Hf.
    pose proof (dict_get_Forall _ _ _ _ Hall Hf) as Hidx. simpl in Hidx.
    split; [assumption|]. intros d. rewrite Hidx, filter_In.
    unfold enough_data. now rewrite Nat.leb_le.
  - pose proof gappy_calculate_factors as Hg.
    destruct (dict_get "price_reversal" (factors (fst gappy_ready)))
      as [f|] eqn:Ef.
    + exists f. split; [reflexivity|]. split; [assumption|].
      split; [reflexivity|].
      apply calculate_factors_inv in Hg
        as [close [Hclose [Hret [_ [_ [_ Hall]]]]]].
      simpl in Hclose. injection Hclose as <-.
      pose proof (dict_get_Forall _ _ _ _ Hall Ef) as Hidx. simpl in Hidx.
      split; [rewrite Hidx; vm_compute; reflexivity|].
      rewrite Hret. reflexivity.
    + exfalso.
      assert (Hsome : is_some (dict_get "price_reversal"
                                 (factors (fst gappy_ready))) = true)
        by (vm_compute; reflexivity).
      rewrite Ef in Hsome. discriminate.
Qed.

Lemma factor_dates_are_filtered_return_dates_are_not_witness :
  (exists close,
     dict_get "close" sample_data = Some close /\
     index (returns (fst sample_ready)) = index close /\
     forall name f, dict_get name (factors (fst sample_ready)) = Some f ->
       index f = filter (enough_data close) (index close) /\
       forall d, In d (index f) <->
                 In d (index close) /\
                 4 * length (columns close) <= 5 * count_notna (row close d))
  /\
  (exists f,
     __init__ gappy_data = inr gappy_backtest /\
     calculate_factors (gappy_backtest, []) = inr (tt, gappy_ready) /\
     dict_get "price_reversal" (factors (fst gappy_ready)) = Some f /\
     index f = [0; 1; 3; 4; 5; 6] /\
     index (returns (fst gappy_ready)) = [0; 1; 2; 3; 4; 5; 6]).
Proof.
  apply (factor_dates_are_filtered_return_dates_are_not
           sample_data sample_backtest [] sample_ready).
  - reflexivity.
  - apply sample_calculate_factors.
Defined.

(** ** The evaluation of all factors *)

Lemma ensure_factors_ready (self : AlphaBacktest) (out : list Diagnostic) :
  factors self <> [] -> ensure_factors (self, out) = inr (tt, (self, out)).
Proof.
  intros Hne. unfold ensure_factors, bind, get_self. simpl.
  destruct (factors self); [contradiction | reflexivity].
Qed.

Lemma ensure_factors_nonempty (s s1 : AlphaBacktest * list Diagnostic) :
  ensure_factors s = inr (tt, s1) -> factors (fst s1) <> [].
Proof.
  destruct s as [self out]. unfold ensure_factors, bind, get_self. simpl.
  destruct (factors self) eqn:E.
  - intros Hcalc.
    apply calculate_factors_inv in Hcalc as [close [_ [_ [_ [_ [Hne _]]]]]].
    exact Hne.
  - intros Heq. injection Heq as <-. simpl. rewrite E. discriminate.
Qed.

Lemma evaluate_factor_run (self : AlphaBacktest) (out : list Diagnostic)
  (k : nat) (results : dict ResultValue) (name : string)
  (factor : DataFrame Qc) :
  1 <= k -> factors self <> [] ->
  dict_get name (factors self) = Some factor ->
  let ls := spread (grouped_returns (returns self) factor k) k in
  let out1 := out ++ snd (assign_quantiles factor k) in
  evaluate_factor k results name (self, out) =
  if series_empty ls || isna_all ls
  then inr (results, (self, out1 ++ [EmptyLongShort name]))
  else inr (dict_set name (factor_entry (returns self) factor ls) results,
            (self, out1)).
Proof.
  intros Hk Hne Hf ls out1. unfold evaluate_factor, bind.
  rewrite (calculate_long_short_returns_run (self, out) (self, out)
             name k factor (ensure_factors_ready self out Hne) Hf).
  cbv zeta. simpl fst. simpl snd. rewrite columns_grouped_returns.
  assert (Hlast : mem (quantile_label k) (quantile_labels k) = true).
  { apply mem_In, In_quantile_labels. exists k. split; [lia | reflexivity]. }
  assert (Hfirst : mem "Q1" (quantile_labels k) = true).
  { apply mem_In, In_quantile_labels. exists 1. split; [lia | reflexivity]. }
  rewrite Hlast, Hfirst. simpl andb. cbv iota. fold ls. fold out1.
  destruct (series_empty ls || isna_all ls); [reflexivity|].
  rewrite (calculate_factor_ic_run (self, out1) (self, out1) name factor
             (ensure_factors_ready self out1 Hne) Hf).
  reflexivity.
Qed.

(** Every turn of the loop returns, and leaves the object as it was. *)
Lemma evaluate_factor_returns (self : AlphaBacktest) (out : list Diagnostic)
  (k : nat) (results : dict ResultValue) (name : string) :
  factors self <> [] -> In name (dict_keys (factors self)) ->
  exists results' out',
    evaluate_factor k results name (self, out) = inr (results', (self, out')).
Proof.
  intros Hne Hin. apply dict_get_In_keys in Hin.
  destruct (dict_get name (factors self)) as [factor|] eqn:Hf;
    [clear Hin | contradiction].
  unfold evaluate_factor, bind.
  rewrite (calculate_long_short_returns_run (self, out) (self, out)
             name k factor (ensure_factors_ready self out Hne) Hf).
  cbv zeta. simpl fst. simpl snd.
  match goal with
  | |- context [if ?c then inr (?a, ?sa) else inr (?b, ?sb)] =>
      assert (Hls : exists ls out',
                (if c then inr (a, sa) else inr (b, sb))
                = inr (ls, (self, out')) :> Exn + _)
        by (destruct c; eexists; eexists; reflexivity)
  end.
  destruct Hls as [ls [out' ->]].
  destruct (series_empty ls || isna_all ls).
  - eexists. eexists. reflexivity.
  - rewrite (calculate_factor_ic_run (self, out') (self, out') name factor
               (ensure_factors_ready self out' Hne) Hf).
    eexists. eexists. reflexivity.
Qed.

Lemma evaluate_loop_returns (self : AlphaBacktest) (k : nat)
  (names : list string) :
  factors self <> [] ->
  (forall n, In n names -> In n (dict_keys (factors self))) ->
  forall results out, exists results' out',
    evaluate_loop k names results (self, out) = inr (results', (self, out')).
Proof.
  intros Hne. induction names as [|name names IH]; intros Hin results out.
  - eexists. eexists. reflexivity.
  - simpl. unfold bind.
    destruct (evaluate_factor_returns self out k results name Hne)
      as [results1 [out1 ->]]; [apply Hin; now left|].
    apply IH. intros n Hn. apply Hin. now right.
Qed.

(** Once the factors could be computed, the evaluation returns: nothing in
    it raises. *)
Lemma evaluate_all_factors_returns (k : nat)
  (s s1 : AlphaBacktest * list Diagnostic) :
  ensure_factors s = inr (tt, s1) ->
  exists results s2, evaluate_all_factors k s = inr (results, s2).
Proof.
  intros He. pose proof (ensure_factors_nonempty s s1 He) as Hne.
  destruct s1 as [self out]. simpl in Hne.
  unfold evaluate_all_factors, bind. rewrite He. unfold get_self. simpl.
  destruct (evaluate_loop_returns self k (dict_keys (factors self)) Hne
              (fun n H => H) [] out) as [results [out' ->]].
  unfold calculate_factor_correlation, bind.
  rewrite (ensure_factors_ready self out' Hne). unfold get_self. simpl.
  eexists. eexists. reflexivity.
Qed.

(** ** Absent panels *)

Lemma filter_items_keys (dates : list date)
  (items acc filtered : dict (DataFrame Qc)) (k : string) :
  filter_items dates items acc = inr filtered ->
  is_some (dict_get k filtered)
  = is_some (dict_get k acc) || is_some (dict_get k items).
Proof.
  revert acc. induction items as [|[key df] items IH]; intros acc; simpl.
  - intros Heq. injection Heq as <-. now rewrite orb_false_r.
  - unfold bind_exn. destruct (loc_rows df dates) as [e|rows]; [discriminate|].
    intros Hrest. rewrite (IH _ Hrest).
    destruct (String.eqb k key) eqn:E.
    + apply String.eqb_eq in E. subst key. rewrite dict_get_set_same. simpl.
      now rewrite orb_true_r.
    + apply String.eqb_neq in E. now rewrite dict_get_set_other.
Qed.

Lemma calculate_all_factors_absent (data : dict (DataFrame Qc)) (k : string) :
  In k ["close"; "volume"; "high"; "low"] -> dict_get k data = None ->
  exists k', AlphaFactors.calculate_all_factors data = inl (KeyError k') /\
             dict_get k' data = None.
Proof.
  intros Hin Hk. unfold AlphaFactors.calculate_all_factors, dict_item, bind_exn.
  destruct (dict_get "close" data) eqn:Ec; [|now exists "close"].
  destruct (dict_get "volume" data) eqn:Ev; [|now exists "volume"].
  destruct (dict_get "high" data) eqn:Eh; [|now exists "high"].
  destruct (dict_get "low" data) eqn:El; [|now exists "low"].
  simpl in Hin. destruct Hin as [<-|[<-|[<-|[<-|[]]]]]; congruence.
Qed.

(** C8, as the code has it.  Nothing validates the dictionary; a panel is
    missed when its key is read.  Without "close" the constructor raises
    [KeyError('close')] at once.  With "close" but without "volume", "high"
    or "low" the constructor succeeds (the forward returns are computed)
    and the failure comes only from [calculate_factors]: the [KeyError] of
    an absent key (or, before it, a date that one of the panels lacks).
    [calculate_all_factors] raises the [KeyError] of the first absent key
    in the order close, volume, high, low.  The key "open" is never read:
    two dictionaries that differ only there behave alike. *)
Theorem absent_panels_raise_key_errors_when_read
  (data : dict (DataFrame Qc)) :
  (dict_get "close" data = None -> __init__ data = inl (KeyError "close")) /\
  (forall st out k,
      __init__ data = inr st ->
      In k ["volume"; "high"; "low"] -> dict_get k data = None ->
      exists e,
        calculate_factors (st, out) = inl e /\
        ((exists d, e = KeyErrorDate d) \/
         (exists k', e = KeyError k' /\ dict_get k' data = None))) /\
  (dict_get "close" data <> None -> dict_get "volume" data = None ->
   AlphaFactors.calculate_all_factors data = inl (KeyError "volume")) /\
  (dict_get "close" data <> None -> dict_get "volume" data <> None ->
   dict_get "high" data = None ->
   AlphaFactors.calculate_all_factors data = inl (KeyError "high")) /\
  (dict_get "close" data <> None -> dict_get "volume" data <> None ->
   dict_get "high" data <> None -> dict_get "low" data = None ->
   AlphaFactors.calculate_all_factors data = inl (KeyError "low")) /\
  (forall data' : dict (DataFrame Qc),
      (forall k, k <> "open" -> dict_get k data' = dict_get k data) ->
      AlphaFactors.calculate_all_factors data'
      = AlphaFactors.calculate_all_factors data /\
      returned (__init__ data') = returned (__init__ data)).
Proof.
  split; [|split; [|split; [|split; [|split]]]].
  - intros Hc. unfold __init__, dict_item, bind_exn. now rewrite Hc.
  - intros st out k Hinit Hin Hk.
    apply init_inv in Hinit as [close [Hclose ->]].
    unfold calculate_factors, bind, get_self, lift_exn, dict_item. simpl.
    rewrite Hclose.
    destruct (filter_items (filter (enough_data close) (index close)) data [])
      as [e|fd] eqn:Ef.
    + exists e. split; [reflexivity|]. left.
      clear Hclose Hk. revert Ef. generalize (@nil (string * DataFrame Qc)).
      induction data as [|[key df] items IH]; intros acc; simpl;
        [discriminate|].
      unfold bind_exn, loc_rows.
      destruct (find _ (filter (enough_data close) (index close))) as [d|].
      * intros Heq. injection Heq as <-. now exists d.
      * apply IH.
    + assert (Hk' : dict_get k fd = None).
      { pose proof (filter_items_keys _ _ _ _ k Ef) as Hkeys.
        rewrite Hk in Hkeys. simpl in Hkeys.
        now destruct (dict_get k fd). }
      destruct (calculate_all_factors_absent fd k) as [k' [Hraise Hk'']].
      * simpl in *. tauto.
      * assumption.
      * rewrite Hraise. exists (KeyError k'). split; [reflexivity|]. right.
        exists k'. split; [reflexivity|].
        pose proof (filter_items_keys _ _ _ _ k' Ef) as Hkeys.
        rewrite Hk'' in Hkeys. simpl in Hkeys.
        now destruct (dict_get k' data).
  - intros Hc Hv. unfold AlphaFactors.calculate_all_factors, dict_item, bind_exn.
    destruct (dict_get "close" data); [|contradiction]. now rewrite Hv.
  - intros Hc Hv Hh.
    unfold AlphaFactors.calculate_all_factors, dict_item, bind_exn.
    destruct (dict_get "close" data); [|contradiction].
    destruct (dict_get "volume" data); [|contradiction]. now rewrite Hh.
  - intros Hc Hv Hh Hl.
    unfold AlphaFactors.calculate_all_factors, dict_item, bind_exn.
    destruct (dict_get "close" data); [|contradiction].
    destruct (dict_get "volume" data); [|contradiction].
    destruct (dict_get "high" data); [|contradiction]. now rewrite Hl.
  - intros data' Hsame. split.
    + unfold AlphaFactors.calculate_all_factors, dict_item.
      now rewrite !Hsame by discriminate.
    + unfold __init__, dict_item. rewrite Hsame by discriminate.
      now destruct (dict_get "close" data).
Qed.

Lemma absent_panels_raise_key_errors_when_read_witness :
  (exists e,
      calculate_factors
        (mkAlphaBacktest sample_without_volume []
           (map_columns (shift (-1))
              (map_columns (pct_change 1) sample_prices)), [])
      = inl e /\
      ((exists d, e = KeyErrorDate d) \/
       (exists k', e = KeyError k' /\
                   dict_get k' sample_without_volume = None))) /\
  AlphaFactors.calculate_all_factors sample_without_volume
  = inl (KeyError "volume") /\
  AlphaFactors.calculate_all_factors sample_without_open
  = AlphaFactors.calculate_all_factors sample_data.
Proof.
  destruct (absent_panels_raise_key_errors_when_read sample_without_volume)
    as [_ [Hlate [Hvolume _]]].
  destruct (absent_panels_raise_key_errors_when_read sample_data)
    as [_ [_ [_ [_ [_ Hopen]]]]].
  split; [|split].
  - apply (Hlate _ [] "volume").
    + reflexivity.
    + simpl. tauto.
    + reflexivity.
  - apply Hvolume; [discriminate | reflexivity].
  - apply Hopen. intros k Hk. simpl.
    destruct (String.eqb k "open") eqn:E; [|reflexivity].
    apply String.eqb_eq in E. contradiction.
Defined.

(** C8, as it is stated, fails on the market without the panel of opening
    prices: a required key is absent, the constructor and the whole
    evaluation return, and nothing is raised. *)
Lemma absent_open_panel_raises_nothing :
  dict_get "open" sample_without_open = None /\
  exists st results s2,
    __init__ sample_without_open = inr st /\
    evaluate_all_factors 3 (st, []) = inr (results, s2).
Proof.
  split; [reflexivity|].
  eexists. 
  assert (Hret : returned (ensure_factors
                   (mkAlphaBacktest sample_without_open []
                      (map_columns (shift (-1))
                         (map_columns (pct_change 1) sample_prices)), []))
                 = true) by (vm_compute; reflexivity).
  destruct (ensure_factors _) as [e|[[] s1]] eqn:He; [discriminate|].
  destruct (evaluate_all_factors_returns 3 _ _ He) as [results [s2 Hev]].
  exists results, s2. split; [reflexivity | exact Hev].
Qed.

(** ** Concrete runs *)

Lemma cell_eqb_eq (a b : cell) : cell_eqb a b = true -> a = b.
Proof.
  destruct a as [x|], b as [y|]; simpl; try easy.
  intros Heq. f_equal. now apply Qc_eq_bool_correct.
Qed.

Lemma cells_eqb_eq (a b : list cell) : cells_eqb a b = true -> a = b.
Proof.
  revert b. induction a as [|x a IH]; intros [|y b]; simpl; try easy.
  intros Heq. apply andb_prop in Heq as [Hxy Hab].
  f_equal; [now apply cell_eqb_eq | now apply IH].
Qed.

Lemma sample_ready_printed_nothing : snd sample_ready = [].
Proof.
  pose proof sample_calculate_factors as Hcalc.
  now apply calculate_factors_inv in Hcalc as [close [_ [_ [_ [Hout _]]]]].
Qed.

(** C1, on the sample market.  On the sixth date (label 5) the price
    reversal puts one instrument in each bucket; the forward return of the
    instrument in Q1 is 1/2, which is the equal-weighted mean of the bucket,
    yet the Q1 entry of the table is 1/6: the returns are multiplied by the
    0/1 mask and averaged over all three instruments.  On the first date
    (label 0), which the bucketer skips, no instrument holds Q1 and the mean
    of the bucket is missing, yet the entry is 0. *)
Theorem bucket_series_averages_over_all_instruments :
  let factor := sample_factor "price_reversal" in
  let returns := returns (fst sample_ready) in
  let factor_quantiles := fst (assign_quantiles factor 3) in
  __init__ sample_data = inr sample_backtest /\
  exists table s2,
    calculate_factor_returns "price_reversal" 3 (sample_backtest, [])
      = inr (table, s2) /\
    row factor_quantiles 5 = [Some "Q1"; Some "Q2"; Some "Q3"] /\
    row returns 5 = [Some (frac 1 2); Some (frac 1 1); Some (frac 3 2)] /\
    bucket_mean_spec returns factor_quantiles "Q1" 5 = Some (frac 1 2) /\
    lookup table 5 "Q1" = Some (frac 1 6) /\
    row factor_quantiles 0 = [None; None; None] /\
    In (TooFewDistinct 0 3) (snd s2) /\
    bucket_mean_spec returns factor_quantiles "Q1" 0 = None /\
    lookup table 0 "Q1" = Some (frac 0 1).
Proof.
  intros factor returns factor_quantiles.
  assert (Hf : dict_get "price_reversal" (factors (fst sample_ready))
               = Some factor)
    by (apply sample_factor_get; vm_compute; reflexivity).
  split; [reflexivity|].
  eexists. eexists.
  split.
  { apply (calculate_factor_returns_run _ _ _ 3 factor
             sample_ensure_factors Hf). }
  fold returns.
  split; [vm_compute; reflexivity|].
  split; [apply cells_eqb_eq; vm_compute; reflexivity|].
  split; [apply cell_eqb_eq; vm_compute; reflexivity|].
  split; [apply cell_eqb_eq; vm_compute; reflexivity|].
  split; [vm_compute; reflexivity|].
  split.
  { cbn [snd]. apply in_or_app. right.
    apply assign_quantiles_prints_skip.
    - vm_compute. tauto.
    - vm_compute. lia. }
  split; [vm_compute; reflexivity|].
  apply cell_eqb_eq. vm_compute. reflexivity.
Qed.

Lemma Qc2R_0 : Qc2R 0%Qc = 0%R.
Proof. unfold Qc2R, Q2R. simpl. lra. Qed.

Lemma dropna_map {A B} (f : A -> B) (l : list (option A)) :
  dropna (map (option_map f) l) = map f (dropna l).
Proof.
  induction l as [|[x|] l IH]; simpl; [reflexivity | now f_equal | assumption].
Qed.

Lemma sharpe_ratio_of_zeros (r : list (option R)) :
  2 <= length (dropna r) -> (forall x, In x (dropna r) -> x = 0%R) ->
  calculate_sharpe_ratio r 252 = Some 0%R.
Proof.
  intros Hlen Hall.
  destruct (np_sqrt_positive 252 ltac:(lia)) as [Hsqrt _].
  unfold calculate_sharpe_ratio, series_std.
  rewrite (R_std_zero _ Hlen Hall), Hsqrt. simpl.
  destruct (Req_EM_T (0 * sqrt (IZR 252)) 0) as [_|Hne]; [reflexivity|].
  exfalso. apply Hne. lra.
Qed.

Lemma sharpe_ratio_of_zero_series (ls : Series Qc) :
  forallb zero_or_missing (s_list ls) = true ->
  2 <= length (dropna (s_list ls)) ->
  calculate_sharpe_ratio (series_to_R ls) 252 = Some 0%R.
Proof.
  intros Hzero Hlen. apply sharpe_ratio_of_zeros; unfold series_to_R;
    rewrite dropna_map.
  - now rewrite length_map.
  - intros x Hx. apply in_map_iff in Hx as [q [<- Hq]].
    apply In_dropna in Hq. rewrite forallb_forall in Hzero.
    apply Hzero in Hq. simpl in Hq. apply Qc_eq_bool_correct in Hq.
    subst q. apply Qc2R_0.
Qed.

Lemma constant_panel_spec (f : DataFrame Qc) (v : Qc) :
  constant_panel f v = true ->
  forall d c, In d (index f) -> In c (columns f) -> lookup f d c = Some v.
Proof.
  unfold constant_panel. intros Hall d c Hd Hc.
  rewrite forallb_forall in Hall. specialize (Hall d Hd).
  rewrite forallb_forall in Hall. specialize (Hall c Hc).
  now apply cell_eqb_eq.
Qed.

(** C3, on the sample market.  The volatility-breakout factor is 0 for
    every instrument on every date, so the bucketer skips every date.  Its
    long-short series is nevertheless 0, not missing, on the dates that have
    a forward return (the returns are multiplied by an all-false mask), the
    test for an empty or all-missing series fails, and the factor is
    evaluated: it is in the results with a Sharpe ratio of 0, and
    [average_sharpe] is the mean over three factors, this one included. *)
Theorem constant_factor_is_still_evaluated :
  let factor := sample_factor "volatility_breakout" in
  let returns := returns (fst sample_ready) in
  let ls := spread (grouped_returns returns factor 3) 3 in
  __init__ sample_data = inr sample_backtest /\
  (forall d c, In d (index factor) -> In c (columns factor) ->
               lookup factor d c = Some 0%Qc) /\
  (forall d c, lookup (fst (assign_quantiles factor 3)) d c = None) /\
  s_list ls = [Some 0%Qc; Some 0%Qc; Some 0%Qc; Some 0%Qc; Some 0%Qc;
               Some 0%Qc; None] /\
  exists results s2 e1 e2,
    evaluate_all_factors 3 (sample_backtest, []) = inr (results, s2) /\
    dict_get "price_reversal" results = Some e1 /\
    dict_get "volume_price_ratio" results = Some e2 /\
    dict_get "volatility_breakout" results
      = Some (factor_entry returns factor ls) /\
    calculate_sharpe_ratio (series_to_R ls) 252 = Some 0%R /\
    dict_get "average_sharpe" results
      = Some (Scalar (np_mean (sharpe_of e1 ++ sharpe_of e2 ++ [Some 0%R]))).
Proof.
  intros factor returns ls.
  set (self := fst sample_ready) in *.
  assert (Hconst : forall d c, In d (index factor) -> In c (columns factor) ->
                               lookup factor d c = Some 0%Qc).
  { apply constant_panel_spec. vm_compute. reflexivity. }
  assert (Hlist : s_list ls = [Some 0%Qc; Some 0%Qc; Some 0%Qc; Some 0%Qc;
                               Some 0%Qc; Some 0%Qc; None]).
  { apply cells_eqb_eq. vm_compute. reflexivity. }
  assert (Hsharpe : calculate_sharpe_ratio (series_to_R ls) 252 = Some 0%R).
  { apply sharpe_ratio_of_zero_series.
    - vm_compute. reflexivity.
    - vm_compute. lia. }
  split; [reflexivity|]. split; [exact Hconst|]. split.
  { intros d c. rewrite lookup_assign_quantiles.
    destruct (mem d (index factor) && mem c (columns factor)) eqn:E;
      [|reflexivity].
    apply andb_prop in E as [Ed Ec]. apply mem_In in Ed.
    assert (Hskip : forallb (fun d =>
               length (unique (dropna (row factor d))) <? 3) (index factor)
               = true) by (vm_compute; reflexivity).
    rewrite forallb_forall in Hskip. specialize (Hskip d Ed).
    apply Nat.ltb_lt in Hskip. unfold bucket_labels.
    destruct (3 <=? length (unique (dropna (row factor d)))) eqn:E3.
    - apply Nat.leb_le in E3. lia.
    - apply nth_all_missing. }
  split; [exact Hlist|].
  (* the run *)
  assert (Hready : sample_ready = (self, [])).
  { rewrite (surjective_pairing sample_ready).
    now rewrite sample_ready_printed_nothing. }
  assert (Hne : factors self <> []).
  { apply (ensure_factors_nonempty _ _ sample_ensure_factors). }
  assert (Hkeys : dict_keys (factors self)
                  = ["price_reversal"; "volume_price_ratio";
                     "volatility_breakout"])
    by (vm_compute; reflexivity).
  assert (H1 : dict_get "price_reversal" (factors self)
               = Some (sample_factor "price_reversal"))
    by (apply sample_factor_get; vm_compute; reflexivity).
  assert (H2 : dict_get "volume_price_ratio" (factors self)
               = Some (sample_factor "volume_price_ratio"))
    by (apply sample_factor_get; vm_compute; reflexivity).
  assert (H3 : dict_get "volatility_breakout" (factors self) = Some factor)
    by (apply sample_factor_get; vm_compute; reflexivity).
  set (ls1 := spread (grouped_returns returns
                        (sample_factor "price_reversal") 3) 3).
  set (ls2 := spread (grouped_returns returns
                        (sample_factor "volume_price_ratio") 3) 3).
  assert (E1 : series_empty ls1 || isna_all ls1 = false)
    by (vm_compute; reflexivity).
  assert (E2 : series_empty ls2 || isna_all ls2 = false)
    by (vm_compute; reflexivity).
  assert (E3 : series_empty ls || isna_all ls = false)
    by (vm_compute; reflexivity).
  set (e1 := factor_entry returns (sample_factor "price_reversal") ls1).
  set (e2 := factor_entry returns (sample_factor "volume_price_ratio") ls2).
  set (e3 := factor_entry returns factor ls).
  assert (Hloop : exists out,
    evaluate_loop 3 (dict_keys (factors self)) [] (self, [])
    = inr ([("price_reversal", e1); ("volume_price_ratio", e2);
            ("volatility_breakout", e3)], (self, out))).
  { rewrite Hkeys. unfold evaluate_loop, bind.
    rewrite (evaluate_factor_run self [] 3 [] _ _ ltac:(lia) Hne H1).
    cbv zeta. fold returns. fold ls1. rewrite E1.
    rewrite (evaluate_factor_run self _ 3 _ _ _ ltac:(lia) Hne H2).
    cbv zeta. fold returns. fold ls2. rewrite E2.
    rewrite (evaluate_factor_run self _ 3 _ _ _ ltac:(lia) Hne H3).
    cbv zeta. fold returns. fold ls. rewrite E3.
    fold e1. fold e2. fold e3. eexists. reflexivity. }
  destruct Hloop as [out Hloop].
  eexists. eexists. exists e1, e2.
  split.
  { unfold evaluate_all_factors, bind.
    rewrite sample_ensure_factors, Hready. unfold get_self.
    cbn [fst snd]. rewrite Hloop.
    unfold calculate_factor_correlation, bind.
    rewrite (ensure_factors_ready self out Hne). unfold get_self, ret.
    cbn [fst snd]. reflexivity. }
  cbn [dict_set String.eqb Ascii.eqb Bool.eqb dict_get flat_map snd fst
       sharpe_of app].
  split; [reflexivity|]. split; [reflexivity|]. split; [reflexivity|].
  split; [exact Hsharpe|].
  unfold e1, e2, e3, factor_entry. cbn [sharpe_of app].
  rewrite Hsharpe. reflexivity.
Qed.

(** ** Order on the rationals *)

Lemma Qc_ltb_lt (x y : Qc) : Qc_ltb x y = true <-> (x < y)%Qc.
Proof.
  unfold Qc_ltb. rewrite Qclt_alt. destruct (x ?= y)%Qc; split; congruence.
Qed.

Lemma Qc_ltb_ge (x y : Qc) : Qc_ltb x y = false <-> (y <= x)%Qc.
Proof.
  split.
  - intros Hf. apply Qcnot_lt_le. intros Hlt. apply Qc_ltb_lt in Hlt. congruence.
  - intros Hle. destruct (Qc_ltb x y) eqn:E; [|reflexivity].
    apply Qc_ltb_lt in E. now apply Qcle_not_lt in Hle.
Qed.

Lemma Qc_eq_bool_eq (x y : Qc) : Qc_eq_bool x y = true <-> x = y.
Proof.
  split; [apply Qc_eq_bool_correct|]. intros ->.
  unfold Qc_eq_bool. destruct (Qc_eq_dec y y); [reflexivity | contradiction].
Qed.

Lemma Qc_eq_bool_refl (x : Qc) : Qc_eq_bool x x = true.
Proof. now apply Qc_eq_bool_eq. Qed.


Lemma Qc_of_nat_this (n : nat) : (this (Qc_of_nat n) == inject_Z (Z.of_nat n))%Q.
Proof. unfold Qc_of_nat, Q2Qc. cbn [this]. apply Qred_correct. Qed.

Lemma Qc_of_nat_lt (a b : nat) : (Qc_of_nat a < Qc_of_nat b)%Qc <-> a < b.
Proof.
  unfold Qclt. rewrite !Qc_of_nat_this, <- Zlt_Qlt. lia.
Qed.





Lemma Qc_of_nat_0 : Qc_of_nat 0 = 0%Qc.
Proof. apply Qc_is_canon. reflexivity. Qed.


Lemma Qc_of_nat_ltb (a b : nat) :
  Qc_ltb (Qc_of_nat a) (Qc_of_nat b) = (a <? b).
Proof.
  apply eq_true_iff_eq. rewrite Qc_ltb_lt, Qc_of_nat_lt, Nat.ltb_lt. tauto.
Qed.


(** ** Ranks *)

Lemma dropna_app {A} (a b : list (option A)) :
  dropna (a ++ b) = dropna a ++ dropna b.
Proof.
  induction a as [|[x|] a IH]; simpl; [reflexivity | now f_equal | assumption].
Qed.



















(** ** Sorting *)








(** ** The edges of the buckets *)

Lemma Qc_of_nat_pos (k : nat) : 1 <= k -> (0 < Qc_of_nat k)%Qc.
Proof. intros Hk. rewrite <- Qc_of_nat_0. apply Qc_of_nat_lt. lia. Qed.










(** ** The bucket of a rank *)








(** ** The sizes of the buckets *)







(** ** The labels of a date that is bucketed *)





Lemma bucket_number_first (n k : nat) : bucket_number n k 1 = 1.
Proof. reflexivity. Qed.





(** ** What the table holds on a skipped date *)

Lemma Qc_sum_zeros (l : list Qc) :
  (forall x, In x l -> x = 0%Qc) -> Qc_sum l = 0%Qc.
Proof.
  induction l as [|x l IH]; simpl; intros Hall; [reflexivity|].
  rewrite (Hall x) by now left. rewrite IH by auto. ring.
Qed.

Lemma nanmean_zeros (l : list cell) :
  (forall x, In (Some x) l -> x = 0%Qc) -> (exists x, In (Some x) l) ->
  nanmean l = Some 0%Qc.
Proof.
  intros Hall [x Hx]. unfold nanmean, mean_list.
  destruct (dropna l) as [|y ys] eqn:E.
  - apply In_dropna in Hx. rewrite E in Hx. destruct Hx.
  - rewrite <- E. f_equal. rewrite Qc_sum_zeros.
    + unfold Qcdiv. ring.
    + intros z Hz. apply Hall. now apply In_dropna.
Qed.

(** On a date of the factor that the bucketer skips, and for which some
    instrument of both panels has a forward return, every bucket column of
    the table holds 0: the mask is false everywhere, and the returns times
    the mask are zeros, which the row mean averages. *)
Lemma skipped_date_entry_is_zero (r f : DataFrame Qc) (k j : nat) (d : date) :
  1 <= j <= k ->
  In d (index r) -> In d (index f) ->
  length (unique (dropna (row f d))) < k ->
  (exists c x, In c (columns r) /\ In c (columns f) /\
               lookup r d c = Some x) ->
  lookup (grouped_returns r f k) d (quantile_label j) = Some 0%Qc.
Proof.
  intros Hj Hr Hf Hskip [c0 [x0 [Hc0r [Hc0f Hx0]]]].
  rewrite lookup_grouped_returns by assumption.
  set (mask := equals_label (fst (assign_quantiles f k)) (quantile_label j)).
  assert (Hmask : forall c, lookup mask d c
                            = if mem c (columns f) then Some false else None).
  { intros c. unfold mask, equals_label, map_cells, lookup at 1. simpl.
    rewrite index_assign_quantiles, columns_assign_quantiles.
    apply mem_In in Hf. rewrite Hf. simpl.
    destruct (mem c (columns f)) eqn:Ec; [|reflexivity].
    rewrite lookup_assign_quantiles, Hf, Ec. simpl.
    unfold bucket_labels.
    destruct (k <=? length (unique (dropna (row f d)))) eqn:E;
      [apply Nat.leb_le in E; lia|].
    now rewrite nth_all_missing. }
  unfold s_at, mean_axis1. cbn [s_index s_values align2 index columns].
  assert (Hd : mem d (union_labels (index r) (index mask)) = true).
  { apply mem_In, In_union_labels. now left. }
  rewrite Hd.
  assert (Hentry : forall c,
            In c (union_labels (columns r) (columns mask)) ->
            lookup (align2 times_mask r mask) d c
            = times_mask (lookup r d c) (lookup mask d c)).
  { intros c Hc. unfold lookup at 1, align2. cbn [index columns cells].
    apply mem_In in Hc. now rewrite Hd, Hc. }
  apply nanmean_zeros.
  - intros x Hx. unfold row in Hx. apply in_map_iff in Hx as [c [Hc Hin]].
    rewrite (Hentry c Hin), Hmask in Hc.
    destruct (lookup r d c) as [y|], (mem c (columns f));
      simpl in Hc; try discriminate.
    injection Hc as <-. ring.
  - exists (x0 * 0)%Qc. unfold row. apply in_map_iff. exists c0.
    assert (Hin : In c0 (union_labels (columns r) (columns mask))).
    { apply In_union_labels. now left. }
    split; [|assumption].
    rewrite (Hentry c0 Hin), Hmask, Hx0.
    apply mem_In in Hc0f. now rewrite Hc0f.
Qed.

Lemma In_unique (x : Qc) (l : list Qc) : In x (unique l) -> In x l.
Proof.
  induction l as [|y l IH]; simpl; [easy|].
  intros [->|Hin]; [now left|]. right. apply IH.
  now apply filter_In in Hin.
Qed.

Lemma unique_constant (v : Qc) (l : list Qc) :
  (forall x, In x l -> x = v) -> length (unique l) <= 1.
Proof.
  destruct l as [|y l]; simpl; intros Hall; [lia|].
  assert (Hnil : filter (fun z => negb (Qc_eq_bool y z)) (unique l) = []).
  { assert (Hy : y = v) by (apply Hall; now left).
    assert (Hu : forall z, In z (unique l) -> z = v)
      by (intros z Hz; apply Hall; right; now apply In_unique).
    subst y. clear Hall.
    induction (unique l) as [|z u IH]; simpl; [reflexivity|].
    rewrite (Hu z) by now left. rewrite Qc_eq_bool_refl. simpl.
    apply IH. intros w Hw. apply Hu. now right. }
  rewrite Hnil. simpl. lia.
Qed.

(** A date on which all present factor values are equal is skipped when at
    least two buckets are asked for. *)
Lemma constant_row_is_skipped (f : DataFrame Qc) (k : nat) (d : date)
  (v : Qc) :
  2 <= k ->
  (forall c x, lookup f d c = Some x -> x = v) ->
  length (unique (dropna (row f d))) < k.
Proof.
  intros Hk Hconst.
  assert (Hle : length (unique (dropna (row f d))) <= 1); [|lia].
  apply (unique_constant v). intros x Hx. apply In_dropna in Hx.
  unfold row in Hx. apply in_map_iff in Hx as [c [Hc _]]. eauto.
Qed.

(** So the long-short series of a factor that is constant across the
    instruments is 0, not missing, on every date of the factor for which
    some instrument has a forward return. *)
Lemma constant_factor_long_short_is_zero (r f : DataFrame Qc) (k : nat)
  (d : date) (v : Qc) :
  2 <= k ->
  In d (index r) -> In d (index f) ->
  (forall c x, lookup f d c = Some x -> x = v) ->
  (exists c x, In c (columns r) /\ In c (columns f) /\
               lookup r d c = Some x) ->
  s_at (spread (grouped_returns r f k) k) d = Some 0%Qc.
Proof.
  intros Hk Hr Hf Hconst Hret.
  pose proof (constant_row_is_skipped f k d v Hk Hconst) as Hskip.
  rewrite s_at_spread.
  change "Q1" with (quantile_label 1).
  rewrite !skipped_date_entry_is_zero by (assumption || lia).
  cbn [cell_sub lift2]. f_equal; try ring.
Qed.

(** ** Operations along the date axis *)

Lemma length_shift {A} (p : Z) (l : list (option A)) :
  length (shift p l) = length l.
Proof.
  unfold shift. destruct (0 <=? p)%Z.
  - rewrite length_firstn, length_app, repeat_length. lia.
  - rewrite length_app, length_skipn, repeat_length. lia.
Qed.

Lemma nth_shift_down {A} (w i : nat) (l : list (option A)) :
  i < length l ->
  nth i (shift (Z.of_nat w) l) None
  = if i <? w then None else nth (i - w) l None.
Proof.
  intros Hi. unfold shift.
  destruct (0 <=? Z.of_nat w)%Z eqn:E; [|apply Z.leb_gt in E; lia].
  rewrite Nat2Z.id, nth_firstn.
  destruct (i <? length l) eqn:El; [|apply Nat.ltb_ge in El; lia].
  destruct (i <? w) eqn:Ew.
  - apply Nat.ltb_lt in Ew. rewrite app_nth1 by (rewrite repeat_length; lia).
    apply nth_repeat.
  - apply Nat.ltb_ge in Ew. rewrite app_nth2 by (rewrite repeat_length; lia).
    now rewrite repeat_length.
Qed.

Lemma nth_shift_up {A} (i : nat) (l : list (option A)) :
  nth i (shift (-1) l) None = nth (S i) l None.
Proof.
  unfold shift. simpl. destruct l as [|x l]; [now destruct i|].
  simpl. destruct (Nat.lt_ge_cases i (length l)) as [Hlt|Hge].
  - now rewrite app_nth1.
  - rewrite app_nth2 by assumption. rewrite (nth_overflow l) by assumption.
    destruct (i - length l) as [|[|j]]; reflexivity.
Qed.

Lemma length_pad_from {A} (last : option A) (l : list (option A)) :
  length (pad_from last l) = length l.
Proof.
  revert last. induction l as [|[x|] l IH]; intros last; simpl;
    [reflexivity | now rewrite IH | now rewrite IH].
Qed.

Lemma nth_pad_from_present {A} (last : option A) (l : list (option A))
  (i : nat) (x : A) :
  nth i l None = Some x -> nth i (pad_from last l) None = Some x.
Proof.
  revert last i. induction l as [|[y|] l IH]; intros last [|i]; simpl;
    try discriminate; auto.
Qed.

Lemma nth_map2 {A B C} (f : option A -> option B -> option C)
  (a : list (option A)) (b : list (option B)) (i : nat) :
  length a = length b -> f None None = None ->
  nth i (map2 f a b) None = f (nth i a None) (nth i b None).
Proof.
  intros Hlen Hf. revert b i Hlen.
  induction a as [|x a IH]; intros [|y b] i Hlen; simpl in *; try lia.
  - now destruct i.
  - destruct i as [|i]; [reflexivity|]. apply IH. lia.
Qed.

(** The change over [w] rows, where both prices are present and the base
    is not zero; nothing in the first [w] rows. *)
Lemma nth_pct_change (w i : nat) (l : list (option Qc)) :
  i < length l ->
  (i < w -> @nth (option Qc) i (pct_change (Z.of_nat w) l) None = None) /\
  (forall a b, w <= i -> nth i l None = Some a ->
               nth (i - w) l None = Some b -> b <> 0%Qc ->
               @nth (option Qc) i (pct_change (Z.of_nat w) l) None
               = Some (a / b - 1)%Qc).
Proof.
  intros Hi. unfold pct_change, cell in *. cbv zeta.
  rewrite nth_map2; [|symmetry; apply length_shift|reflexivity].
  rewrite nth_shift_down by (now rewrite length_pad_from).
  split.
  - intros Hw. apply Nat.ltb_lt in Hw. rewrite Hw.
    now destruct (nth i (pad_from None l) None).
  - intros a b Hw Ha Hb Hne.
    destruct (i <? w) eqn:E; [apply Nat.ltb_lt in E; lia|].
    unfold cell in *.
    rewrite (nth_pad_from_present None l i a Ha).
    rewrite (nth_pad_from_present None l (i - w) b Hb).
    simpl. destruct (Qc_eq_bool b 0) eqn:Eb.
    + apply Qc_eq_bool_correct in Eb. contradiction.
    + reflexivity.
Qed.

(** ** Columns of a table *)

Lemma nth_column {A} (x : DataFrame A) (c : string) (i : nat) :
  i < length (index x) ->
  nth i (column x c) None = lookup x (nth i (index x) 0) c.
Proof.
  intros Hi. unfold column.
  rewrite (nth_indep _ None (lookup x 0 c)) by now rewrite length_map.
  apply (map_nth (fun d => lookup x d c)).
Qed.

Lemma length_column {A} (x : DataFrame A) (c : string) :
  length (column x c) = length (index x).
Proof. unfold column. apply length_map. Qed.

Lemma lookup_map_columns {A B} (g : list (option A) -> list (option B))
  (x : DataFrame A) (d : date) (c : string) :
  lookup (map_columns g x) d c =
  if mem d (index x) && mem c (columns x)
  then nth (position d (index x)) (g (column x c)) None else None.
Proof. reflexivity. Qed.

Lemma lookup_map_columns_nth {A B} (g : list (option A) -> list (option B))
  (x : DataFrame A) (i : nat) (c : string) :
  NoDup (index x) -> i < length (index x) -> In c (columns x) ->
  lookup (map_columns g x) (nth i (index x) 0) c
  = nth i (g (column x c)) None.
Proof.
  intros Hnd Hi Hc. rewrite lookup_map_columns.
  assert (Hd : mem (nth i (index x) 0) (index x) = true)
    by (apply mem_In, nth_In; exact Hi).
  apply mem_In in Hc. rewrite Hd, Hc. cbn [andb].
  now rewrite position_nth_NoDup.
Qed.

Lemma lookup_some_labels {A} (x : DataFrame A) (d : date) (c : string)
  (v : A) :
  lookup x d c = Some v -> In d (index x) /\ In c (columns x).
Proof.
  unfold lookup. destruct (mem d (index x)) eqn:Ed; [|discriminate].
  destruct (mem c (columns x)) eqn:Ec; [|discriminate].
  intros _. split; now apply mem_In.
Qed.

(** ** The forward returns *)

(** X2.  The forward return of the constructor.  At the last date of the
    closing prices it is missing for every instrument; at any earlier
    date where the price [p] of the date and the price [q] of the next
    date are both present and [p] is not zero, it is [q / p - 1]. *)
Theorem forward_return_is_next_over_current
  (data : dict (DataFrame Qc)) (st : AlphaBacktest) (close : DataFrame Qc)
  (i : nat) (c : string) :
  __init__ data = inr st ->
  dict_get "close" data = Some close ->
  NoDup (index close) ->
  i < length (index close) ->
  (S i = length (index close) ->
   lookup (returns st) (nth i (index close) 0) c = None) /\
  (forall p q : Qc,
     lookup close (nth i (index close) 0) c = Some p ->
     lookup close (nth (S i) (index close) 0) c = Some q ->
     S i < length (index close) -> p <> 0%Qc ->
     lookup (returns st) (nth i (index close) 0) c = Some (q / p - 1)%Qc).
Proof.
  intros Hinit Hclose Hnd Hi.
  destruct (init_inv data st Hinit) as (close' & Hc' & ->).
  rewrite Hclose in Hc'. injection Hc' as <-.
  cbn [returns].
  set (changes := map_columns (pct_change 1) close).
  destruct (in_dec string_dec c (columns close)) as [Hc|Hc].
  - pose proof (lookup_map_columns_nth (shift (-1)) changes i c) as Hs.
    change (index changes) with (index close) in Hs.
    change (columns changes) with (columns close) in Hs.
    rewrite (Hs Hnd Hi Hc), nth_shift_up. clear Hs. split.
    + intros Hlast. apply nth_overflow. rewrite length_column.
      cbn [changes map_columns index]. lia.
    + intros p q Hp Hq Hlt Hne.
      rewrite nth_column by exact Hlt.
      change (index changes) with (index close). unfold changes.
      rewrite (lookup_map_columns_nth (pct_change 1) close (S i) c Hnd Hlt Hc).
      destruct (nth_pct_change 1 (S i) (column close c)) as [_ Hchg].
      { now rewrite length_column. }
      apply (Hchg q p); [lia| | |exact Hne].
      * now rewrite nth_column.
      * replace (S i - 1) with i by lia. now rewrite nth_column.
  - assert (Hout : forall y, lookup (map_columns (shift (-1)) changes)
                               (nth i (index close) 0) c = y -> y = None).
    { intros y <-. apply lookup_outside_columns.
      destruct (mem c _) eqn:E; [apply mem_In in E; contradiction|reflexivity]. }
    split.
    + intros _. now apply Hout.
    + intros p q Hp. apply lookup_some_labels in Hp. tauto.
Qed.

Lemma forward_return_is_next_over_current_witness :
  (S 5 = length (index sample_prices) ->
   lookup (returns sample_backtest) (nth 5 (index sample_prices) 0) "A"
   = None) /\
  (forall p q : Qc,
     lookup sample_prices (nth 5 (index sample_prices) 0) "A" = Some p ->
     lookup sample_prices (nth 6 (index sample_prices) 0) "A" = Some q ->
     6 < length (index sample_prices) -> p <> 0%Qc ->
     lookup (returns sample_backtest) (nth 5 (index sample_prices) 0) "A"
     = Some (q / p - 1)%Qc).
Proof.
  apply (forward_return_is_next_over_current
           sample_data sample_backtest sample_prices 5 "A").
  - reflexivity.
  - reflexivity.
  - repeat constructor; simpl; lia.
  - simpl. lia.
Defined.

(** ** The factor formulas *)

Lemma Qc_zero_le_minus (a b : Qc) : (0 <= b - a)%Qc <-> (a <= b)%Qc.
Proof. unfold Qcminus. symmetry. apply Qcle_minus_iff. Qed.

(** The sign of a reversal: minus the relative change of a positive
    price. *)
Lemma reversal_sign (a b : Qc) :
  (0 < b)%Qc ->
  ((b < a)%Qc -> (- (a / b - 1) < 0)%Qc) /\
  ((a < b)%Qc -> (0 < - (a / b - 1))%Qc).
Proof.
  intros Hb.
  assert (Hne : b <> 0%Qc) by (apply not_eq_sym, Qclt_not_eq; exact Hb).
  assert (Hscaled : (- (a / b - 1) * b = b - a)%Qc) by (field; exact Hne).
  split; intros Hab; apply Qcnot_le_lt; intros Hle;
    apply (Qcmult_le_compat_r _ _ b) in Hle; try (now apply Qclt_le_weak);
    rewrite Hscaled in Hle; rewrite Qcmult_0_l in Hle.
  - apply (proj1 (Qc_zero_le_minus a b)) in Hle.
    exact (Qclt_not_le _ _ Hab Hle).
  - apply Qcopp_le_compat in Hle.
    replace (- (b - a))%Qc with (a - b)%Qc in Hle by ring.
    replace (- 0)%Qc with 0%Qc in Hle by ring.
    apply (proj1 (Qc_zero_le_minus b a)) in Hle.
    exact (Qclt_not_le _ _ Hab Hle).
Qed.

Lemma lookup_map_cells {A B} (f : option A -> option B) (x : DataFrame A)
  (d : date) (c : string) :
  f None = None -> lookup (map_cells f x) d c = f (lookup x d c).
Proof.
  intros Hf. unfold lookup at 1. cbn [map_cells index columns cells].
  destruct (mem d (index x) && mem c (columns x)) eqn:E; [reflexivity|].
  unfold lookup. now rewrite E.
Qed.

(** X3.  [price_reversal] keeps the labels of the prices.  It is missing
    on the first [w] dates; from then on, where the price [a] of the date
    and the price [b] of [w] dates before are present and [b] is not zero,
    it is [-(a / b - 1)]: negative after a rise of a positive price,
    positive after a fall. *)
Theorem price_reversal_is_minus_the_change_over_the_window
  (prices : DataFrame Qc) (w i : nat) (c : string) :
  NoDup (index prices) ->
  i < length (index prices) ->
  let alpha := AlphaFactors.price_reversal prices (Z.of_nat w) in
  let d := nth i (index prices) 0 in
  index alpha = index prices /\
  columns alpha = columns prices /\
  (i < w -> lookup alpha d c = None) /\
  (forall a b : Qc,
     w <= i ->
     lookup prices d c = Some a ->
     lookup prices (nth (i - w) (index prices) 0) c = Some b ->
     b <> 0%Qc ->
     lookup alpha d c = Some (- (a / b - 1))%Qc /\
     ((0 < b)%Qc -> (b < a)%Qc -> (- (a / b - 1) < 0)%Qc) /\
     ((0 < b)%Qc -> (a < b)%Qc -> (0 < - (a / b - 1))%Qc)).
Proof.
  intros Hnd Hi alpha d. unfold alpha, AlphaFactors.price_reversal.
  cbv zeta. split; [reflexivity|]. split; [reflexivity|].
  rewrite lookup_map_cells by reflexivity.
  destruct (in_dec string_dec c (columns prices)) as [Hc|Hc].
  - unfold d.
    rewrite (lookup_map_columns_nth _ prices i c Hnd Hi Hc).
    destruct (nth_pct_change w i (column prices c)) as [Hearly Hlate].
    { now rewrite length_column. }
    split.
    + intros Hw. now rewrite (Hearly Hw).
    + intros a b Hw Ha Hb Hne. split.
      * rewrite (Hlate a b Hw); [reflexivity| | |exact Hne].
        -- now rewrite nth_column.
        -- rewrite nth_column by lia. exact Hb.
      * split; intros Hpos; now apply reversal_sign.
  - assert (Hout : forall d', lookup prices d' c = None).
    { intros d'. apply lookup_outside_columns.
      destruct (mem c _) eqn:E; [apply mem_In in E; contradiction|easy]. }
    split.
    + intros _. rewrite lookup_outside_columns; [reflexivity|].
      destruct (mem c _) eqn:E; [apply mem_In in E; contradiction|easy].
    + intros a b _ Ha. rewrite Hout in Ha. discriminate.
Qed.

(** ** The breakout factor *)

Lemma lookup_align2_same {A B C} (f : option A -> option B -> option C)
  (x : DataFrame A) (y : DataFrame B) (d : date) (c : string) :
  index x = index y -> columns x = columns y ->
  lookup (align2 f x y) d c =
  if mem d (index x) && mem c (columns x)
  then f (lookup x d c) (lookup y d c) else None.
Proof.
  intros Hi Hc. unfold lookup at 1. cbn [align2 index columns cells].
  now rewrite <- Hi, <- Hc, !union_labels_same.
Qed.

Lemma nth_rolling (w : nat) (agg : list Qc -> cell) (l : list (option Qc))
  (i : nat) :
  i < length l ->
  @nth (option Qc) i (rolling w agg l) None =
  if w <=? S i then
    let win := skipn (S i - w) (firstn (S i) l) in
    if forallb notna win then agg (dropna win) else None
  else None.
Proof.
  intros Hi. unfold rolling.
  set (F := fun i0 : nat => _).
  rewrite (nth_indep _ None (F 0)) by (now rewrite length_map, length_seq).
  rewrite (map_nth F), seq_nth by exact Hi. reflexivity.
Qed.

Lemma nth_rolling_early (w : nat) (agg : list Qc -> cell)
  (l : list (option Qc)) (i : nat) :
  S i < w -> @nth (option Qc) i (rolling w agg l) None = None.
Proof.
  intros Hw. destruct (Nat.lt_ge_cases i (length l)) as [Hi|Hi].
  - rewrite nth_rolling by exact Hi.
    destruct (w <=? S i) eqn:E; [apply Nat.leb_le in E; lia|reflexivity].
  - apply nth_overflow. unfold rolling. now rewrite length_map, length_seq.
Qed.

Lemma beyond_band_no_variance (x base : cell) :
  AlphaFactors.beyond_band x base None = false.
Proof. now destruct x, base. Qed.

(** X4.  On identically labelled panels [volatility_breakout] returns a
    panel over the labels of the closing prices whose every entry is -1,
    0 or 1, never missing; on the first [w - 1] dates, where no window of
    [w] closing prices is complete, the entry is 0. *)
Theorem volatility_breakout_is_a_sign
  (high low close : DataFrame Qc) (w : nat) :
  same_labels high close = true ->
  same_labels low close = true ->
  exists alpha,
    AlphaFactors.volatility_breakout high low close w = inr alpha /\
    index alpha = index close /\
    columns alpha = columns close /\
    forall d c, In d (index close) -> In c (columns close) ->
      (exists v, lookup alpha d c = Some v /\
                 (v = (- (1))%Qc \/ v = 0%Qc \/ v = 1%Qc)) /\
      (S (position d (index close)) < w -> lookup alpha d c = Some 0%Qc).
Proof.
  intros Hh Hl. unfold AlphaFactors.volatility_breakout. cbv zeta.
  rewrite Hh, Hl. cbn [negb].
  unfold same_labels in Hh, Hl.
  apply andb_prop in Hh as [Hhi Hhc]. apply andb_prop in Hl as [Hli Hlc].
  apply labels_eqb_eq in Hhi, Hhc, Hli, Hlc.
  eexists. split; [reflexivity|].
  cbn [align2 index columns]. rewrite Hhi, Hhc, Hli, Hlc.
  rewrite !union_labels_same.
  split; [reflexivity|]. split; [reflexivity|].
  intros d c Hd Hc.
  assert (Hmd : mem d (index close) = true) by now apply mem_In.
  assert (Hmc : mem c (columns close) = true) by now apply mem_In.
  set (previous := map_columns (shift 1) close).
  set (variance := map_columns (rolling w var_list) close).
  set (up := mkDataFrame (index close) (columns close) _).
  set (down := mkDataFrame (index close) (columns close) _).
  assert (Hup : lookup up d c =
                Some (if AlphaFactors.beyond_band (lookup high d c)
                           (lookup previous d c) (lookup variance d c)
                      then 1%Qc else 0%Qc)).
  { unfold lookup at 1. cbn [up index columns cells]. now rewrite Hmd, Hmc. }
  assert (Hdown : lookup down d c =
                  Some (if AlphaFactors.beyond_band (lookup previous d c)
                             (lookup low d c) (lookup variance d c)
                        then (- (1))%Qc else 0%Qc)).
  { unfold lookup at 1. cbn [down index columns cells]. now rewrite Hmd, Hmc. }
  rewrite (lookup_align2_same cell_add up down d c eq_refl eq_refl).
  cbn [up index columns].
  rewrite Hmd, Hmc, Hup, Hdown. cbn [andb cell_add lift2].
  split.
  - destruct (AlphaFactors.beyond_band (lookup high d c) _ _),
             (AlphaFactors.beyond_band _ (lookup low d c) _);
      eexists; (split; [reflexivity|]).
    + right. left. ring.
    + right. right. ring.
    + left. ring.
    + right. left. ring.
  - intros Hw.
    assert (Hvar : lookup variance d c = None).
    { unfold variance. rewrite lookup_map_columns, Hmd, Hmc. cbn [andb].
      now apply nth_rolling_early. }
    rewrite Hvar, !beyond_band_no_variance. f_equal; ring.
Qed.

Lemma price_reversal_is_minus_the_change_over_the_window_witness :
  let alpha := AlphaFactors.price_reversal sample_prices (Z.of_nat 5) in
  let d := nth 5 (index sample_prices) 0 in
  index alpha = index sample_prices /\
  columns alpha = columns sample_prices /\
  (5 < 5 -> lookup alpha d "A" = None) /\
  (forall a b : Qc,
     5 <= 5 ->
     lookup sample_prices d "A" = Some a ->
     lookup sample_prices (nth (5 - 5) (index sample_prices) 0) "A"
     = Some b ->
     b <> 0%Qc ->
     lookup alpha d "A" = Some (- (a / b - 1))%Qc /\
     ((0 < b)%Qc -> (b < a)%Qc -> (- (a / b - 1) < 0)%Qc) /\
     ((0 < b)%Qc -> (a < b)%Qc -> (0 < - (a / b - 1))%Qc)).
Proof.
  apply (price_reversal_is_minus_the_change_over_the_window
           sample_prices 5 5 "A").
  - repeat constructor; simpl; lia.
  - simpl. lia.
Defined.

Lemma volatility_breakout_is_a_sign_witness :
  exists alpha,
    AlphaFactors.volatility_breakout sample_prices sample_prices
      sample_prices 20 = inr alpha /\
    index alpha = index sample_prices /\
    columns alpha = columns sample_prices /\
    forall d c, In d (index sample_prices) -> In c (columns sample_prices) ->
      (exists v, lookup alpha d c = Some v /\
                 (v = (- (1))%Qc \/ v = 0%Qc \/ v = 1%Qc)) /\
      (S (position d (index sample_prices)) < 20 ->
       lookup alpha d c = Some 0%Qc).
Proof.
  apply (volatility_breakout_is_a_sign
           sample_prices sample_prices sample_prices 20);
    reflexivity.
Defined.

(** ** The ratio of volume change to price change *)

Lemma Qc_abs_nonneg (x : Qc) : (0 <= Qc_abs x)%Qc.
Proof.
  unfold Qc_abs. destruct (Qc_ltb x 0) eqn:E.
  - apply Qc_ltb_lt, Qclt_le_weak, Qcopp_le_compat in E.
    replace (- 0)%Qc with 0%Qc in E by ring. exact E.
  - now apply Qc_ltb_ge in E.
Qed.

Lemma epsilon_pos : (0 < AlphaFactors.epsilon)%Qc.
Proof. apply Qc_ltb_lt. vm_compute. reflexivity. Qed.

Lemma Qc_div_nonneg (x y : Qc) : (0 <= x)%Qc -> (0 < y)%Qc -> (0 <= x / y)%Qc.
Proof.
  intros Hx Hy. apply (Qcmult_lt_0_le_reg_r _ _ y Hy).
  rewrite Qcmult_0_l.
  replace (x / y * y)%Qc with x; [exact Hx|].
  field. apply not_eq_sym, Qclt_not_eq. exact Hy.
Qed.

Lemma Qc_sum_nonneg (l : list Qc) :
  Forall (fun y => (0 <= y)%Qc) l -> (0 <= Qc_sum l)%Qc.
Proof.
  induction 1 as [|y l Hy _ IH]; simpl.
  - apply Qcle_refl.
  - replace 0%Qc with (0 + 0)%Qc by ring. now apply Qcplus_le_compat.
Qed.

Lemma mean_list_nonneg (l : list Qc) (x : Qc) :
  Forall (fun y => (0 <= y)%Qc) l -> mean_list l = Some x -> (0 <= x)%Qc.
Proof.
  intros Hl. destruct l as [|y l]; [discriminate|].
  unfold mean_list. intros [= <-].
  apply Qc_div_nonneg; [exact (Qc_sum_nonneg (y :: l) Hl)|].
  apply Qc_of_nat_pos. simpl. lia.
Qed.

Lemma In_dropna_some {A} (l : list (option A)) (y : A) :
  In y (dropna l) <-> In (Some y) l.
Proof.
  induction l as [|[z|] l IH]; simpl.
  - tauto.
  - rewrite IH. split; intros [E|E]; auto; left; congruence.
  - rewrite IH. split; [auto|]. intros [E|E]; [discriminate|exact E].
Qed.

Lemma In_skipn_In {A} (n : nat) (l : list A) (x : A) :
  In x (skipn n l) -> In x l.
Proof.
  intros Hx. rewrite <- (firstn_skipn n l). apply in_or_app. now right.
Qed.

Lemma In_firstn_In {A} (n : nat) (l : list A) (x : A) :
  In x (firstn n l) -> In x l.
Proof.
  intros Hx. rewrite <- (firstn_skipn n l). apply in_or_app. now left.
Qed.

(** A rolling mean of cells that are never negative is never negative. *)
Lemma rolling_mean_nonneg (w : nat) (l : list (option Qc)) (i : nat) (x : Qc) :
  (forall y, In (Some y) l -> (0 <= y)%Qc) ->
  @nth (option Qc) i (rolling w mean_list l) None = Some x -> (0 <= x)%Qc.
Proof.
  intros Hl Hx. destruct (Nat.lt_ge_cases i (length l)) as [Hi|Hi].
  - rewrite nth_rolling in Hx by exact Hi. cbv zeta in Hx.
    destruct (w <=? S i); [|discriminate].
    destruct (forallb notna _); [|discriminate].
    apply (mean_list_nonneg _ x) in Hx; [exact Hx|].
    apply Forall_forall. intros y Hy. apply Hl.
    apply In_dropna_some in Hy.
    apply In_skipn_In, In_firstn_In in Hy. exact Hy.
  - rewrite nth_overflow in Hx; [discriminate|].
    unfold rolling. now rewrite length_map, length_seq.
Qed.

Lemma abs_change_nonneg (x : DataFrame Qc) (d : date) (c : string) (v : Qc) :
  lookup (map_cells (option_map Qc_abs) (map_columns (pct_change 1) x)) d c
  = Some v -> (0 <= v)%Qc.
Proof.
  rewrite lookup_map_cells by reflexivity.
  destruct (lookup _ d c); [|discriminate].
  intros [= <-]. apply Qc_abs_nonneg.
Qed.

(** X5.  An entry of [volume_price_ratio] is never negative: it is the
    rolling mean of the absolute change of the volume over the absolute
    change of the price plus [1e-8]. *)
Theorem volume_price_ratio_is_never_negative
  (prices volumes : DataFrame Qc) (w : nat) (d : date) (c : string) (x : Qc) :
  lookup (AlphaFactors.volume_price_ratio prices volumes w) d c = Some x ->
  (0 <= x)%Qc.
Proof.
  unfold AlphaFactors.volume_price_ratio. cbv zeta.
  rewrite lookup_map_columns.
  destruct (mem d _ && mem c _); [|discriminate].
  apply rolling_mean_nonneg. intros y Hy.
  unfold column in Hy. apply in_map_iff in Hy as (d' & Hy & _).
  unfold lookup at 1 in Hy. cbn [align2 index columns cells] in Hy.
  destruct (mem d' _ && mem c _); [|discriminate].
  set (vc := lookup (map_cells (option_map Qc_abs) (map_columns _ volumes))
                    d' c) in Hy.
  assert (Hvc : forall v, vc = Some v -> (0 <= v)%Qc)
    by (intros v; apply abs_change_nonneg).
  rewrite lookup_map_cells in Hy by reflexivity.
  set (pc := lookup (map_cells (option_map Qc_abs) (map_columns _ prices))
                    d' c) in Hy.
  assert (Hpc : forall v, pc = Some v -> (0 <= v)%Qc)
    by (intros v; apply abs_change_nonneg).
  destruct vc as [v|]; [|discriminate].
  destruct pc as [p|]; [|discriminate].
  cbn [cell_add lift2 cell_div] in Hy.
  destruct (Qc_eq_bool _ _); [discriminate|].
  injection Hy as <-. apply Qc_div_nonneg; [now apply Hvc|].
  apply Qclt_le_trans with (0 + AlphaFactors.epsilon)%Qc.
  - rewrite Qcplus_0_l. apply epsilon_pos.
  - apply Qcplus_le_compat; [now apply Hpc | apply Qcle_refl].
Qed.

Lemma volume_price_ratio_is_never_negative_witness :
  lookup (AlphaFactors.volume_price_ratio sample_prices sample_prices 2)
         3 "A" = Some 0%Qc /\
  (0 <= 0)%Qc.
Proof.
  assert (H : lookup (AlphaFactors.volume_price_ratio
                        sample_prices sample_prices 2) 3 "A" = Some 0%Qc)
    by (apply cell_eqb_eq; vm_compute; reflexivity).
  split; [exact H|].
  exact (volume_price_ratio_is_never_negative
           sample_prices sample_prices 2 3 "A" 0%Qc H).
Defined.

Lemma nth_pct_change_first (l : list (option Qc)) :
  @nth (option Qc) 0 (pct_change 1 l) None = None.
Proof.
  destruct l as [|x l]; [reflexivity|].
  destruct (nth_pct_change 1 0 (x :: l)) as [Hearly _]; [simpl; lia|].
  apply Hearly. lia.
Qed.

Lemma abs_change_first (x : DataFrame Qc) (d : date) (idx : list date)
  (c : string) :
  index x = d :: idx ->
  lookup (map_cells (option_map Qc_abs) (map_columns (pct_change 1) x)) d c
  = None.
Proof.
  intros Hidx. rewrite lookup_map_cells by reflexivity.
  rewrite lookup_map_columns, Hidx.
  destruct (mem d (d :: idx) && mem c (columns x)); [|reflexivity].
  cbn [position]. rewrite label_eqb_refl.
  now rewrite nth_pct_change_first.
Qed.

(** X19.  On panels with the same dates, [volume_price_ratio] is missing
    on the first [w] dates: the first change is missing, and no window of
    [w] ratios is complete before date [w + 1]. *)
Theorem volume_price_ratio_is_missing_on_the_first_dates
  (prices volumes : DataFrame Qc) (w : nat) (d : date) (c : string) :
  1 <= w ->
  index volumes = index prices ->
  position d (index prices) < w ->
  lookup (AlphaFactors.volume_price_ratio prices volumes w) d c = None.
Proof.
  intros Hw Hidx Hpos. unfold AlphaFactors.volume_price_ratio. cbv zeta.
  set (vc := map_cells (option_map Qc_abs)
                       (map_columns (pct_change 1) volumes)).
  set (pc := map_cells (fun x => cell_add x (Some AlphaFactors.epsilon))
               (map_cells (option_map Qc_abs)
                          (map_columns (pct_change 1) prices))).
  set (ratio := align2 cell_div vc pc).
  assert (Hri : index ratio = index prices).
  { cbn [ratio align2 index vc pc map_cells map_columns].
    rewrite Hidx. apply union_labels_same. }
  rewrite lookup_map_columns, Hri.
  destruct (mem d (index prices) && mem c (columns ratio)); [|reflexivity].
  set (i := position d (index prices)) in *.
  destruct (Nat.lt_ge_cases i (length (column ratio c))) as [Hi|Hi].
  2: { apply nth_overflow. unfold rolling.
       now rewrite length_map, length_seq. }
  rewrite nth_rolling by exact Hi. cbv zeta.
  destruct (w <=? S i) eqn:E; [|reflexivity].
  apply Nat.leb_le in E. replace (S i - w) with 0 by lia. cbn [skipn].
  assert (Hhead : exists l, column ratio c = None :: l).
  { unfold column in *. rewrite Hri in *.
    destruct (index prices) as [|d0 idx] eqn:Ei;
      [simpl in Hi; lia|].
    eexists. cbn [map]. f_equal.
    unfold lookup at 1. cbn [ratio align2 cells].
    destruct (mem d0 _ && mem c _); [|reflexivity].
    unfold vc. rewrite (abs_change_first volumes d0 idx c); [reflexivity|].
    now rewrite Hidx. }
  destruct Hhead as [l ->]. reflexivity.
Qed.

Lemma volume_price_ratio_is_missing_on_the_first_dates_witness :
  lookup (AlphaFactors.volume_price_ratio sample_prices sample_prices 10)
         6 "A" = None.
Proof.
  apply (volume_price_ratio_is_missing_on_the_first_dates
           sample_prices sample_prices 10 6 "A").
  - lia.
  - reflexivity.
  - vm_compute. lia.
Defined.

(** ** The market prefix of a ticker *)

Lemma startswith_sh (t : string) : startswith ("sh" ++ t)%string "sh" = true.
Proof. unfold startswith. simpl. now destruct t. Qed.

Lemma startswith_sz (t : string) : startswith ("sz" ++ t)%string "sz" = true.
Proof. unfold startswith. simpl. now destruct t. Qed.

(** X1.  The symbol [download_stock_data] requests always starts with
    [sh] or [sz]; it is the given code, with at most one of the two
    prefixes put before it; and prefixing twice changes nothing more. *)
Theorem prefixed_ticker_has_one_market_prefix (ticker : string) :
  startswith (prefixed_ticker ticker) "sh"
  || startswith (prefixed_ticker ticker) "sz" = true /\
  (prefixed_ticker ticker = ticker \/
   prefixed_ticker ticker = ("sh" ++ ticker)%string \/
   prefixed_ticker ticker = ("sz" ++ ticker)%string) /\
  prefixed_ticker (prefixed_ticker ticker) = prefixed_ticker ticker.
Proof.
  assert (Hfix : forall t, startswith t "sh" || startswith t "sz" = true ->
                           prefixed_ticker t = t).
  { intros t Ht. unfold prefixed_ticker. now rewrite Ht. }
  assert (Hpre : startswith (prefixed_ticker ticker) "sh"
                 || startswith (prefixed_ticker ticker) "sz" = true).
  { unfold prefixed_ticker.
    destruct (startswith ticker "sh" || startswith ticker "sz") eqn:E;
      cbn [negb]; [exact E|].
    destruct (startswith ticker "6");
      [now rewrite startswith_sh|].
    destruct (startswith ticker "0" || startswith ticker "3").
    - rewrite startswith_sz. apply orb_true_r.
    - now rewrite startswith_sh. }
  split; [exact Hpre|]. split; [|now apply Hfix].
  unfold prefixed_ticker.
  destruct (startswith ticker "sh" || startswith ticker "sz");
    cbn [negb]; [now left|].
  destruct (startswith ticker "6"); [now right; left|].
  destruct (startswith ticker "0" || startswith ticker "3");
    [now right; right | now right; left].
Qed.

(** ** The three factors *)

Lemma calculate_all_factors_keys (data fs : dict (DataFrame Qc)) :
  AlphaFactors.calculate_all_factors data = inr fs ->
  dict_keys fs
  = ["price_reversal"; "volume_price_ratio"; "volatility_breakout"].
Proof.
  unfold AlphaFactors.calculate_all_factors, dict_item, bind_exn.
  destruct (dict_get "close" data); [|discriminate].
  destruct (dict_get "volume" data); [|discriminate].
  destruct (dict_get "high" data); [|discriminate].
  destruct (dict_get "low" data); [|discriminate].
  destruct (AlphaFactors.volatility_breakout _ _ _ _); [discriminate|].
  intros [= <-]. reflexivity.
Qed.

Lemma volatility_breakout_labels (high low close : DataFrame Qc) (w : nat) :
  AlphaFactors.volatility_breakout high low close w =
  if same_labels high close && same_labels low close
  then AlphaFactors.volatility_breakout high low close w
  else inl AlphaFactors.not_identically_labeled.
Proof.
  unfold AlphaFactors.volatility_breakout.
  destruct (same_labels high close), (same_labels low close); reflexivity.
Qed.

Lemma volatility_breakout_returns (high low close : DataFrame Qc) (w : nat) :
  same_labels high close = true -> same_labels low close = true ->
  exists alpha, AlphaFactors.volatility_breakout high low close w = inr alpha.
Proof.
  intros Hh Hl. unfold AlphaFactors.volatility_breakout.
  rewrite Hh, Hl. cbn [negb]. eexists. reflexivity.
Qed.

(** X6.  With the four panels it reads, [calculate_all_factors] returns
    exactly when the panels of the highs and of the lows carry the labels
    of the closing prices, and then with the three factors in the order
    price_reversal, volume_price_ratio, volatility_breakout; otherwise it
    raises the [ValueError] of the comparison.  The panel of the volumes
    may be labelled differently. *)
Theorem calculate_all_factors_needs_identical_labels
  (data : dict (DataFrame Qc)) (close volume high low : DataFrame Qc) :
  dict_get "close" data = Some close ->
  dict_get "volume" data = Some volume ->
  dict_get "high" data = Some high ->
  dict_get "low" data = Some low ->
  if same_labels high close && same_labels low close
  then exists fs breakout,
         AlphaFactors.calculate_all_factors data = inr fs /\
         dict_keys fs = ["price_reversal"; "volume_price_ratio";
                         "volatility_breakout"] /\
         dict_get "price_reversal" fs
         = Some (AlphaFactors.price_reversal close 5) /\
         dict_get "volume_price_ratio" fs
         = Some (AlphaFactors.volume_price_ratio close volume 10) /\
         AlphaFactors.volatility_breakout high low close 20 = inr breakout /\
         dict_get "volatility_breakout" fs = Some breakout
  else exists msg,
         AlphaFactors.calculate_all_factors data = inl (ValueError msg).
Proof.
  intros Hc Hv Hh Hl.
  unfold AlphaFactors.calculate_all_factors, dict_item, bind_exn.
  rewrite Hc, Hv, Hh, Hl.
  destruct (same_labels high close && same_labels low close) eqn:E.
  - apply andb_prop in E as [E1 E2].
    destruct (volatility_breakout_returns high low close 20 E1 E2)
      as (alpha & ->).
    exists [("price_reversal", AlphaFactors.price_reversal close 5);
            ("volume_price_ratio",
             AlphaFactors.volume_price_ratio close volume 10);
            ("volatility_breakout", alpha)], alpha.
    repeat split; reflexivity.
  - rewrite volatility_breakout_labels, E. eexists. reflexivity.
Qed.

Lemma calculate_all_factors_needs_identical_labels_witness :
  exists fs breakout,
    AlphaFactors.calculate_all_factors sample_data = inr fs /\
    dict_keys fs = ["price_reversal"; "volume_price_ratio";
                    "volatility_breakout"] /\
    dict_get "price_reversal" fs
    = Some (AlphaFactors.price_reversal sample_prices 5) /\
    dict_get "volume_price_ratio" fs
    = Some (AlphaFactors.volume_price_ratio sample_prices sample_prices 10)
    /\
    AlphaFactors.volatility_breakout sample_prices sample_prices
      sample_prices 20 = inr breakout /\
    dict_get "volatility_breakout" fs = Some breakout.
Proof.
  exact (calculate_all_factors_needs_identical_labels
           sample_data sample_prices sample_prices sample_prices
           sample_prices eq_refl eq_refl eq_refl eq_refl).
Defined.

(** ** Names that are not factors *)

Lemma calculate_factors_keys (st : AlphaBacktest) (out : list Diagnostic)
  (s1 : AlphaBacktest * list Diagnostic) :
  calculate_factors (st, out) = inr (tt, s1) ->
  dict_keys (factors (fst s1))
  = ["price_reversal"; "volume_price_ratio"; "volatility_breakout"].
Proof.
  unfold calculate_factors, bind, get_self, lift_exn, dict_item, set_factors.
  simpl.
  destruct (dict_get "close" (ohlcv_data st)) as [close|]; [|discriminate].
  destruct (filter_items _ (ohlcv_data st) []) as [e|fd]; [discriminate|].
  destruct (AlphaFactors.calculate_all_factors fd) as [e|fs] eqn:Ea;
    [discriminate|].
  intros [= <-]. simpl. now apply calculate_all_factors_keys in Ea.
Qed.

Lemma calculate_factor_returns_unknown
  (s s1 : AlphaBacktest * list Diagnostic) (name : string) (k : nat) :
  ensure_factors s = inr (tt, s1) ->
  dict_get name (factors (fst s1)) = None ->
  calculate_factor_returns name k s = inl (KeyError name).
Proof.
  intros He Hn. unfold calculate_factor_returns, bind.
  rewrite He. unfold get_self, lift_exn, dict_item. now rewrite Hn.
Qed.

(** X7.  After the factors are computed, a name that is not a key of the
    factor dictionary makes [calculate_factor_returns],
    [calculate_long_short_returns] and [calculate_factor_ic] raise the
    [KeyError] of that name; on a fresh object every name but
    price_reversal, volume_price_ratio and volatility_breakout does. *)
Theorem unknown_factor_name_raises_key_error
  (st : AlphaBacktest) (out : list Diagnostic)
  (s1 : AlphaBacktest * list Diagnostic) (name : string) (k : nat) :
  factors st = [] ->
  calculate_factors (st, out) = inr (tt, s1) ->
  ~ In name ["price_reversal"; "volume_price_ratio"; "volatility_breakout"] ->
  calculate_factor_returns name k (st, out) = inl (KeyError name) /\
  calculate_long_short_returns name k (st, out) = inl (KeyError name) /\
  calculate_factor_ic name (st, out) = inl (KeyError name).
Proof.
  intros Hfresh Hcalc Hname.
  assert (He : ensure_factors (st, out) = inr (tt, s1)).
  { unfold ensure_factors, bind, get_self. cbn [fst]. now rewrite Hfresh. }
  assert (Hn : dict_get name (factors (fst s1)) = None).
  { destruct (dict_get name (factors (fst s1))) eqn:E; [|reflexivity].
    exfalso. apply Hname. rewrite <- (calculate_factors_keys st out s1 Hcalc).
    apply dict_get_In_keys. congruence. }
  pose proof (calculate_factor_returns_unknown _ _ name k He Hn) as Hr.
  split; [exact Hr|]. split.
  - unfold calculate_long_short_returns, bind. now rewrite Hr.
  - unfold calculate_factor_ic, bind. rewrite He.
    unfold get_self, lift_exn, dict_item. now rewrite Hn.
Qed.

Lemma unknown_factor_name_raises_key_error_witness :
  calculate_factor_returns "momentum" 3 (sample_backtest, [])
  = inl (KeyError "momentum") /\
  calculate_long_short_returns "momentum" 3 (sample_backtest, [])
  = inl (KeyError "momentum") /\
  calculate_factor_ic "momentum" (sample_backtest, [])
  = inl (KeyError "momentum").
Proof.
  apply (unknown_factor_name_raises_key_error
           sample_backtest [] sample_ready "momentum" 3).
  - reflexivity.
  - apply sample_calculate_factors.
  - simpl. intros [H|[H|[H|[]]]]; discriminate.
Defined.

(** ** Panels that lack a date *)

Lemma filter_items_raises (dates : list date)
  (items acc : dict (DataFrame Qc)) (e : Exn) :
  filter_items dates items acc = inl e ->
  exists d key df,
    e = KeyErrorDate d /\ In d dates /\ In (key, df) items /\
    ~ In d (index df).
Proof.
  revert acc. induction items as [|[key df] items IH]; intros acc; simpl;
    [discriminate|].
  unfold bind_exn, loc_rows.
  destruct (find _ dates) as [d|] eqn:Ef.
  - intros [= <-]. apply find_some in Ef as [Hd Hout].
    exists d, key, df. repeat split; auto.
    intros Hin. apply mem_In in Hin. rewrite Hin in Hout. discriminate.
  - intros Hr. destruct (IH _ Hr) as (d & key' & df' & He & Hd & Hin & Hout).
    exists d, key', df'. auto.
Qed.

Lemma filter_items_returns (dates : list date)
  (items acc filtered : dict (DataFrame Qc)) :
  filter_items dates items acc = inr filtered ->
  forall key df d, In (key, df) items -> In d dates -> In d (index df).
Proof.
  revert acc. induction items as [|[key df] items IH]; intros acc; simpl;
    [easy|].
  unfold bind_exn, loc_rows.
  destruct (find _ dates) as [d|] eqn:Ef; [discriminate|].
  intros Hr key' df' d' [Heq|Hin] Hd'.
  - injection Heq as <- <-.
    pose proof (find_none _ _ Ef d' Hd') as Hm.
    apply negb_false_iff in Hm. now apply mem_In.
  - exact (IH _ Hr key' df' d' Hin Hd').
Qed.

(** X9.  [calculate_factors] takes the kept dates out of every panel of
    the dictionary, read or not: when a panel lacks a date on which at
    least 80% of the closing prices are present, it raises the [KeyError]
    of such a date, missing from some panel, and no factor is computed. *)
Theorem a_panel_without_a_kept_date_raises_key_error
  (st : AlphaBacktest) (out : list Diagnostic) (close df : DataFrame Qc)
  (key : string) (d : date) :
  dict_get "close" (ohlcv_data st) = Some close ->
  In (key, df) (ohlcv_data st) ->
  In d (index close) -> enough_data close d = true ->
  ~ In d (index df) ->
  exists d' key' df',
    calculate_factors (st, out) = inl (KeyErrorDate d') /\
    In d' (index close) /\ enough_data close d' = true /\
    In (key', df') (ohlcv_data st) /\ ~ In d' (index df').
Proof.
  intros Hclose Hin Hd Henough Hout.
  unfold calculate_factors, bind, get_self, lift_exn, dict_item.
  cbn [fst]. rewrite Hclose.
  destruct (filter_items (filter (enough_data close) (index close))
              (ohlcv_data st) []) as [e|fd] eqn:Ef.
  - destruct (filter_items_raises _ _ _ _ Ef)
      as (d' & key' & df' & -> & Hd' & Hin' & Hout').
    apply filter_In in Hd' as [Hd' He'].
    exists d', key', df'. auto.
  - exfalso. apply Hout.
    apply (filter_items_returns _ _ _ _ Ef key df d Hin).
    apply filter_In. auto.
Qed.

Lemma a_panel_without_a_kept_date_raises_key_error_witness :
  let short := table [0; 1; 2] ["A"; "B"; "C"]
                     [[10; 10; 10]; [10; 10; 10]; [10; 10; 10]]%Z in
  let data := [("open", short); ("high", sample_prices);
               ("low", sample_prices); ("close", sample_prices);
               ("volume", sample_prices)] in
  exists d' key' df',
    calculate_factors (mkAlphaBacktest data [] sample_prices, [])
    = inl (KeyErrorDate d') /\
    In d' (index sample_prices) /\ enough_data sample_prices d' = true /\
    In (key', df') data /\ ~ In d' (index df').
Proof.
  intros short data.
  apply (a_panel_without_a_kept_date_raises_key_error
           (mkAlphaBacktest data [] sample_prices) [] sample_prices short
           "open" 3).
  - reflexivity.
  - left. reflexivity.
  - simpl. tauto.
  - vm_compute. reflexivity.
  - simpl. intros [H|[H|[H|[]]]]; discriminate.
Defined.

(** ** The evaluation in pure form *)

Lemma calculate_long_short_returns_pure
  (s s1 : AlphaBacktest * list Diagnostic) (name : string) (k : nat)
  (factor : DataFrame Qc) :
  ensure_factors s = inr (tt, s1) ->
  dict_get name (factors (fst s1)) = Some factor ->
  exists out,
    calculate_long_short_returns name k s
    = inr (long_short_of (returns (fst s1)) factor k, (fst s1, out)).
Proof.
  intros He Hf.
  rewrite (calculate_long_short_returns_run s s1 name k factor He Hf).
  cbv zeta. unfold long_short_of. cbv zeta.
  destruct (mem (quantile_label k) _ && mem "Q1" _);
    eexists; reflexivity.
Qed.

Lemma calculate_factor_correlation_run
  (s s1 : AlphaBacktest * list Diagnostic) :
  ensure_factors s = inr (tt, s1) ->
  calculate_factor_correlation s
  = inr (correlation_of (factors (fst s1)), s1).
Proof.
  intros He. unfold calculate_factor_correlation, bind. rewrite He.
  unfold get_self, ret. reflexivity.
Qed.

Lemma evaluate_factor_step (self : AlphaBacktest) (out : list Diagnostic)
  (k : nat) (results : dict ResultValue) (name : string) :
  factors self <> [] -> In name (dict_keys (factors self)) ->
  exists out',
    evaluate_factor k results name (self, out)
    = inr (evaluate_step (returns self) (factors self) k results name,
           (self, out')).
Proof.
  intros Hne Hin. apply dict_get_In_keys in Hin.
  destruct (dict_get name (factors self)) as [factor|] eqn:Hf;
    [clear Hin | contradiction].
  unfold evaluate_factor, evaluate_step, bind. rewrite Hf. cbv zeta.
  destruct (calculate_long_short_returns_pure (self, out) (self, out)
              name k factor (ensure_factors_ready self out Hne) Hf)
    as [out1 ->].
  cbn [fst].
  destruct (series_empty _ || isna_all _).
  - eexists. reflexivity.
  - rewrite (calculate_factor_ic_run (self, out1) (self, out1) name factor
               (ensure_factors_ready self out1 Hne) Hf).
    eexists. reflexivity.
Qed.

Lemma evaluate_loop_fold (self : AlphaBacktest) (k : nat)
  (names : list string) :
  factors self <> [] ->
  (forall n, In n names -> In n (dict_keys (factors self))) ->
  forall results out, exists out',
    evaluate_loop k names results (self, out)
    = inr (fold_left (evaluate_step (returns self) (factors self) k)
                     names results,
           (self, out')).
Proof.
  intros Hne. induction names as [|name names IH]; intros Hin results out.
  - eexists. reflexivity.
  - simpl. unfold bind.
    destruct (evaluate_factor_step self out k results name Hne)
      as [out1 ->]; [apply Hin; now left|].
    apply IH. intros n Hn. apply Hin. now right.
Qed.

Lemma evaluate_all_factors_run (k : nat)
  (s s1 : AlphaBacktest * list Diagnostic) :
  ensure_factors s = inr (tt, s1) ->
  exists out,
    evaluate_all_factors k s
    = inr (with_totals
             (fold_left
                (evaluate_step (returns (fst s1)) (factors (fst s1)) k)
                (dict_keys (factors (fst s1))) [])
             (correlation_of (factors (fst s1))),
           (fst s1, out)).
Proof.
  intros He. pose proof (ensure_factors_nonempty s s1 He) as Hne.
  destruct s1 as [self out]. cbn [fst] in *.
  unfold evaluate_all_factors, bind. rewrite He. unfold get_self. cbn [fst].
  destruct (evaluate_loop_fold self k (dict_keys (factors self)) Hne
              (fun n H => H) [] out) as [out' ->].
  rewrite (calculate_factor_correlation_run (self, out') (self, out')
             (ensure_factors_ready self out' Hne)).
  exists out'. reflexivity.
Qed.

(** ** The entries of the results *)

Lemma dict_get_app {V} (k : string) (a b : dict V) :
  dict_get k (a ++ b) =
  match dict_get k a with Some v => Some v | None => dict_get k b end.
Proof.
  induction a as [|[k' v] a IH]; simpl; [reflexivity|].
  now destruct (String.eqb k k').
Qed.

Lemma dict_set_fresh {V} (k : string) (v : V) (d : dict V) :
  ~ In k (dict_keys d) -> dict_set k v d = d ++ [(k, v)].
Proof.
  induction d as [|[k' v'] d IH]; simpl; [reflexivity|].
  intros Hk. destruct (String.eqb k k') eqn:E.
  - apply String.eqb_eq in E. exfalso. apply Hk. left. now symmetry.
  - f_equal. apply IH. intros Hin. apply Hk. now right.
Qed.

Lemma dict_keys_app {V} (a b : dict V) :
  dict_keys (a ++ b) = dict_keys a ++ dict_keys b.
Proof. apply map_app. Qed.

Lemma In_keys_evaluated_entries (r : DataFrame Qc) (fs : dict (DataFrame Qc))
  (k : nat) (names : list string) (n : string) :
  In n (dict_keys (evaluated_entries r fs k names)) -> In n names.
Proof.
  induction names as [|m names IH]; simpl; [easy|].
  rewrite dict_keys_app, in_app_iff. intros [Hin|Hin]; [left|right; auto].
  destruct (dict_get m fs); [|destruct Hin]. cbv zeta in Hin.
  destruct (series_empty _ || isna_all _);
    cbn [dict_keys map fst In] in Hin; tauto.
Qed.

(** The loop builds the entries of the evaluated factors, in the order of
    the names. *)
Lemma fold_evaluate_step (r : DataFrame Qc) (fs : dict (DataFrame Qc))
  (k : nat) (names : list string) (results : dict ResultValue) :
  NoDup names ->
  (forall n, In n names -> ~ In n (dict_keys results)) ->
  fold_left (evaluate_step r fs k) names results
  = results ++ evaluated_entries r fs k names.
Proof.
  intros Hnd. revert results.
  induction Hnd as [|name names Hname Hnd IH]; intros results Hfresh.
  - simpl. now rewrite app_nil_r.
  - cbn [fold_left evaluated_entries flat_map].
    fold (evaluated_entries r fs k names).
    assert (Hstep : evaluate_step r fs k results name
                    = results ++
                      match dict_get name fs with
                      | Some factor =>
                          let ls := long_short_of r factor k in
                          if series_empty ls || isna_all ls then []
                          else [(name, factor_entry r factor ls)]
                      | None => []
                      end).
    { unfold evaluate_step. destruct (dict_get name fs) as [factor|];
        [|now rewrite app_nil_r].
      cbv zeta. destruct (series_empty _ || isna_all _);
        [now rewrite app_nil_r|].
      apply dict_set_fresh. apply Hfresh. now left. }
    rewrite IH.
    + rewrite Hstep. now rewrite <- app_assoc.
    + intros n Hn Hin. rewrite Hstep, dict_keys_app, in_app_iff in Hin.
      destruct Hin as [Hin|Hin].
      * apply (Hfresh n); [now right | exact Hin].
      * destruct (dict_get name fs); [|destruct Hin]. cbv zeta in Hin.
        destruct (series_empty _ || isna_all _);
          cbn [dict_keys map fst In] in Hin; [destruct Hin|].
        destruct Hin as [<-|[]]. contradiction.
Qed.


Lemma dict_get_In {V} (k : string) (v : V) (d : dict V) :
  dict_get k d = Some v -> In (k, v) d.
Proof.
  induction d as [|[k' v'] d IH]; simpl; [discriminate|].
  destruct (String.eqb k k') eqn:E.
  - apply String.eqb_eq in E. intros [= <-]. left. now subst.
  - intros Hd. right. now apply IH.
Qed.

(** ** What the results hold *)

Lemma Forall_dict_set_item {V} (P : string * V -> Prop) (k : string) (v : V)
  (d : dict V) :
  P (k, v) -> Forall P d -> Forall P (dict_set k v d).
Proof.
  intros Hv. induction d as [|[k' v'] d IH]; simpl; intros Hd.
  - now constructor.
  - inversion Hd; subst. destruct (String.eqb k k'); constructor; auto.
Qed.

Lemma evaluate_step_entries (r : DataFrame Qc) (fs : dict (DataFrame Qc))
  (k : nat) (names : list string) (results : dict ResultValue) :
  Forall (entry_of_a_factor r fs k) results ->
  Forall (entry_of_a_factor r fs k)
         (fold_left (evaluate_step r fs k) names results).
Proof.
  revert results. induction names as [|name names IH]; intros results Hr;
    [exact Hr|].
  simpl. apply IH. unfold evaluate_step.
  destruct (dict_get name fs) as [factor|] eqn:Hf; [|exact Hr].
  cbv zeta. destruct (series_empty _ || isna_all _) eqn:E; [exact Hr|].
  apply Forall_dict_set_item; [|exact Hr].
  apply orb_false_elim in E as [E1 E2].
  exists factor. cbn [fst]. repeat split; assumption.
Qed.

(** X10.  Once the factors can be computed, [evaluate_all_factors] returns
    for every number of buckets and leaves the object as the computation
    of the factors left it.  The results always hold the correlation
    table and the average Sharpe ratio; every other entry belongs to a
    factor of the dictionary and keeps its long-short series, which is
    neither empty nor all missing, with the Sharpe ratio of that series
    and the mean and the information ratio of the factor's IC series. *)
Theorem evaluate_all_factors_stores_no_empty_series (k : nat)
  (s s1 : AlphaBacktest * list Diagnostic) :
  ensure_factors s = inr (tt, s1) ->
  exists results out,
    evaluate_all_factors k s = inr (results, (fst s1, out)) /\
    dict_get "correlation_matrix" results
    = Some (CorrelationMatrix (correlation_of (factors (fst s1)))) /\
    (exists a, dict_get "average_sharpe" results = Some (Scalar a)) /\
    forall name sharpe mean_ic ic_ir ls,
      dict_get name results = Some (FactorResult sharpe mean_ic ic_ir ls) ->
      exists factor,
        dict_get name (factors (fst s1)) = Some factor /\
        ls = long_short_of (returns (fst s1)) factor k /\
        series_empty ls = false /\ isna_all ls = false /\
        sharpe = calculate_sharpe_ratio (series_to_R ls) 252 /\
        mean_ic = series_mean (s_list (ic_series_of (returns (fst s1))
                                                    factor)) /\
        ic_ir = information_ratio (s_list (ic_series_of (returns (fst s1))
                                                        factor)).
Proof.
  intros He. destruct (evaluate_all_factors_run k s s1 He) as [out Hrun].
  eexists. exists out. split; [exact Hrun|].
  set (r := returns (fst s1)). set (fs := factors (fst s1)).
  set (loop := fold_left (evaluate_step r fs k) (dict_keys fs) []).
  unfold with_totals. cbv zeta.
  set (r1 := dict_set "correlation_matrix" _ loop).
  split; [|split].
  - rewrite dict_get_set_other by discriminate.
    apply dict_get_set_same.
  - eexists. apply dict_get_set_same.
  - intros name sharpe mean_ic ic_ir ls Hget.
    assert (Hall : Forall (entry_of_a_factor r fs k)
                          (dict_set "average_sharpe"
                             (Scalar
                                match flat_map (fun kv => sharpe_of (snd kv))
                                               r1 with
                                | [] => Some 0%R
                                | _ :: _ =>
                                    np_mean (flat_map
                                               (fun kv => sharpe_of (snd kv))
                                               r1)
                                end) r1)).
    { apply Forall_dict_set_item; [exact I|].
      apply Forall_dict_set_item; [exact I|].
      apply evaluate_step_entries. constructor. }
    apply dict_get_In in Hget.
    rewrite Forall_forall in Hall. exact (Hall _ Hget).
Qed.

Lemma evaluate_all_factors_stores_no_empty_series_witness :
  exists results out,
    evaluate_all_factors 3 (sample_backtest, [])
    = inr (results, (fst sample_ready, out)) /\
    dict_get "correlation_matrix" results
    = Some (CorrelationMatrix (correlation_of (factors (fst sample_ready))))
    /\
    (exists a, dict_get "average_sharpe" results = Some (Scalar a)) /\
    forall name sharpe mean_ic ic_ir ls,
      dict_get name results = Some (FactorResult sharpe mean_ic ic_ir ls) ->
      exists factor,
        dict_get name (factors (fst sample_ready)) = Some factor /\
        ls = long_short_of (returns (fst sample_ready)) factor 3 /\
        series_empty ls = false /\ isna_all ls = false /\
        sharpe = calculate_sharpe_ratio (series_to_R ls) 252 /\
        mean_ic = series_mean (s_list (ic_series_of
                                         (returns (fst sample_ready))
                                         factor)) /\
        ic_ir = information_ratio (s_list (ic_series_of
                                             (returns (fst sample_ready))
                                             factor)).
Proof.
  apply (evaluate_all_factors_stores_no_empty_series
           3 (sample_backtest, []) sample_ready).
  apply sample_ensure_factors.
Defined.

(** ** From the results to the summary and to the plots *)

Lemma keys_evaluated_entries (r : DataFrame Qc) (fs : dict (DataFrame Qc))
  (k : nat) (names : list string) :
  dict_keys (evaluated_entries r fs k names)
  = filter (is_evaluated r fs k) names.
Proof.
  induction names as [|n names IH]; [reflexivity|].
  cbn [evaluated_entries flat_map filter].
  fold (evaluated_entries r fs k names).
  rewrite dict_keys_app, IH. unfold is_evaluated at 2.
  destruct (dict_get n fs); [|reflexivity]. cbv zeta.
  now destruct (series_empty _ || isna_all _).
Qed.

Lemma summary_fold (l : dict ResultValue) (acc : dict SummaryRow) :
  NoDup (dict_keys l) ->
  (forall k, In k (dict_keys l) -> ~ In k (dict_keys acc)) ->
  fold_left
    (fun summary kv =>
       match snd kv with
       | FactorResult sharpe_ratio mean_ic ic_ir _ =>
           dict_set (fst kv) (sharpe_ratio, mean_ic, ic_ir) summary
       | _ => summary
       end) l acc
  = acc ++ flat_map summary_rows l.
Proof.
  revert acc. induction l as [|[k v] l IH]; intros acc Hnd Hfresh.
  - simpl. now rewrite app_nil_r.
  - cbn [dict_keys map fst] in Hnd. inversion Hnd as [|? ? Hk Hnd']; subst.
    cbn [fold_left flat_map snd fst].
    assert (Hstep : match v with
                    | FactorResult sharpe_ratio mean_ic ic_ir _ =>
                        dict_set k (sharpe_ratio, mean_ic, ic_ir) acc
                    | _ => acc
                    end = acc ++ summary_rows (k, v)).
    { unfold summary_rows. cbn [snd fst].
      destruct v; try (now rewrite app_nil_r).
      apply dict_set_fresh. apply Hfresh. now left. }
    rewrite Hstep, IH, <- app_assoc; [reflexivity|exact Hnd'|].
    intros k' Hk' Hin. rewrite dict_keys_app, in_app_iff in Hin.
    destruct Hin as [Hin|Hin].
    + apply (Hfresh k'); [now right|exact Hin].
    + unfold summary_rows in Hin. cbn [snd fst] in Hin.
      destruct v; cbn [dict_keys map fst In] in Hin; try tauto.
      destruct Hin as [<-|[]]. contradiction.
Qed.

Lemma summary_of_rows (results : dict ResultValue) :
  NoDup (dict_keys results) ->
  summary_of results = flat_map summary_rows results.
Proof.
  intros Hnd. unfold summary_of. now rewrite summary_fold.
Qed.


Lemma summary_sharpe_rows (l : dict ResultValue) :
  summary_sharpe (flat_map summary_rows l)
  = flat_map (fun kv => sharpe_of (snd kv)) l.
Proof.
  unfold summary_sharpe. induction l as [|[k v] l IH]; [reflexivity|].
  cbn [flat_map]. rewrite map_app. f_equal; [|exact IH].
  unfold summary_rows. cbn [snd fst]. now destruct v.
Qed.

(** The results of an object whose factors are the three of
    [calculate_all_factors]: the entries of the evaluated factors, then
    the correlation table, then the average Sharpe ratio. *)
Lemma results_of_three_factors (r : DataFrame Qc) (fs : dict (DataFrame Qc))
  (k : nat) (m : Matrix) :
  dict_keys fs
  = ["price_reversal"; "volume_price_ratio"; "volatility_breakout"] ->
  let entries := evaluated_entries r fs k (dict_keys fs) in
  let sharpe_ratios := flat_map (fun kv => sharpe_of (snd kv)) entries in
  with_totals (fold_left (evaluate_step r fs k) (dict_keys fs) []) m
  = entries
    ++ [("correlation_matrix", CorrelationMatrix m);
        ("average_sharpe",
         Scalar match sharpe_ratios with
                | [] => Some 0%R
                | _ => np_mean sharpe_ratios
                end)] /\
  NoDup (dict_keys entries
         ++ ["correlation_matrix"; "average_sharpe"]).
Proof.
  intros Hkeys entries sharpe_ratios.
  assert (Hnd : NoDup (dict_keys fs)).
  { rewrite Hkeys. repeat constructor; simpl; intuition discriminate. }
  assert (Hsub : forall n, In n (dict_keys entries) -> In n (dict_keys fs))
    by apply In_keys_evaluated_entries.
  assert (Hcm : ~ In "correlation_matrix" (dict_keys entries)).
  { intros Hin. apply Hsub in Hin. rewrite Hkeys in Hin. simpl in Hin.
    intuition discriminate. }
  assert (Havg : ~ In "average_sharpe" (dict_keys entries)).
  { intros Hin. apply Hsub in Hin. rewrite Hkeys in Hin. simpl in Hin.
    intuition discriminate. }
  split.
  - rewrite fold_evaluate_step by (auto; intros n _ []).
    cbn [app]. fold entries. unfold with_totals. cbv zeta.
    rewrite (dict_set_fresh "correlation_matrix") by exact Hcm.
    rewrite dict_set_fresh.
    + rewrite flat_map_app. cbn [flat_map sharpe_of snd app].
      rewrite app_nil_r. fold sharpe_ratios. now rewrite <- app_assoc.
    + rewrite dict_keys_app, in_app_iff. cbn [dict_keys map fst In].
      intros [Hin|[Hin|[]]]; [contradiction|discriminate].
  - apply NoDup_app.
    + unfold entries. rewrite keys_evaluated_entries.
      now apply NoDup_filter.
    + repeat constructor; simpl; intuition discriminate.
    + intros n Hn [<-|[<-|[]]]; contradiction.
Qed.




Lemma np_mean_with_a_missing_value (l : list (option R)) :
  In None l -> np_mean l = None.
Proof.
  intros Hin. unfold np_mean.
  destruct (forallb notna l) eqn:E; [|reflexivity].
  rewrite forallb_forall in E. specialize (E _ Hin). discriminate.
Qed.

(** X12.  The average Sharpe ratio of the results is [np.mean] of the
    column [sharpe_ratio] of the summary, the Sharpe ratios of the
    evaluated factors: 0 when no factor was evaluated, and missing as soon
    as the Sharpe ratio of one evaluated factor is missing. *)
Theorem average_sharpe_is_the_mean_over_the_summary
  (st : AlphaBacktest) (out : list Diagnostic)
  (s1 s2 : AlphaBacktest * list Diagnostic) (k : nat)
  (results : dict ResultValue) :
  calculate_factors (st, out) = inr (tt, s1) ->
  evaluate_all_factors k s1 = inr (results, s2) ->
  let sharpe_ratios := summary_sharpe (summary_of results) in
  dict_get "average_sharpe" results
  = Some (Scalar match sharpe_ratios with
                 | [] => Some 0%R
                 | _ => np_mean sharpe_ratios
                 end) /\
  (summary_of results = [] ->
   dict_get "average_sharpe" results = Some (Scalar (Some 0%R))) /\
  (In None sharpe_ratios ->
   dict_get "average_sharpe" results = Some (Scalar None)).
Proof.
  intros Hcalc Heval sharpe_ratios.
  pose proof (calculate_factors_keys st out s1 Hcalc) as Hkeys.
  assert (Hne : factors (fst s1) <> []).
  { intros Hnil. rewrite Hnil in Hkeys. discriminate. }
  assert (He : ensure_factors s1 = inr (tt, s1)).
  { destruct s1 as [self out1]. now apply ensure_factors_ready. }
  destruct (evaluate_all_factors_run k s1 s1 He) as [out' Hrun].
  rewrite Hrun in Heval. injection Heval as <- _.
  destruct (results_of_three_factors (returns (fst s1)) (factors (fst s1)) k
              (correlation_of (factors (fst s1))) Hkeys) as [Hres Hnd].
  set (entries := evaluated_entries _ _ k _) in *.
  assert (Hsharpe : sharpe_ratios
                    = flat_map (fun kv => sharpe_of (snd kv)) entries).
  { unfold sharpe_ratios. rewrite Hres, summary_of_rows
      by (now rewrite dict_keys_app).
    rewrite flat_map_app. cbn [flat_map summary_rows snd app].
    rewrite app_nil_r. apply summary_sharpe_rows. }
  assert (Havg : dict_get "average_sharpe"
                   (with_totals
                      (fold_left
                         (evaluate_step (returns (fst s1))
                                        (factors (fst s1)) k)
                         (dict_keys (factors (fst s1))) [])
                      (correlation_of (factors (fst s1))))
                 = Some (Scalar match sharpe_ratios with
                                | [] => Some 0%R
                                | _ => np_mean sharpe_ratios
                                end)).
  { rewrite Hres, Hsharpe, dict_get_app.
    destruct (dict_get "average_sharpe" entries) eqn:Eg; [|reflexivity].
    exfalso.
    assert (Hin : In "average_sharpe" (dict_keys (factors (fst s1)))).
    { apply (In_keys_evaluated_entries (returns (fst s1))
               (factors (fst s1)) k).
      apply dict_get_In_keys. fold entries. congruence. }
    rewrite Hkeys in Hin. simpl in Hin. intuition discriminate. }
  split; [exact Havg|]. split.
  - intros Hempty. rewrite Havg. unfold sharpe_ratios. now rewrite Hempty.
  - intros Hin. rewrite Havg.
    destruct sharpe_ratios as [|x l] eqn:El; [destruct Hin|].
    now rewrite (np_mean_with_a_missing_value (x :: l) Hin).
Qed.

Lemma average_sharpe_is_the_mean_over_the_summary_witness :
  exists results s2,
    evaluate_all_factors 3 sample_ready = inr (results, s2) /\
    let sharpe_ratios := summary_sharpe (summary_of results) in
    dict_get "average_sharpe" results
    = Some (Scalar match sharpe_ratios with
                   | [] => Some 0%R
                   | _ => np_mean sharpe_ratios
                   end) /\
    (summary_of results = [] ->
     dict_get "average_sharpe" results = Some (Scalar (Some 0%R))) /\
    (In None sharpe_ratios ->
     dict_get "average_sharpe" results = Some (Scalar None)).
Proof.
  destruct (evaluate_all_factors_returns 3 sample_ready sample_ready)
    as [results [s2 Heval]].
  { pose proof (ensure_factors_nonempty _ _ sample_ensure_factors) as Hne.
    destruct sample_ready as [self out]. now apply ensure_factors_ready. }
  exists results, s2. split; [exact Heval|].
  exact (average_sharpe_is_the_mean_over_the_summary
           sample_backtest [] sample_ready s2 3 results
           sample_calculate_factors Heval).
Defined.

(** ** The object across the calls *)

Lemma ensure_factors_inv (s s1 : AlphaBacktest * list Diagnostic) :
  ensure_factors s = inr (tt, s1) ->
  ohlcv_data (fst s1) = ohlcv_data (fst s) /\
  returns (fst s1) = returns (fst s) /\
  snd s1 = snd s /\
  (factors (fst s) <> [] -> s1 = s).
Proof.
  destruct s as [st out]. unfold ensure_factors, bind, get_self. cbn [fst snd].
  destruct (factors st) as [|kv fs] eqn:Ef.
  - intros Hcalc.
    destruct (calculate_factors_inv st out s1 Hcalc)
      as (close & _ & Hr & Ho & Hout & _).
    repeat split; try assumption. intros Hne. now contradiction Hne.
  - unfold ret. intros [= <-]. repeat split; reflexivity.
Qed.

(** X8.  The factors are computed by the first method that needs them and
    kept: that method leaves the panels and the forward returns of the
    object as they were, and an object that has factors is left as it is.
    From then on no method changes the object; they only print. *)
Theorem factors_are_computed_once
  (s s1 : AlphaBacktest * list Diagnostic) (name : string) (k : nat) :
  ensure_factors s = inr (tt, s1) ->
  ohlcv_data (fst s1) = ohlcv_data (fst s) /\
  returns (fst s1) = returns (fst s) /\
  (factors (fst s) <> [] -> fst s1 = fst s) /\
  ensure_factors s1 = inr (tt, s1) /\
  (forall x s2, calculate_factor_returns name k s = inr (x, s2) ->
                fst s2 = fst s1) /\
  (forall x s2, calculate_long_short_returns name k s = inr (x, s2) ->
                fst s2 = fst s1) /\
  (forall x s2, calculate_factor_ic name s = inr (x, s2) -> s2 = s1) /\
  (forall x s2, calculate_factor_correlation s = inr (x, s2) -> s2 = s1) /\
  (forall x s2, evaluate_all_factors k s = inr (x, s2) -> fst s2 = fst s1).
Proof.
  intros He.
  destruct (ensure_factors_inv s s1 He) as (Ho & Hr & _ & Hsame).
  pose proof (ensure_factors_nonempty s s1 He) as Hne.
  split; [exact Ho|]. split; [exact Hr|].
  split; [intros H; now rewrite (Hsame H)|].
  split; [destruct s1 as [self out]; now apply ensure_factors_ready|].
  split; [|split; [|split; [|split]]].
  - intros x s2 Hrun.
    destruct (dict_get name (factors (fst s1))) as [factor|] eqn:Hf.
    + rewrite (calculate_factor_returns_run s s1 name k factor He Hf) in Hrun.
      now injection Hrun as _ <-.
    + rewrite (calculate_factor_returns_unknown s s1 name k He Hf) in Hrun.
      discriminate.
  - intros x s2 Hrun.
    destruct (dict_get name (factors (fst s1))) as [factor|] eqn:Hf.
    + destruct (calculate_long_short_returns_pure s s1 name k factor He Hf)
        as [out Hp].
      rewrite Hp in Hrun. now injection Hrun as _ <-.
    + unfold calculate_long_short_returns, bind in Hrun.
      rewrite (calculate_factor_returns_unknown s s1 name k He Hf) in Hrun.
      discriminate.
  - intros x s2 Hrun.
    destruct (dict_get name (factors (fst s1))) as [factor|] eqn:Hf.
    + rewrite (calculate_factor_ic_run s s1 name factor He Hf) in Hrun.
      now injection Hrun as _ <-.
    + unfold calculate_factor_ic, bind in Hrun. rewrite He in Hrun.
      unfold get_self, lift_exn, dict_item in Hrun. cbn [fst] in Hrun.
      rewrite Hf in Hrun. discriminate.
  - intros x s2 Hrun.
    rewrite (calculate_factor_correlation_run s s1 He) in Hrun.
    now injection Hrun as _ <-.
  - intros x s2 Hrun.
    destruct (evaluate_all_factors_run k s s1 He) as [out Hp].
    rewrite Hp in Hrun. now injection Hrun as _ <-.
Qed.

Lemma factors_are_computed_once_witness :
  ohlcv_data (fst sample_ready) = ohlcv_data sample_backtest /\
  returns (fst sample_ready) = returns sample_backtest /\
  (factors sample_backtest <> [] -> fst sample_ready = sample_backtest) /\
  ensure_factors sample_ready = inr (tt, sample_ready) /\
  (forall x s2,
      calculate_factor_returns "price_reversal" 3 (sample_backtest, [])
      = inr (x, s2) -> fst s2 = fst sample_ready) /\
  (forall x s2,
      calculate_long_short_returns "price_reversal" 3 (sample_backtest, [])
      = inr (x, s2) -> fst s2 = fst sample_ready) /\
  (forall x s2,
      calculate_factor_ic "price_reversal" (sample_backtest, [])
      = inr (x, s2) -> s2 = sample_ready) /\
  (forall x s2,
      calculate_factor_correlation (sample_backtest, []) = inr (x, s2) ->
      s2 = sample_ready) /\
  (forall x s2,
      evaluate_all_factors 3 (sample_backtest, []) = inr (x, s2) ->
      fst s2 = fst sample_ready).
Proof.
  apply (factors_are_computed_once (sample_backtest, []) sample_ready
           "price_reversal" 3).
  apply sample_ensure_factors.
Defined.

(** ** One bucket, and none *)

Lemma isna_all_missing (idx : list date) :
  isna_all (mkSeries (A := Qc) idx (fun _ => None)) = true.
Proof.
  unfold isna_all, s_list, s_at. cbn [s_index s_values].
  apply forallb_forall. intros x Hx. apply in_map_iff in Hx as (d & <- & _).
  now destruct (mem d idx).
Qed.

Lemma long_short_of_no_bucket (r f : DataFrame Qc) :
  long_short_of r f 0 = mkSeries (index r) (fun _ => None).
Proof.
  unfold long_short_of. cbv zeta. rewrite columns_grouped_returns.
  reflexivity.
Qed.

Lemma long_short_of_buckets (r f : DataFrame Qc) (k : nat) :
  1 <= k -> long_short_of r f k = spread (grouped_returns r f k) k.
Proof.
  intros Hk. unfold long_short_of. cbv zeta. rewrite columns_grouped_returns.
  assert (Hlast : mem (quantile_label k) (quantile_labels k) = true).
  { apply mem_In, In_quantile_labels. exists k. split; [lia | reflexivity]. }
  assert (Hfirst : mem "Q1" (quantile_labels k) = true).
  { apply mem_In, In_quantile_labels. exists 1. split; [lia | reflexivity]. }
  now rewrite Hlast, Hfirst.
Qed.

(** X13.  With a single bucket the top and the bottom bucket are the same
    column: the long-short series is 0 wherever that column has a value
    and missing elsewhere, whatever the factor. *)
Theorem one_bucket_gives_a_zero_long_short_series
  (s s1 : AlphaBacktest * list Diagnostic) (name : string)
  (factor : DataFrame Qc) :
  ensure_factors s = inr (tt, s1) ->
  dict_get name (factors (fst s1)) = Some factor ->
  exists ls table s2 s3,
    calculate_factor_returns name 1 s = inr (table, s2) /\
    calculate_long_short_returns name 1 s = inr (ls, s3) /\
    columns table = ["Q1"] /\
    forall t,
      s_at ls t = match lookup table t "Q1" with
                  | Some _ => Some 0%Qc
                  | None => None
                  end.
Proof.
  intros He Hf.
  destruct (calculate_long_short_returns_pure s s1 name 1 factor He Hf)
    as [out Hls].
  eexists. eexists. eexists. eexists.
  split; [apply (calculate_factor_returns_run s s1 name 1 factor He Hf)|].
  split; [exact Hls|].
  split; [apply columns_grouped_returns|].
  intros t. rewrite long_short_of_buckets by lia. rewrite s_at_spread.
  change (quantile_label 1) with "Q1".
  destruct (lookup _ t "Q1") as [x|]; [|reflexivity].
  cbn [cell_sub lift2]. f_equal. ring.
Qed.

Lemma one_bucket_gives_a_zero_long_short_series_witness :
  exists ls table s2 s3,
    calculate_factor_returns "price_reversal" 1 (sample_backtest, [])
    = inr (table, s2) /\
    calculate_long_short_returns "price_reversal" 1 (sample_backtest, [])
    = inr (ls, s3) /\
    columns table = ["Q1"] /\
    forall t,
      s_at ls t = match lookup table t "Q1" with
                  | Some _ => Some 0%Qc
                  | None => None
                  end.
Proof.
  apply (one_bucket_gives_a_zero_long_short_series
           (sample_backtest, []) sample_ready "price_reversal"
           (sample_factor "price_reversal")).
  - apply sample_ensure_factors.
  - apply sample_factor_get. vm_compute. reflexivity.
Defined.

Lemma evaluate_step_no_bucket (r : DataFrame Qc) (fs : dict (DataFrame Qc))
  (names : list string) (results : dict ResultValue) :
  fold_left (evaluate_step r fs 0) names results = results.
Proof.
  revert results. induction names as [|n names IH]; intros results;
    [reflexivity|].
  simpl. rewrite IH. unfold evaluate_step.
  destruct (dict_get n fs); [|reflexivity]. cbv zeta.
  now rewrite long_short_of_no_bucket, isna_all_missing, orb_true_r.
Qed.

(** X14.  With no bucket at all the table of grouped returns has no
    column: [calculate_long_short_returns] prints its warning and returns
    the all-missing series over the dates of the forward returns, and
    [evaluate_all_factors] evaluates no factor: the results hold the
    correlation table and an average Sharpe ratio of 0, nothing else. *)
Theorem no_bucket_evaluates_no_factor
  (s s1 : AlphaBacktest * list Diagnostic) :
  ensure_factors s = inr (tt, s1) ->
  (forall name factor,
      dict_get name (factors (fst s1)) = Some factor ->
      calculate_long_short_returns name 0 s
      = inr (mkSeries (index (returns (fst s1))) (fun _ => None),
             (fst s1,
              (snd s1 ++ snd (assign_quantiles factor 0))
              ++ [NoGrouping name]))) /\
  exists out,
    evaluate_all_factors 0 s
    = inr ([("correlation_matrix",
             CorrelationMatrix (correlation_of (factors (fst s1))));
            ("average_sharpe", Scalar (Some 0%R))],
           (fst s1, out)).
Proof.
  intros He. split.
  - intros name factor Hf.
    rewrite (calculate_long_short_returns_run s s1 name 0 factor He Hf).
    cbv zeta. now rewrite columns_grouped_returns.
  - destruct (evaluate_all_factors_run 0 s s1 He) as [out Hrun].
    exists out. rewrite Hrun, evaluate_step_no_bucket. reflexivity.
Qed.

Lemma no_bucket_evaluates_no_factor_witness :
  (forall name factor,
      dict_get name (factors (fst sample_ready)) = Some factor ->
      calculate_long_short_returns name 0 (sample_backtest, [])
      = inr (mkSeries (index (returns (fst sample_ready))) (fun _ => None),
             (fst sample_ready,
              (snd sample_ready ++ snd (assign_quantiles factor 0))
              ++ [NoGrouping name]))) /\
  exists out,
    evaluate_all_factors 0 (sample_backtest, [])
    = inr ([("correlation_matrix",
             CorrelationMatrix
               (correlation_of (factors (fst sample_ready))));
            ("average_sharpe", Scalar (Some 0%R))],
           (fst sample_ready, out)).
Proof.
  apply (no_bucket_evaluates_no_factor (sample_backtest, []) sample_ready).
  apply sample_ensure_factors.
Defined.

(** ** The scale of a return series *)





Lemma R_sum_squares_nonneg (m : R) (l : list R) :
  (0 <= R_sum (map2 (fun a b => (a - m) * (b - m)) l l))%R.
Proof.
  induction l as [|a l IH]; simpl; [lra|].
  pose proof (Rle_0_sqr (a - m)) as Hsq. unfold Rsqr in Hsq. lra.
Qed.

(** The sample variance is never negative. *)
Lemma R_cov_self_nonneg (l : list R) (v : R) :
  R_cov l l = Some v -> (0 <= v)%R.
Proof.
  unfold R_cov. destruct (R_mean l) as [m|]; [|discriminate].
  destruct (length l <=? 1) eqn:E; [discriminate|].
  apply Nat.leb_gt in E. intros [= <-].
  apply Rmult_le_pos; [apply R_sum_squares_nonneg|].
  apply Rlt_le, Rinv_0_lt_compat, lt_0_INR. lia.
Qed.






(** ** The information ratio *)

(** X16.  The information ratio of an IC series is the Sharpe formula
    without annualization, with the same guard: 0 when the deviation of
    the series is 0, mean over deviation otherwise, and missing, not 0,
    when fewer than two dates have an IC. *)
Theorem information_ratio_is_the_sharpe_ratio_of_one_period
  (ic : list (option R)) :
  information_ratio ic = calculate_sharpe_ratio ic 1 /\
  (series_std ic = Some 0%R -> information_ratio ic = Some 0%R) /\
  (forall m sd, series_mean ic = Some m -> series_std ic = Some sd ->
                sd <> 0%R -> information_ratio ic = Some (m / sd)%R) /\
  (length (dropna ic) < 2 -> information_ratio ic = None).
Proof.
  assert (Hsqrt : np_sqrt (IZR 1) = Some 1%R).
  { unfold np_sqrt. destruct (Rlt_dec (IZR 1) 0); [lra|].
    f_equal. apply sqrt_1. }
  split; [|split; [|split]].
  - unfold information_ratio, calculate_sharpe_ratio. rewrite Hsqrt.
    destruct (series_std ic) as [s|]; [|reflexivity]. cbn [lift2].
    destruct (Req_EM_T s 0) as [Hz|Hnz], (Req_EM_T (s * 1) 0) as [Hz'|Hnz'];
      try reflexivity; try (exfalso; lra).
    destruct (series_mean ic) as [m|]; [|reflexivity].
    cbn [option_map]. f_equal. field. exact Hnz.
  - intros Hsd. unfold information_ratio. rewrite Hsd.
    destruct (Req_EM_T 0 0) as [_|Hne]; [reflexivity|now contradiction Hne].
  - intros m sd Hm Hsd Hne. unfold information_ratio. rewrite Hsd, Hm.
    destruct (Req_EM_T sd 0) as [Hz|_]; [contradiction|reflexivity].
  - intros Hlen. unfold information_ratio, series_std.
    now rewrite R_std_few.
Qed.

Lemma information_ratio_is_the_sharpe_ratio_of_one_period_witness :
  information_ratio [Some 1%R] = None.
Proof.
  apply (information_ratio_is_the_sharpe_ratio_of_one_period [Some 1%R]).
  simpl. lia.
Defined.

(** ** Correlations *)

(** The sums of a covariance, over the pairs. *)
Lemma R_sum_map2_pairs (g : R -> R -> R) (l : list (R * R)) :
  R_sum (map2 g (map fst l) (map snd l))
  = R_sum (map (fun p => g (fst p) (snd p)) l).
Proof. induction l as [|p l IH]; simpl; [reflexivity | now rewrite IH]. Qed.

Lemma R_sum_permutation (a b : list R) :
  Permutation a b -> R_sum a = R_sum b.
Proof.
  induction 1 as [|x a b _ IH|x y a|a b c _ IH1 _ IH2]; simpl;
    [reflexivity | rewrite IH; reflexivity | lra | congruence].
Qed.

Lemma R_mean_permutation (a b : list R) :
  Permutation a b -> R_mean a = R_mean b.
Proof.
  intros Hp. unfold R_mean.
  rewrite (R_sum_permutation a b Hp), (Permutation_length Hp).
  destruct a, b; try reflexivity.
  - apply Permutation_nil in Hp. discriminate.
  - apply Permutation_sym, Permutation_nil in Hp. discriminate.
Qed.

Lemma R_cov_pairs_permutation (l l' : list (R * R)) :
  Permutation l l' ->
  R_cov (map fst l) (map snd l) = R_cov (map fst l') (map snd l').
Proof.
  intros Hp. unfold R_cov.
  rewrite (R_mean_permutation _ _ (Permutation_map fst Hp)).
  rewrite (R_mean_permutation _ _ (Permutation_map snd Hp)).
  rewrite !length_map, (Permutation_length Hp).
  destruct (R_mean (map fst l')) as [mx|]; [|reflexivity].
  destruct (R_mean (map snd l')) as [my|]; [|reflexivity].
  destruct (length l' <=? 1); [reflexivity|].
  rewrite !R_sum_map2_pairs.
  now rewrite (R_sum_permutation _ _ (Permutation_map _ Hp)).
Qed.

Lemma R_cov_self_pairs (l : list R) :
  R_cov l l = R_cov (map fst (map (fun a => (a, a)) l))
                    (map snd (map (fun a => (a, a)) l)).
Proof. rewrite !map_map. cbn [fst snd]. now rewrite map_id. Qed.

Lemma R_std_permutation (a b : list R) :
  Permutation a b -> R_std a = R_std b.
Proof.
  intros Hp. unfold R_std. rewrite (R_cov_self_pairs a), (R_cov_self_pairs b).
  now rewrite (R_cov_pairs_permutation _ _ (Permutation_map _ Hp)).
Qed.

(** The correlation does not depend on the order of the observations. *)
Lemma pearson_permutation (l l' : list (R * R)) :
  Permutation l l' -> pearson l = pearson l'.
Proof.
  intros Hp. unfold pearson. cbv zeta.
  rewrite (R_cov_pairs_permutation l l' Hp).
  rewrite (R_std_permutation _ _ (Permutation_map fst Hp)).
  now rewrite (R_std_permutation _ _ (Permutation_map snd Hp)).
Qed.

Lemma R_cov_swap (x y : list R) :
  length x = length y -> R_cov y x = R_cov x y.
Proof.
  intros Hlen. unfold R_cov. rewrite Hlen.
  destruct (R_mean x) as [mx|], (R_mean y) as [my|]; try reflexivity.
  destruct (length y <=? 1); [reflexivity|]. f_equal. f_equal.
  clear Hlen. revert y. induction x as [|a x IH]; intros [|b y]; simpl;
    try reflexivity.
  rewrite IH. lra.
Qed.

(** The correlation of the pairs turned round is the same. *)
Lemma pearson_swap (l : list (R * R)) :
  pearson (map (fun p => (snd p, fst p)) l) = pearson l.
Proof.
  assert (Hf : map fst (map (fun p : R * R => (snd p, fst p)) l) = map snd l)
    by (rewrite map_map; now apply map_ext).
  assert (Hs : map snd (map (fun p : R * R => (snd p, fst p)) l) = map fst l)
    by (rewrite map_map; now apply map_ext).
  unfold pearson. cbv zeta. rewrite Hf, Hs.
  rewrite (R_cov_swap (map fst l) (map snd l)) by now rewrite !length_map.
  destruct (R_cov (map fst l) (map snd l)) as [c|]; [|reflexivity].
  destruct (R_std (map snd l)) as [sy|], (R_std (map fst l)) as [sx|];
    try reflexivity.
  rewrite (Rmult_comm sy sx). reflexivity.
Qed.

(** A sample against itself: 1, or missing. *)
Lemma pearson_self (l : list (R * R)) :
  (forall p, In p l -> fst p = snd p) ->
  pearson l = None \/ pearson l = Some 1%R.
Proof.
  intros Hsame.
  assert (Heq : map snd l = map fst l).
  { apply map_ext_in. intros p Hp. symmetry. now apply Hsame. }
  unfold pearson. cbv zeta. rewrite Heq. unfold R_std.
  destruct (R_cov (map fst l) (map fst l)) as [v|] eqn:Ev; [|now left].
  cbn [option_map].
  pose proof (R_cov_self_nonneg _ _ Ev) as Hv.
  rewrite sqrt_sqrt by exact Hv.
  destruct (Req_EM_T v 0) as [Hz|Hnz]; [now left|].
  right. f_equal. now field.
Qed.

(** The inequality of Cauchy and Schwarz, over a list of pairs. *)
Lemma cauchy_schwarz (l : list (R * R)) :
  let A := R_sum (map (fun p => fst p * snd p)%R l) in
  let U := R_sum (map (fun p => fst p * fst p)%R l) in
  let V := R_sum (map (fun p => snd p * snd p)%R l) in
  (A * A <= U * V)%R /\ (0 <= U)%R /\ (0 <= V)%R.
Proof.
  induction l as [|[a b] l IH]; simpl; [lra|].
  destruct IH as (HA & HU & HV).
  set (A := R_sum (map (fun p => fst p * snd p)%R l)) in *.
  set (U := R_sum (map (fun p => fst p * fst p)%R l)) in *.
  set (V := R_sum (map (fun p => snd p * snd p)%R l)) in *.
  assert (Ha : (0 <= a * a)%R) by apply Rle_0_sqr.
  assert (Hb : (0 <= b * b)%R) by apply Rle_0_sqr.
  split; [|split; lra].
  assert (Hx : (0 <= U * (b * b) + V * (a * a))%R).
  { apply Rplus_le_le_0_compat; now apply Rmult_le_pos. }
  assert (Hcross : (2 * A * a * b <= U * (b * b) + V * (a * a))%R).
  { apply Rsqr_incr_0_var; [|exact Hx]. unfold Rsqr.
    assert (H1 : (A * A * ((a * a) * (b * b))
                  <= U * V * ((a * a) * (b * b)))%R).
    { apply Rmult_le_compat_r; [now apply Rmult_le_pos | exact HA]. }
    pose proof (Rle_0_sqr (U * (b * b) - V * (a * a))) as H2.
    unfold Rsqr in H2. lra. }
  lra.
Qed.

Lemma R_sum_map2_same (g : R -> R -> R) (f : R * R -> R) (l : list (R * R)) :
  R_sum (map2 g (map f l) (map f l))
  = R_sum (map (fun p => g (f p) (f p)) l).
Proof. induction l as [|p l IH]; simpl; [reflexivity | now rewrite IH]. Qed.

(** A correlation lies between -1 and 1. *)
Lemma pearson_bounds (l : list (R * R)) (x : R) :
  pearson l = Some x -> (-1 <= x <= 1)%R.
Proof.
  unfold pearson, R_std. cbv zeta. unfold R_cov.
  rewrite !length_map.
  destruct (R_mean (map fst l)) as [mx|]; [|discriminate].
  destruct (R_mean (map snd l)) as [my|]; [|discriminate].
  destruct (length l <=? 1) eqn:E; [discriminate|].
  apply Nat.leb_gt in E. cbn [option_map].
  rewrite R_sum_map2_pairs, !R_sum_map2_same.
  set (d := INR (length l - 1)).
  assert (Hd : (0 < d)%R) by (apply lt_0_INR; lia).
  destruct (cauchy_schwarz (map (fun p => (fst p - mx, snd p - my))%R l))
    as (HA & HU & HV).
  repeat rewrite map_map in HA. repeat rewrite map_map in HU.
  repeat rewrite map_map in HV. cbn [fst snd] in HA, HU, HV.
  set (Sxy := R_sum (map (fun p => (fst p - mx) * (snd p - my))%R l)) in *.
  set (Sxx := R_sum (map (fun p => (fst p - mx) * (fst p - mx))%R l)) in *.
  set (Syy := R_sum (map (fun p => (snd p - my) * (snd p - my))%R l)) in *.
  assert (Hid : (0 < / d)%R) by now apply Rinv_0_lt_compat.
  assert (Hvx : (0 <= Sxx / d)%R) by (apply Rmult_le_pos; lra).
  assert (Hvy : (0 <= Syy / d)%R) by (apply Rmult_le_pos; lra).
  set (p := (sqrt (Sxx / d) * sqrt (Syy / d))%R).
  destruct (Req_EM_T p 0) as [Hz|Hnz]; [discriminate|].
  intros [= <-].
  assert (Hp : (0 < p)%R).
  { assert (Hp0 : (0 <= p)%R)
      by (apply Rmult_le_pos; apply sqrt_pos).
    lra. }
  assert (Hpp : (p * p = (Sxx / d) * (Syy / d))%R).
  { unfold p.
    replace (sqrt (Sxx / d) * sqrt (Syy / d)
             * (sqrt (Sxx / d) * sqrt (Syy / d)))%R
      with ((sqrt (Sxx / d) * sqrt (Sxx / d))
            * (sqrt (Syy / d) * sqrt (Syy / d)))%R by ring.
    now rewrite !sqrt_sqrt. }
  set (c := (Sxy / d)%R).
  assert (Hcc : (c * c <= p * p)%R).
  { rewrite Hpp. unfold c, Rdiv.
    replace (Sxy * / d * (Sxy * / d))%R
      with (Sxy * Sxy * (/ d * / d))%R by ring.
    replace (Sxx * / d * (Syy * / d))%R
      with (Sxx * Syy * (/ d * / d))%R by ring.
    apply Rmult_le_compat_r; [|exact HA].
    apply Rmult_le_pos; lra. }
  assert (Hc : (- p <= c <= p)%R).
  { split.
    - apply Ropp_le_cancel. rewrite Ropp_involutive.
      apply Rsqr_incr_0_var; [unfold Rsqr; lra | lra].
    - apply Rsqr_incr_0_var; [unfold Rsqr; lra | lra]. }
  assert (Hq : (0 < / p)%R) by now apply Rinv_0_lt_compat.
  assert (Hpq : (p * / p = 1)%R) by (field; lra).
  unfold Rdiv. split.
  - replace (-1)%R with (- p * / p)%R by lra.
    apply Rmult_le_compat_r; lra.
  - rewrite <- Hpq. apply Rmult_le_compat_r; lra.
Qed.

(** ** The pooled observations of two factors *)

Lemma NoDup_list_prod {A B} (l : list A) (l' : list B) :
  NoDup l -> NoDup l' -> NoDup (list_prod l l').
Proof.
  intros Hl Hl'. induction Hl as [|x l Hx Hl IH]; simpl; [constructor|].
  apply NoDup_app.
  - apply Finite.Injective_map_NoDup; [|exact Hl'].
    intros a b Hab. now injection Hab.
  - exact IH.
  - intros [a b] Hin Hin'. apply in_map_iff in Hin as (y & Heq & _).
    injection Heq as <- <-. apply in_prod_iff in Hin' as [Hin' _].
    contradiction.
Qed.

Lemma Permutation_dropna {A} (a b : list (option A)) :
  Permutation a b -> Permutation (dropna a) (dropna b).
Proof.
  induction 1 as [|x a b _ IH|x y a|a b c _ IH1 _ IH2].
  - constructor.
  - destruct x; simpl; [now constructor | exact IH].
  - destruct x, y; simpl; try reflexivity. apply perm_swap.
  - now transitivity (dropna b).
Qed.

Lemma dropna_map_present {A B} (h : A -> option B) (l : list A) :
  dropna (map h l) = dropna (map h (filter (fun x => is_some (h x)) l)).
Proof.
  induction l as [|x l IH]; [reflexivity|].
  simpl. destruct (h x) as [y|] eqn:E; simpl.
  - rewrite E. simpl. now f_equal.
  - exact IH.
Qed.

Lemma pooled_pairs_over_labels (f g : DataFrame Qc) :
  pooled_pairs f g
  = dropna (map (pair_at f g) (list_prod (index f) (columns f))).
Proof.
  unfold pooled_pairs. induction (index f) as [|d idx IH]; [reflexivity|].
  cbn [flat_map list_prod]. rewrite map_app, dropna_app, IH. f_equal.
  now rewrite map_map.
Qed.

Lemma pair_at_present (f g : DataFrame Qc) (dc : date * string) :
  is_some (pair_at f g dc) = true <->
  (exists x, lookup f (fst dc) (snd dc) = Some x) /\
  (exists y, lookup g (fst dc) (snd dc) = Some y).
Proof.
  unfold pair_at.
  destruct (lookup f (fst dc) (snd dc)) as [x|],
           (lookup g (fst dc) (snd dc)) as [y|]; simpl; split;
    try discriminate; try (intros [[? H1] [? H2]]; discriminate).
  - intros _. split; eexists; reflexivity.
  - reflexivity.
Qed.

(** On panels with distinct labels, the observations of [g] against [f]
    are those of [f] against [g] turned round, in some order. *)
Lemma pooled_pairs_swap (f g : DataFrame Qc) :
  NoDup (index f) -> NoDup (columns f) ->
  NoDup (index g) -> NoDup (columns g) ->
  Permutation (pooled_pairs g f)
              (map (fun p => (snd p, fst p)) (pooled_pairs f g)).
Proof.
  intros Hfi Hfc Hgi Hgc. rewrite !pooled_pairs_over_labels.
  rewrite (dropna_map_present (pair_at g f)),
          (dropna_map_present (pair_at f g)).
  set (Kf := filter (fun x => is_some (pair_at f g x))
                    (list_prod (index f) (columns f))).
  set (Kg := filter (fun x => is_some (pair_at g f x))
                    (list_prod (index g) (columns g))).
  assert (Hperm : Permutation Kg Kf).
  { apply NoDup_Permutation.
    - apply NoDup_filter. now apply NoDup_list_prod.
    - apply NoDup_filter. now apply NoDup_list_prod.
    - intros [d c]. unfold Kg, Kf. rewrite !filter_In, !in_prod_iff.
      rewrite !pair_at_present. cbn [fst snd]. split.
      + intros [_ [[x Hx] [y Hy]]].
        pose proof (lookup_some_labels _ _ _ _ Hy) as Hl.
        split; [exact Hl|]. split; eexists; eassumption.
      + intros [_ [[x Hx] [y Hy]]].
        pose proof (lookup_some_labels _ _ _ _ Hy) as Hl.
        split; [exact Hl|]. split; eexists; eassumption. }
  rewrite <- (dropna_map (fun p : R * R => (snd p, fst p))), map_map.
  assert (Hturn : map (fun x => option_map (fun p : R * R => (snd p, fst p))
                                           (pair_at f g x)) Kf
                  = map (pair_at g f) Kf).
  { apply map_ext. intros dc. unfold pair_at.
    now destruct (lookup f (fst dc) (snd dc)), (lookup g (fst dc) (snd dc)). }
  rewrite Hturn. apply Permutation_dropna, Permutation_map. exact Hperm.
Qed.

Lemma pooled_pairs_self (f : DataFrame Qc) (p : R * R) :
  In p (pooled_pairs f f) -> fst p = snd p.
Proof.
  rewrite pooled_pairs_over_labels. intros Hin.
  apply In_dropna_some, in_map_iff in Hin as (dc & Hp & _).
  unfold pair_at in Hp.
  destruct (lookup f (fst dc) (snd dc)); [|discriminate].
  simpl in Hp. now injection Hp as <-.
Qed.

(** ** The correlation table *)

(** X17.  The table of [calculate_factor_correlation], for factor panels
    with distinct labels, is symmetric; the entry of a factor with itself,
    or with a factor of the same values, is 1 or missing, never anything
    else; and every entry lies between -1 and 1. *)
Theorem correlation_matrix_is_symmetric_with_unit_diagonal
  (s s1 : AlphaBacktest * list Diagnostic) :
  ensure_factors s = inr (tt, s1) ->
  (forall name f, dict_get name (factors (fst s1)) = Some f ->
                  NoDup (index f) /\ NoDup (columns f)) ->
  exists m,
    calculate_factor_correlation s = inr (m, s1) /\
    (forall a b, matrix_entry m a b = matrix_entry m b a) /\
    (forall a b f,
        dict_get a (factors (fst s1)) = Some f ->
        dict_get b (factors (fst s1)) = Some f ->
        matrix_entry m a b = None \/ matrix_entry m a b = Some 1%R) /\
    (forall a b x, matrix_entry m a b = Some x -> (-1 <= x <= 1)%R).
Proof.
  intros He Hnd. eexists.
  split; [apply (calculate_factor_correlation_run s s1 He)|].
  unfold correlation_of. cbv zeta. cbn [matrix_entry].
  set (fs := factors (fst s1)) in *.
  set (names := fold_right insert_sorted [] _).
  split; [|split].
  - intros a b.
    destruct (dict_get a fs) as [f|] eqn:Ha, (dict_get b fs) as [g|] eqn:Hb;
      try reflexivity.
    rewrite (andb_comm (mem b names)).
    destruct (mem a names && mem b names); [|reflexivity].
    destruct (Hnd a f Ha) as [Hfi Hfc]. destruct (Hnd b g Hb) as [Hgi Hgc].
    rewrite (pearson_permutation _ _ (pooled_pairs_swap f g Hfi Hfc Hgi Hgc)).
    symmetry. apply pearson_swap.
  - intros a b f Ha Hb. rewrite Ha, Hb.
    destruct (mem a names && mem b names); [|now left].
    apply pearson_self, pooled_pairs_self.
  - intros a b x.
    destruct (dict_get a fs) as [f|], (dict_get b fs) as [g|];
      try discriminate.
    destruct (mem a names && mem b names); [|discriminate].
    apply pearson_bounds.
Qed.

Lemma sample_factor_labels :
  map (fun kv => (index (snd kv), columns (snd kv)))
      (factors (fst sample_ready))
  = [([0; 1; 2; 3; 4; 5; 6], ["A"; "B"; "C"]);
     ([0; 1; 2; 3; 4; 5; 6], ["A"; "B"; "C"]);
     ([0; 1; 2; 3; 4; 5; 6], ["A"; "B"; "C"])].
Proof. vm_compute. reflexivity. Qed.

Lemma sample_factors_distinct_labels (name : string) (f : DataFrame Qc) :
  dict_get name (factors (fst sample_ready)) = Some f ->
  NoDup (index f) /\ NoDup (columns f).
Proof.
  intros Hget. apply dict_get_In in Hget.
  apply (in_map (fun kv => (index (snd kv), columns (snd kv)))) in Hget.
  rewrite sample_factor_labels in Hget. cbn [snd] in Hget.
  assert (Hl : index f = [0; 1; 2; 3; 4; 5; 6]
               /\ columns f = ["A"; "B"; "C"]).
  { simpl in Hget. destruct Hget as [H|[H|[H|[]]]];
      injection H as <- <-; split; reflexivity. }
  destruct Hl as [-> ->]. split.
  - repeat constructor; simpl; lia.
  - repeat constructor; simpl; intuition discriminate.
Qed.

Lemma correlation_matrix_is_symmetric_with_unit_diagonal_witness :
  exists m,
    calculate_factor_correlation (sample_backtest, [])
    = inr (m, sample_ready) /\
    (forall a b, matrix_entry m a b = matrix_entry m b a) /\
    (forall a b f,
        dict_get a (factors (fst sample_ready)) = Some f ->
        dict_get b (factors (fst sample_ready)) = Some f ->
        matrix_entry m a b = None \/ matrix_entry m a b = Some 1%R) /\
    (forall a b x, matrix_entry m a b = Some x -> (-1 <= x <= 1)%R).
Proof.
  apply (correlation_matrix_is_symmetric_with_unit_diagonal
           (sample_backtest, []) sample_ready).
  - apply sample_ensure_factors.
  - apply sample_factors_distinct_labels.
Defined.

(** ** The range of the information coefficient *)

Lemma s_at_ic_series_of (r f : DataFrame Qc) (dt : date) :
  s_at (ic_series_of r f) dt =
  if mem dt (index f) && mem dt (index r)
  then spearmanr (valid_pairs f r dt) else None.
Proof.
  unfold ic_series_of.
  destruct (fold_ic_date f r (index f)
              (mkSeries (index f) (fun _ => None)) (fun _ => false))
    as [Hidx Hval]; [reflexivity | reflexivity |].
  unfold s_at. rewrite Hidx, Hval. cbn [orb].
  now destruct (mem dt (index f)).
Qed.

Lemma spearmanr_bounds (pairs : list (Qc * Qc)) (x : R) :
  spearmanr pairs = Some x -> (-1 <= x <= 1)%R /\ 2 <= length pairs.
Proof.
  unfold spearmanr. destruct (length pairs <=? 1) eqn:E; [discriminate|].
  apply Nat.leb_gt in E. intros Hp. split; [|lia].
  exact (pearson_bounds _ _ Hp).
Qed.

(** X18.  An information coefficient lies between -1 and 1, and a date
    has one only when it is a date of the factor and of the forward
    returns with at least two instruments that have both values. *)
Theorem information_coefficient_lies_between_minus_one_and_one
  (s s1 : AlphaBacktest * list Diagnostic) (name : string)
  (factor : DataFrame Qc) :
  ensure_factors s = inr (tt, s1) ->
  dict_get name (factors (fst s1)) = Some factor ->
  exists ic,
    calculate_factor_ic name s = inr (ic, s1) /\
    forall dt x,
      s_at ic dt = Some x ->
      (-1 <= x <= 1)%R /\
      In dt (index factor) /\ In dt (index (returns (fst s1))) /\
      2 <= length (valid_pairs factor (returns (fst s1)) dt).
Proof.
  intros He Hf. eexists.
  split; [apply (calculate_factor_ic_run s s1 name factor He Hf)|].
  intros dt x. rewrite s_at_ic_series_of.
  destruct (mem dt (index factor)) eqn:Ef; [|discriminate].
  destruct (mem dt (index (returns (fst s1)))) eqn:Er; [|discriminate].
  cbn [andb]. intros Hx. apply spearmanr_bounds in Hx as [Hb Hl].
  apply mem_In in Ef, Er. auto.
Qed.

Lemma information_coefficient_lies_between_minus_one_and_one_witness :
  exists ic,
    calculate_factor_ic "price_reversal" (sample_backtest, [])
    = inr (ic, sample_ready) /\
    forall dt x,
      s_at ic dt = Some x ->
      (-1 <= x <= 1)%R /\
      In dt (index (sample_factor "price_reversal")) /\
      In dt (index (returns (fst sample_ready))) /\
      2 <= length (valid_pairs (sample_factor "price_reversal")
                               (returns (fst sample_ready)) dt).
Proof.
  apply (information_coefficient_lies_between_minus_one_and_one
           (sample_backtest, []) sample_ready "price_reversal"
           (sample_factor "price_reversal")).
  - apply sample_ensure_factors.
  - apply sample_factor_get. vm_compute. reflexivity.
Defined.
